(** * NotedOK web service: the note-storage adapter over an object store

    Shallow embedding of [app/s3connect.go], [app/validation.go] and the
    listing handler of [app/storageapi.go], together with a reference model
    of the object store the adapter talks to, and the properties of the
    List / Read / Write / Rename / Delete operations. *)

From Stdlib Require Import ZArith Ascii String.
From stdpp Require Import base option list strings gmap fin_maps.

Local Open Scope Z_scope.
Local Open Scope list_scope.

(** ** Go strings

    A Go [string] is a sequence of bytes; it is embedded as Rocq's [string]
    (a list of 8-bit [ascii]).  [len] is [String.length]. *)

Module GoStrings.

(** [s[n:]] for [n <= len(s)]. *)
Fixpoint slice_from (n : nat) (s : string) : string :=
  match n, s with
  | O, _ => s
  | S n', String _ s' => slice_from n' s'
  | S _, EmptyString => EmptyString
  end.

(** [s[:n]] for [n <= len(s)]. *)
Fixpoint slice_to (n : nat) (s : string) : string :=
  match n, s with
  | O, _ => EmptyString
  | S n', String c s' => String c (slice_to n' s')
  | S _, EmptyString => EmptyString
  end.

(** [strings.HasPrefix]:
    [len(s) >= len(prefix) && s[:len(prefix)] == prefix]. *)
Definition HasPrefix (s prefix : string) : bool :=
  (String.length prefix <=? String.length s)%nat
  && String.eqb (slice_to (String.length prefix) s) prefix.

(** [strings.HasSuffix]:
    [len(s) >= len(suffix) && s[len(s)-len(suffix):] == suffix]. *)
Definition HasSuffix (s suffix : string) : bool :=
  (String.length suffix <=? String.length s)%nat
  && String.eqb (slice_from (String.length s - String.length suffix) s) suffix.

(** [strings.CutPrefix]: without the prefix, [s] comes back unchanged
    together with [false]. *)
Definition CutPrefix (s prefix : string) : string * bool :=
  if HasPrefix s prefix then (slice_from (String.length prefix) s, true)
  else (s, false).

(** [strings.Contains(s, substr)], that is [strings.Index(s, substr) >= 0]:
    [substr] starts at some offset of [s]. *)
Fixpoint Contains (s substr : string) : bool :=
  HasPrefix s substr
  || match s with
     | EmptyString => false
     | String _ s' => Contains s' substr
     end.

End GoStrings.
Export GoStrings.

(** ** [net/url]: the two escaping functions the service calls *)

Module url.

Definition byte_in (lo hi c : ascii) : bool :=
  (nat_of_ascii lo <=? nat_of_ascii c)%nat && (nat_of_ascii c <=? nat_of_ascii hi)%nat.

Definition is_alnum (c : ascii) : bool :=
  byte_in "a" "z" c || byte_in "A" "Z" c || byte_in "0" "9" c.

(** [shouldEscape(c, encodeQueryComponent)]: unreserved characters
    (alphanumerics and [-_.~]) stay, the reserved ones of §2.2 are escaped
    in a query component, and so is everything else. *)
Definition shouldEscape_query (c : ascii) : bool :=
  if is_alnum c then false
  else if (Ascii.eqb c "-" || Ascii.eqb c "_" || Ascii.eqb c "." || Ascii.eqb c "~")
  then false
  else true.

(** [upperhex[n]] for [n < 16]. *)
Definition upperhex (n : nat) : ascii :=
  match String.get n "0123456789ABCDEF" with
  | Some c => c
  | None => "0"%char
  end.

(** [url.QueryEscape]: a space becomes [+], any other byte to escape
    becomes [%XX] with [XX = upperhex[c>>4], upperhex[c&15]]. *)
Fixpoint QueryEscape (s : string) : string :=
  match s with
  | EmptyString => EmptyString
  | String c s' =>
      if Ascii.eqb c " " then String "+" (QueryEscape s')
      else if shouldEscape_query c then
        String "%" (String (upperhex (nat_of_ascii c / 16))
                      (String (upperhex (nat_of_ascii c mod 16)) (QueryEscape s')))
      else String c (QueryEscape s')
  end.

Definition ishex (c : ascii) : bool :=
  byte_in "0" "9" c || byte_in "a" "f" c || byte_in "A" "F" c.

Definition unhex (c : ascii) : nat :=
  if byte_in "0" "9" c then nat_of_ascii c - nat_of_ascii "0"
  else if byte_in "a" "f" c then nat_of_ascii c - nat_of_ascii "a" + 10
  else if byte_in "A" "F" c then nat_of_ascii c - nat_of_ascii "A" + 10
  else 0.

(** The two modes of [unescape] that matter here. *)
Inductive encoding := encodePathSegment | encodeQueryComponent.

(** [unescape(s, mode)]: every [%] must be followed by two hex digits
    (otherwise an [EscapeError], here [None]); [%XX] becomes the byte, and a
    [+] becomes a space in a query component only. *)
Fixpoint unescape (s : string) (mode : encoding) : option string :=
  match s with
  | EmptyString => Some EmptyString
  | String c s' =>
      if Ascii.eqb c "%" then
        match s' with
        | String h (String l rest) =>
            if ishex h && ishex l then
              match unescape rest mode with
              | Some t => Some (String (ascii_of_nat (unhex h * 16 + unhex l)) t)
              | None => None
              end
            else None
        | _ => None
        end
      else
        match unescape s' mode with
        | Some t =>
            Some (String (match mode with
                          | encodeQueryComponent => if Ascii.eqb c "+" then " "%char else c
                          | encodePathSegment => c
                          end) t)
        | None => None
        end
  end.

Definition PathUnescape (s : string) : option string := unescape s encodePathSegment.
Definition QueryUnescape (s : string) : option string := unescape s encodeQueryComponent.

End url.

(** ** [app/validation.go] *)

Definition isPageSizeValid (pageSize : Z) : bool := pageSize <=? 1000.

Definition isContinuationTokenValid (continuationToken : string) : bool :=
  (String.length continuationToken <=? 1000)%nat.

Definition isFileNameValid (fileName : string) : bool :=
  (String.length fileName <=? 200)%nat
  && ((HasSuffix fileName ".txt" && (4 <? String.length fileName)%nat)
      || (HasSuffix fileName ".md" && (3 <? String.length fileName)%nat))
  && negb (Contains fileName "/").

Definition isEtagValid (etag : string) : bool :=
  (String.length etag <=? 100)%nat.

Definition isContentValid (content : string) : bool :=
  Z.of_nat (String.length content) <=? 102400.

(** ** The domain errors of [app/s3connect.go] *)

Inductive Err :=
| ErrServiceUnavailable
| ErrInvalidArgument
| ErrNotFound
| ErrNotModified
| ErrAlreadyExists.

#[global] Instance Err_eq_dec : EqDecision Err.
Proof. solve_decision. Defined.

(** A Go result pair [(value, err)]: either the value, or the error. *)
Inductive result (E A : Type) :=
| Ok (a : A)
| Error (e : E).
Arguments Ok {E A} a.
Arguments Error {E A} e.

(** ** The object-store client (AWS SDK), seen from the adapter

    An error of the SDK either unwraps to a [smithy.APIError] carrying an
    error code ([errors.As] succeeds), or it does not. *)

Inductive SdkError :=
| APIError (ErrorCode : string)
| OtherError.

#[global] Instance SdkError_eq_dec : EqDecision SdkError.
Proof. solve_decision. Defined.

Record ListObjectsV2Input := {
  lo_Bucket : string;
  lo_Prefix : string;
  lo_MaxKeys : Z;
  lo_ContinuationToken : option string
}.

(** [types.Object], the fields the adapter reads. *)
Record S3Object := {
  obj_Key : string;
  obj_LastModified : Z;
  obj_ETag : string
}.

Record ListObjectsV2Output := {
  Contents : list S3Object;
  IsTruncated : bool;
  out_NextContinuationToken : option string
}.

Record GetObjectInput := {
  go_Bucket : string;
  go_Key : string;
  go_IfNoneMatch : option string
}.

Record GetObjectOutput := {
  go_Body : string;
  go_ETag : string
}.

Record PutObjectInput := {
  po_Bucket : string;
  po_Key : string;
  po_ContentType : string;
  po_Body : string;
  po_IfNoneMatch : option string
}.

Record PutObjectOutput := { po_ETag : string }.

Record CopyObjectInput := {
  co_Bucket : string;
  co_CopySource : string;
  co_Key : string
}.

Record CopyObjectOutput := { CopyObjectResult_ETag : string }.

Record DeleteObjectInput := {
  do_Bucket : string;
  do_Key : string
}.

(** A request sent to the store. *)
Inductive Request :=
| ListObjectsV2Req (input : ListObjectsV2Input)
| GetObjectReq (input : GetObjectInput)
| PutObjectReq (input : PutObjectInput)
| CopyObjectReq (input : CopyObjectInput)
| DeleteObjectReq (input : DeleteObjectInput).

(** ** Reference model of the object store

    The store is the external collaborator of the adapter (the capability of
    §6 of the specification): a map from (bucket, key) to objects, with
    the conditional requests the adapter relies on.  What the store decides
    on its own is left open in [StoreParams]: the entity tag it assigns to a
    content, and the object a [CopySource] header names. *)

Record StoredObject := {
  Body : string;
  ContentType : string;
  ETag : string;
  LastModified : Z
}.

Class StoreParams := {
  etag_of : string -> string;
  parse_copy_source : string -> option (string * string)
}.

(** The world the adapter runs in: the store, the failures still to come
    (one entry per interaction with the SDK, an attempt of a call counting
    for one; [None] or a missing entry meaning the interaction goes
    through), the requests sent so far, and the store's clock. *)
Record World := {
  store : gmap (string * string) StoredObject;
  faults : list (option SdkError);
  trace : list Request;
  now : Z
}.

Definition IO (A : Type) : Type := World -> A * World.

Definition ret {A} (a : A) : IO A := fun w => (a, w).

Definition bind {A B} (m : IO A) (k : A -> IO B) : IO B :=
  fun w => let (a, w') := m w in k a w'.

Notation "'let*' x ':=' m 'in' k" := (bind m (fun x => k))
  (at level 10, x name, m at level 100, k at level 200).

Definition set_store (s : gmap (string * string) StoredObject) (w : World) : World :=
  {| store := s; faults := faults w; trace := trace w; now := now w |}.

Definition tick (w : World) : World :=
  {| store := store w; faults := faults w; trace := trace w; now := now w + 1 |}.

(** The next entry of the failure schedule. *)
Definition next_fault : IO (option SdkError) :=
  fun w =>
    match faults w with
    | [] => (None, w)
    | f :: fs => (f, {| store := store w; faults := fs; trace := trace w; now := now w |})
    end.

Definition send (req : Request) : IO unit :=
  fun w => (tt, {| store := store w; faults := faults w;
                   trace := trace w ++ [req]; now := now w |}).

(** The retryer of the client.  The adapter loads the default configuration
    and builds its client from it with no option, so every call goes
    through the SDK's standard retryer: a failed attempt is followed by
    another when its error is retryable, up to [DefaultMaxAttempts] attempts
    in all.  The retryer takes an error for retryable by the code it
    carries (time-outs, throttling), by the status of the response (500,
    502, 503, 504: for this store the codes [InternalError],
    [ServiceUnavailable] and [SlowDown]), or because it is a failure of the
    connection, which is what an error without API error stands for here. *)
Definition DefaultMaxAttempts : nat := 3.

Definition DefaultRetryableErrorCodes : list string :=
  ["RequestTimeout"; "RequestTimeoutException"].

Definition DefaultThrottleErrorCodes : list string :=
  ["Throttling"; "ThrottlingException"; "ThrottledException";
   "RequestThrottledException"; "TooManyRequestsException";
   "ProvisionedThroughputExceededException"; "TransactionInProgressException";
   "RequestLimitExceeded"; "BandwidthLimitExceeded"; "LimitExceededException";
   "RequestThrottled"; "SlowDown"; "PriorRequestNotComplete"; "EC2ThrottledException"].

(** The codes the store sends with a retryable status. *)
Definition RetryableStatusErrorCodes : list string :=
  ["InternalError"; "ServiceUnavailable"; "SlowDown"].

Definition IsErrorRetryable (err : SdkError) : bool :=
  match err with
  | APIError code =>
      existsb (String.eqb code)
        (DefaultRetryableErrorCodes ++ DefaultThrottleErrorCodes ++ RetryableStatusErrorCodes)
  | OtherError => true
  end.

(** One call of the client, [retries] being the attempts it may still make
    after the next one.  An attempt sends the request; when it meets a
    scheduled failure the store stays as it was, and the call either makes
    another attempt or returns the failure; an attempt that goes through
    gets the store's answer, which ends the call: what the reference store
    refuses, it refuses with a code that is not retryable. *)
Fixpoint attempt {O} (retries : nat) (req : Request) (answer : IO (result SdkError O))
  : IO (result SdkError O) :=
  let* _ := send req in
  let* f := next_fault in
  match f with
  | None => answer
  | Some err =>
      match retries with
      | S retries' =>
          if IsErrorRetryable err then attempt retries' req answer else ret (Error err)
      | O => ret (Error err)
      end
  end.

Definition exchange {O} (req : Request) (answer : IO (result SdkError O))
  : IO (result SdkError O) :=
  attempt (DefaultMaxAttempts - 1) req answer.

(** [config.LoadDefaultConfig]: returns the error, if any. *)
Definition LoadDefaultConfig : IO (option SdkError) := next_fault.

(** [io.ReadAll(output.Body)]. *)
Definition ReadAll (body : string) : IO (result SdkError string) :=
  let* f := next_fault in
  match f with
  | Some err => ret (Error err)
  | None => ret (Ok body)
  end.

Section Store.
Context `{SP : StoreParams}.

(** The part of a listing that follows the entry a continuation token
    names; the token is the key of the last entry of the previous page. *)
Fixpoint after_token (token : string) (l : list (string * StoredObject))
  : option (list (string * StoredObject)) :=
  match l with
  | [] => None
  | (k, o) :: rest => if String.eqb k token then Some rest else after_token token rest
  end.

Definition to_S3Object (kv : string * StoredObject) : S3Object :=
  {| obj_Key := fst kv; obj_LastModified := LastModified (snd kv); obj_ETag := ETag (snd kv) |}.

(** The entries of a bucket under a prefix, in the store's own order. *)
Definition bucket_entries (bucket prefix : string)
    (s : gmap (string * string) StoredObject) : list (string * StoredObject) :=
  omap (fun kv : (string * string) * StoredObject =>
          if String.eqb (fst (fst kv)) bucket && HasPrefix (snd (fst kv)) prefix
          then Some (snd (fst kv), snd kv) else None)
       (map_to_list s).

Definition list_page (input : ListObjectsV2Input) (entries : list (string * StoredObject))
  : ListObjectsV2Output :=
  let n := Z.to_nat (Z.min (lo_MaxKeys input) 1000) in
  let page := take n entries in
  let truncated := (0 <? n)%nat && (n <? length entries)%nat in
  {| Contents := to_S3Object <$> page;
     IsTruncated := truncated;
     out_NextContinuationToken :=
       if truncated then fst <$> last page else None |}.

Definition store_list (input : ListObjectsV2Input) (s : gmap (string * string) StoredObject)
  : result SdkError ListObjectsV2Output :=
  if lo_MaxKeys input <? 0 then Error (APIError "InvalidArgument")
  else
    let all := bucket_entries (lo_Bucket input) (lo_Prefix input) s in
    match lo_ContinuationToken input with
    | None => Ok (list_page input all)
    | Some token =>
        match after_token token all with
        | Some rest => Ok (list_page input rest)
        | None => Error (APIError "InvalidArgument")
        end
    end.

(** A get with [If-None-Match] is answered "not modified" when the tag is
    the object's current one. *)
Definition store_get (input : GetObjectInput) (s : gmap (string * string) StoredObject)
  : result SdkError GetObjectOutput :=
  match s !! (go_Bucket input, go_Key input) with
  | None => Error (APIError "NoSuchKey")
  | Some o =>
      match go_IfNoneMatch input with
      | Some tag =>
          if String.eqb tag (ETag o) then Error (APIError "NotModified")
          else Ok {| go_Body := Body o; go_ETag := ETag o |}
      | None => Ok {| go_Body := Body o; go_ETag := ETag o |}
      end
  end.

Definition new_object (body contentType : string) (time : Z) : StoredObject :=
  {| Body := body; ContentType := contentType; ETag := etag_of body; LastModified := time |}.

(** A put with [If-None-Match: *] goes through only when the key is free. *)
Definition store_put (input : PutObjectInput) : IO (result SdkError PutObjectOutput) :=
  fun w =>
    let k := (po_Bucket input, po_Key input) in
    let o := new_object (po_Body input) (po_ContentType input) (now w) in
    let stored := (Ok {| po_ETag := ETag o |}, tick (set_store (<[k := o]> (store w)) w)) in
    match po_IfNoneMatch input with
    | None => stored
    | Some cond =>
        if String.eqb cond "*" then
          match store w !! k with
          | Some _ => (Error (APIError "PreconditionFailed"), w)
          | None => stored
          end
        else (Error (APIError "NotImplemented"), w)
    end.

(** A copy takes the content of the source object to the target key.  The
    copy of an object onto itself, which changes nothing of it, is refused
    as an invalid request: S3 takes such a copy for illegal unless it
    changes the metadata, the storage class or the encryption of the
    object, and the adapter's copy request changes none. *)
Definition store_copy (input : CopyObjectInput) : IO (result SdkError CopyObjectOutput) :=
  fun w =>
    match parse_copy_source (co_CopySource input) with
    | None => (Error (APIError "InvalidArgument"), w)
    | Some src =>
        match store w !! src with
        | None => (Error (APIError "NoSuchKey"), w)
        | Some o =>
            if decide (src = (co_Bucket input, co_Key input))
            then (Error (APIError "InvalidRequest"), w)
            else
              let o' := new_object (Body o) (ContentType o) (now w) in
              (Ok {| CopyObjectResult_ETag := ETag o' |},
               tick (set_store (<[(co_Bucket input, co_Key input) := o']> (store w)) w))
        end
    end.

(** Deleting a key that is not there succeeds. *)
Definition store_delete (input : DeleteObjectInput) : IO (result SdkError unit) :=
  fun w => (Ok tt, set_store (delete (do_Bucket input, do_Key input) (store w)) w).

(** The client calls. *)
Definition ListObjectsV2 (input : ListObjectsV2Input) :=
  exchange (ListObjectsV2Req input) (fun w => (store_list input (store w), w)).
Definition GetObject (input : GetObjectInput) :=
  exchange (GetObjectReq input) (fun w => (store_get input (store w), w)).
Definition PutObject (input : PutObjectInput) :=
  exchange (PutObjectReq input) (store_put input).
Definition CopyObject (input : CopyObjectInput) :=
  exchange (CopyObjectReq input) (store_copy input).
Definition DeleteObject (input : DeleteObjectInput) :=
  exchange (DeleteObjectReq input) (store_delete input).

End Store.

(** ** [app/s3connect.go]: the adapter *)

Record FileData := {
  FileName : string;
  fd_LastModified : Z;
  fd_ETag : string
}.

Record ListFilesResult := {
  Files : list FileData;
  HasMore : bool;
  NextContinuationToken : string
}.

Record GetFileContentResult := {
  Content : string;
  gfc_ETag : string
}.

Record SaveFileContentResult := { sfc_ETag : string }.

Record RenameFileResult := { rf_ETag : string }.

(** The incoming error goes to the log, the outgoing one to the caller. *)
Definition logAndReturnError (errIn : SdkError) (errOut : Err) : Err := errOut.

Definition isSupportedFileType (fileName : string) : bool :=
  HasSuffix fileName ".txt" || HasSuffix fileName ".md".

Definition isMarkdown (fileName : string) : bool := HasSuffix fileName ".md".

(** [int32(pageSize)]: conversion with wrap-around. *)
Definition int32 (z : Z) : Z := (z + 2 ^ 31) mod 2 ^ 32 - 2 ^ 31.

(** The [for _, obj := range output.Contents] loop of [listFiles], with
    [files] the slice appended to. *)
Fixpoint listFiles_range (prefix : string) (contents : list S3Object)
    (files : list FileData) : list FileData :=
  match contents with
  | [] => files
  | obj :: rest =>
      if isSupportedFileType (obj_Key obj) then
        let prefixStripped := fst (CutPrefix (obj_Key obj) prefix) in
        let file := {| FileName := prefixStripped;
                       fd_LastModified := obj_LastModified obj;
                       fd_ETag := obj_ETag obj |} in
        listFiles_range prefix rest (files ++ [file])
      else listFiles_range prefix rest files
  end.

Section Adapter.
Context `{SP : StoreParams}.

Definition listFiles (bucket prefix : string) (pageSize : Z) (continuationToken : string)
  : IO (result Err ListFilesResult) :=
  let* cfg := LoadDefaultConfig in
  match cfg with
  | Some err => ret (Error (logAndReturnError err ErrServiceUnavailable))
  | None =>
      let maxKeys := int32 pageSize in
      let input := {| lo_Bucket := bucket; lo_Prefix := prefix; lo_MaxKeys := maxKeys;
                      lo_ContinuationToken :=
                        if String.eqb continuationToken EmptyString then None
                        else Some continuationToken |} in
      let* fetched := ListObjectsV2 input in
      match fetched with
      | Error err =>
          match err with
          | APIError code =>
              if String.eqb code "InvalidArgument"
              then ret (Error (logAndReturnError err ErrInvalidArgument))
              else ret (Error (logAndReturnError err ErrServiceUnavailable))
          | OtherError => ret (Error (logAndReturnError err ErrServiceUnavailable))
          end
      | Ok output =>
          let files := listFiles_range prefix (Contents output) [] in
          ret (Ok {| Files := files;
                     HasMore := IsTruncated output;
                     NextContinuationToken :=
                       match out_NextContinuationToken output with
                       | Some token => token
                       | None => EmptyString
                       end |})
      end
  end.

Definition getFileContent (bucket prefix fileName etag : string)
  : IO (result Err GetFileContentResult) :=
  let* cfg := LoadDefaultConfig in
  match cfg with
  | Some err => ret (Error (logAndReturnError err ErrServiceUnavailable))
  | None =>
      let key := prefix +:+ fileName in
      let input := {| go_Bucket := bucket; go_Key := key;
                      go_IfNoneMatch := if String.eqb etag EmptyString then None else Some etag |} in
      let* fetched := GetObject input in
      match fetched with
      | Error err =>
          match err with
          | APIError code =>
              if String.eqb code "NoSuchKey"
              then ret (Error (logAndReturnError err ErrNotFound))
              else if String.eqb code "NotModified"
              then ret (Error (logAndReturnError err ErrNotModified))
              else ret (Error (logAndReturnError err ErrServiceUnavailable))
          | OtherError => ret (Error (logAndReturnError err ErrServiceUnavailable))
          end
      | Ok output =>
          let* read := ReadAll (go_Body output) in
          match read with
          | Error err => ret (Error (logAndReturnError err ErrServiceUnavailable))
          | Ok bytes => ret (Ok {| Content := bytes; gfc_ETag := go_ETag output |})
          end
      end
  end.

Definition saveFileContent (bucket prefix fileName content : string) (overwrite : bool)
  : IO (result Err SaveFileContentResult) :=
  let* cfg := LoadDefaultConfig in
  match cfg with
  | Some err => ret (Error (logAndReturnError err ErrServiceUnavailable))
  | None =>
      let key := prefix +:+ fileName in
      let contentType :=
        if isMarkdown fileName then "text/markdown; charset=UTF-8" else "text/plain" in
      let input := {| po_Bucket := bucket; po_Key := key; po_ContentType := contentType;
                      po_Body := content;
                      po_IfNoneMatch := if negb overwrite then Some "*" else None |} in
      let* stored := PutObject input in
      match stored with
      | Error err =>
          match err with
          | APIError code =>
              if String.eqb code "PreconditionFailed"
              then ret (Error (logAndReturnError err ErrAlreadyExists))
              else ret (Error (logAndReturnError err ErrServiceUnavailable))
          | OtherError => ret (Error (logAndReturnError err ErrServiceUnavailable))
          end
      | Ok output => ret (Ok {| sfc_ETag := po_ETag output |})
      end
  end.

Definition renameFile (bucket prefix fileName newFileName : string)
  : IO (result Err RenameFileResult) :=
  let* cfg := LoadDefaultConfig in
  match cfg with
  | Some err => ret (Error (logAndReturnError err ErrServiceUnavailable))
  | None =>
      let* reserved := saveFileContent bucket prefix newFileName EmptyString false in
      match reserved with
      | Error err => ret (Error err)
      | Ok _ =>
          let source := bucket +:+ "/" +:+ prefix +:+ url.QueryEscape fileName in
          let newKey := prefix +:+ newFileName in
          let copyObjectInput := {| co_Bucket := bucket; co_CopySource := source;
                                    co_Key := newKey |} in
          let* copied := CopyObject copyObjectInput in
          match copied with
          | Error err =>
              match err with
              | APIError code =>
                  if String.eqb code "NoSuchKey"
                  then ret (Error (logAndReturnError err ErrNotFound))
                  else ret (Error (logAndReturnError err ErrServiceUnavailable))
              | OtherError => ret (Error (logAndReturnError err ErrServiceUnavailable))
              end
          | Ok output =>
              let result := {| rf_ETag := CopyObjectResult_ETag output |} in
              let key := prefix +:+ fileName in
              let deleteObjectInput := {| do_Bucket := bucket; do_Key := key |} in
              let* deleted := DeleteObject deleteObjectInput in
              match deleted with
              | Error err => ret (Error (logAndReturnError err ErrServiceUnavailable))
              | Ok _ => ret (Ok result)
              end
          end
      end
  end.

(** [deleteFile] returns only an error; [None] is Go's [nil]. *)
Definition deleteFile (bucket prefix fileName : string) : IO (option Err) :=
  let* cfg := LoadDefaultConfig in
  match cfg with
  | Some err => ret (Some (logAndReturnError err ErrServiceUnavailable))
  | None =>
      let key := prefix +:+ fileName in
      let input := {| do_Bucket := bucket; do_Key := key |} in
      let* deleted := DeleteObject input in
      match deleted with
      | Error err =>
          match err with
          | APIError code =>
              if String.eqb code "NoSuchKey" then ret None
              else ret (Some (logAndReturnError err ErrServiceUnavailable))
          | OtherError => ret (Some (logAndReturnError err ErrServiceUnavailable))
          end
      | Ok _ => ret None
      end
  end.

End Adapter.

(** ** [app/storageapi.go]: the listing handler *)

Definition PAGE_SIZE_DEFAULT : Z := 100.

Record getFilesDataIn := {
  PageSize : Z;
  ContinuationToken : string
}.

Record FileDataOut := {
  fdo_FileName : string;
  fdo_LastModified : Z;
  fdo_ETag : string
}.

Record getFilesDataOut := {
  gf_Files : list FileDataOut;
  gf_HasMore : bool;
  gf_NextContinuationToken : string
}.

(** What the handler answers: [toBadRequest], [toInternalServerError] or
    [toSuccess] with the data. *)
Inductive Response :=
| BadRequest
| InternalServerError (err : Err)
| Success (data : getFilesDataOut).

(** The [for _, file := range result.Files] loop of [handleGetFiles]. *)
Fixpoint handleGetFiles_range (resultFiles : list FileData) (files : list FileDataOut)
  : list FileDataOut :=
  match resultFiles with
  | [] => files
  | file :: rest =>
      if isFileNameValid (FileName file) then
        handleGetFiles_range rest
          (files ++ [{| fdo_FileName := FileName file;
                        fdo_LastModified := fd_LastModified file;
                        fdo_ETag := fd_ETag file |}])
      else handleGetFiles_range rest files
  end.

Section Handlers.
Context `{SP : StoreParams}.

(** [bound] is the outcome of [c.ShouldBindQuery]: the query parameters, or
    [None] when binding fails.  [_bucket] is the package variable. *)
Definition handleGetFiles (_bucket : string) (bound : option getFilesDataIn) (userId : string)
  : IO Response :=
  let prefix := userId +:+ "/" in
  match bound with
  | None => ret BadRequest
  | Some getFilesIn =>
      let pageSize := PageSize getFilesIn in
      if negb (isPageSizeValid (PageSize getFilesIn)) then ret BadRequest
      else
        let pageSize := if pageSize =? 0 then PAGE_SIZE_DEFAULT else pageSize in
        if negb (isContinuationTokenValid (ContinuationToken getFilesIn)) then ret BadRequest
        else
          match url.PathUnescape (ContinuationToken getFilesIn) with
          | None => ret BadRequest
          | Some continuationToken =>
              let* listed := listFiles _bucket prefix pageSize continuationToken in
              match listed with
              | Error err =>
                  if decide (err = ErrInvalidArgument) then ret BadRequest
                  else ret (InternalServerError err)
              | Ok result =>
                  let files := handleGetFiles_range (Files result) [] in
                  ret (Success {| gf_Files := files;
                                  gf_HasMore := HasMore result;
                                  gf_NextContinuationToken :=
                                    url.QueryEscape (NextContinuationToken result) |})
              end
          end
  end.

End Handlers.

(** ** The replies of the file handlers

    The helpers of the router file: each sets the status code, possibly the
    [ETag] header, and a body. *)

Inductive ReplyBody :=
| NoBody
| PlainText (content : string)
| JsonErr (err : string).

Record Reply := {
  Status : Z;
  HeaderETag : option string;
  Payload : ReplyBody
}.

Definition StatusOK : Z := 200.
Definition StatusNoContent : Z := 204.
Definition StatusNotModified : Z := 304.
Definition StatusBadRequest : Z := 400.
Definition StatusNotFound : Z := 404.
Definition StatusConflict : Z := 409.
Definition StatusInternalServerError : Z := 500.

Definition toPlainTextWithEtag (content etag : string) : Reply :=
  {| Status := StatusOK; HeaderETag := Some etag; Payload := PlainText content |}.

Definition toNoContentWithEtag (etag : string) : Reply :=
  {| Status := StatusNoContent; HeaderETag := Some etag; Payload := NoBody |}.

Definition toNoContent : Reply :=
  {| Status := StatusNoContent; HeaderETag := None; Payload := NoBody |}.

Definition toBadRequest (err : string) : Reply :=
  {| Status := StatusBadRequest; HeaderETag := None; Payload := JsonErr err |}.

Definition toConflict (err : string) : Reply :=
  {| Status := StatusConflict; HeaderETag := None; Payload := JsonErr err |}.

Definition toNotFound : Reply :=
  {| Status := StatusNotFound; HeaderETag := None; Payload := JsonErr "Not Found" |}.

Definition toNotModified : Reply :=
  {| Status := StatusNotModified; HeaderETag := None; Payload := JsonErr "Not Modified" |}.

Definition toInternalServerError (errText : string) : Reply :=
  {| Status := StatusInternalServerError; HeaderETag := None; Payload := JsonErr errText |}.

(** [err.Error()] of the domain errors. *)
Definition Err_Error (err : Err) : string :=
  match err with
  | ErrServiceUnavailable => "service unavailable"
  | ErrInvalidArgument => "invalid argument"
  | ErrNotFound => "not found"
  | ErrNotModified => "not modified"
  | ErrAlreadyExists => "already exists"
  end.

(** ** [app/storageapi.go]: the file handlers

    [bound] is the outcome of [c.ShouldBindUri] or [c.ShouldBindJSON]: the
    data, or the text of the binding error.  [ifNoneMatch] is
    [c.Request.Header["If-None-Match"]], [body] what [readBody] returns. *)

Record getFileDataIn := { gfi_FileName : string }.
Record putFileDataIn := { pfi_FileName : string }.
Record postFileDataIn := { pofi_FileName : string }.
Record deleteFileDataIn := { dfi_FileName : string }.
Record renameFileDataIn := { rfi_FileName : string; rfi_NewFileName : string }.

Definition invalidFileName (fileName : string) : string :=
  "invalid fileName '" +:+ fileName +:+ "', check the requirements".

Definition undecodableFileName (fileName : string) : string :=
  "invalid fileName '" +:+ fileName +:+ "', could not decode".

Definition invalidNewFileName (fileName : string) : string :=
  "invalid new fileName '" +:+ fileName +:+ "', check the requirements".

Definition undecodableNewFileName (fileName : string) : string :=
  "invalid new fileName '" +:+ fileName +:+ "', could not decode".

Definition invalidContent : string := "invalid content, should be less or equal than 100KB".

Definition invalidEtag (etag : string) : string :=
  "invalid etag '" +:+ etag +:+ "', should be less than 100 chars long".

Section FileHandlers.
Context `{SP : StoreParams}.

Definition handleGetFile (_bucket : string) (bound : result string getFileDataIn)
    (ifNoneMatch : list string) (userId : string) : IO Reply :=
  let prefix := userId +:+ "/" in
  match bound with
  | Error err => ret (toBadRequest err)
  | Ok getFileIn =>
      let etag := match ifNoneMatch with
                  | first :: _ => first
                  | [] => EmptyString
                  end in
      if negb (isFileNameValid (gfi_FileName getFileIn))
      then ret (toBadRequest (invalidFileName (gfi_FileName getFileIn)))
      else
        match url.PathUnescape (gfi_FileName getFileIn) with
        | None => ret (toBadRequest (undecodableFileName (gfi_FileName getFileIn)))
        | Some fileName =>
            if negb (isEtagValid etag) then ret (toBadRequest (invalidEtag etag))
            else
              let* fetched := getFileContent _bucket prefix fileName etag in
              match fetched with
              | Error err =>
                  if decide (err = ErrNotFound) then ret toNotFound
                  else if decide (err = ErrNotModified) then ret toNotModified
                  else ret (toInternalServerError (Err_Error err))
              | Ok result => ret (toPlainTextWithEtag (Content result) (gfc_ETag result))
              end
        end
  end.

Definition handlePutFile (_bucket : string) (bound : result string putFileDataIn)
    (body : string) (userId : string) : IO Reply :=
  let prefix := userId +:+ "/" in
  match bound with
  | Error err => ret (toBadRequest err)
  | Ok putFileIn =>
      let content := body in
      if negb (isFileNameValid (pfi_FileName putFileIn))
      then ret (toBadRequest (invalidFileName (pfi_FileName putFileIn)))
      else
        match url.PathUnescape (pfi_FileName putFileIn) with
        | None => ret (toBadRequest (undecodableFileName (pfi_FileName putFileIn)))
        | Some fileName =>
            if negb (isContentValid content) then ret (toBadRequest invalidContent)
            else
              let* saved := saveFileContent _bucket prefix fileName content true in
              match saved with
              | Error err => ret (toInternalServerError (Err_Error err))
              | Ok result => ret (toNoContentWithEtag (sfc_ETag result))
              end
        end
  end.

Definition handlePostFile (_bucket : string) (bound : result string postFileDataIn)
    (body : string) (userId : string) : IO Reply :=
  let prefix := userId +:+ "/" in
  match bound with
  | Error err => ret (toBadRequest err)
  | Ok postFileIn =>
      let content := body in
      if negb (isFileNameValid (pofi_FileName postFileIn))
      then ret (toBadRequest (invalidFileName (pofi_FileName postFileIn)))
      else
        match url.PathUnescape (pofi_FileName postFileIn) with
        | None => ret (toBadRequest (undecodableFileName (pofi_FileName postFileIn)))
        | Some fileName =>
            if negb (isContentValid content) then ret (toBadRequest invalidContent)
            else
              let* saved := saveFileContent _bucket prefix fileName content false in
              match saved with
              | Error err =>
                  if decide (err = ErrAlreadyExists) then ret (toConflict (Err_Error err))
                  else ret (toInternalServerError (Err_Error err))
              | Ok result => ret (toNoContentWithEtag (sfc_ETag result))
              end
        end
  end.

Definition handleDeleteFile (_bucket : string) (bound : result string deleteFileDataIn)
    (userId : string) : IO Reply :=
  let prefix := userId +:+ "/" in
  match bound with
  | Error err => ret (toBadRequest err)
  | Ok deleteFileIn =>
      if negb (isFileNameValid (dfi_FileName deleteFileIn))
      then ret (toBadRequest (invalidFileName (dfi_FileName deleteFileIn)))
      else
        match url.PathUnescape (dfi_FileName deleteFileIn) with
        | None => ret (toBadRequest (undecodableFileName (dfi_FileName deleteFileIn)))
        | Some fileName =>
            let* err := deleteFile _bucket prefix fileName in
            match err with
            | Some err => ret (toInternalServerError (Err_Error err))
            | None => ret toNoContent
            end
        end
  end.

Definition handleRenameFile (_bucket : string) (bound : result string renameFileDataIn)
    (userId : string) : IO Reply :=
  let prefix := userId +:+ "/" in
  match bound with
  | Error err => ret (toBadRequest err)
  | Ok renameFileIn =>
      if negb (isFileNameValid (rfi_FileName renameFileIn))
      then ret (toBadRequest (invalidFileName (rfi_FileName renameFileIn)))
      else
        match url.PathUnescape (rfi_FileName renameFileIn) with
        | None => ret (toBadRequest (undecodableFileName (rfi_FileName renameFileIn)))
        | Some fileName =>
            if negb (isFileNameValid (rfi_NewFileName renameFileIn))
            then ret (toBadRequest (invalidNewFileName (rfi_NewFileName renameFileIn)))
            else
              match url.PathUnescape (rfi_NewFileName renameFileIn) with
              | None =>
                  ret (toBadRequest (undecodableNewFileName (rfi_NewFileName renameFileIn)))
              | Some newFileName =>
                  let* renamed := renameFile _bucket prefix fileName newFileName in
                  match renamed with
                  | Error err =>
                      if decide (err = ErrNotFound) then ret toNotFound
                      else if decide (err = ErrAlreadyExists)
                      then ret (toConflict (Err_Error err))
                      else ret (toInternalServerError (Err_Error err))
                  | Ok result => ret (toNoContentWithEtag (rf_ETag result))
                  end
              end
        end
  end.

End FileHandlers.

(** ** The identity token: [parseAndValidateIdToken]

    [jwt.ParseWithClaims] is the library's: it checks signature and expiry
    and returns the token with its claims, or an error.  It is taken as the
    argument [ParseWithClaims]; an error is its message. *)

Definition tokenIssuer : string :=
  "https://cognito-idp.us-east-1.amazonaws.com/us-east-1_oDBGh8hef".

Definition tokenAudiences : list string :=
  ["171uojgfrbv775ultuqk12os85"; "7e381s8r9gd2dntnuchems6epv"].

(** [cognitoIdTokenClaims], with the fields of [jwt.StandardClaims] that are
    read. *)
Record cognitoIdTokenClaims := {
  TokenUse : string;
  Email : string;
  Audience : string;
  Issuer : string;
  Subject : string
}.

(** [jwt.Token]: [Claims] is [None] when the type assertion of
    [token.Claims] to the Cognito claims fails. *)
Record Token := {
  Claims : option cognitoIdTokenClaims;
  Valid : bool
}.

Record parsedTokenData := {
  UserId : string;
  EMail : string
}.

(** [slices.Contains]. *)
Definition slices_Contains (l : list string) (x : string) : bool :=
  existsb (fun y => String.eqb y x) l.

Definition parseAndValidateIdToken (ParseWithClaims : string -> result string Token)
    (idToken : string) : result string parsedTokenData :=
  match ParseWithClaims idToken with
  | Error err => Error err
  | Ok token =>
      match Claims token with
      | None => Error "could not retrieve standard claims"
      | Some claims =>
          if negb (Valid token) then Error "could not retrieve standard claims"
          else if negb (slices_Contains tokenAudiences (Audience claims))
          then Error ("wrong value of audience: " +:+ Audience claims)
          else if negb (String.eqb (Issuer claims) tokenIssuer)
          then Error ("wrong value of issuer: " +:+ Issuer claims)
          else if negb (String.eqb (TokenUse claims) "id")
          then Error ("wrong value of token_use: " +:+ TokenUse claims)
          else
            let userId := Subject claims in
            if String.eqb userId EmptyString then Error "user id not found in claims"
            else
              let email := Email claims in
              if String.eqb email EmptyString then Error "email id not found in claims"
              else Ok {| UserId := userId; EMail := email |}
      end
  end.

(** [app/validation.go], the identity checks. *)
Definition isUserIdValid (userId : string) : bool := negb (String.eqb userId EmptyString).

Definition isEmailValid (email : string) : bool := negb (String.eqb email EmptyString).

(** ** Observations on a run *)

(** The requests sent to the store while [m] runs from [w]. *)
Definition requests_of {A} (m : IO A) (w : World) : list Request :=
  drop (length (trace w)) (trace (snd (m w))).

(** The content type and the put request [saveFileContent] builds. *)
Definition contentTypeOf (fileName : string) : string :=
  if isMarkdown fileName then "text/markdown; charset=UTF-8" else "text/plain".

Definition putInput (bucket prefix fileName content : string) (overwrite : bool)
  : PutObjectInput :=
  {| po_Bucket := bucket; po_Key := prefix +:+ fileName;
     po_ContentType := contentTypeOf fileName; po_Body := content;
     po_IfNoneMatch := if overwrite then None else Some "*" |}.

(** The copy and delete requests [renameFile] builds, and its three store
    steps in order. *)
Definition copyInput (bucket prefix fileName newFileName : string) : CopyObjectInput :=
  {| co_Bucket := bucket;
     co_CopySource := bucket +:+ "/" +:+ prefix +:+ url.QueryEscape fileName;
     co_Key := prefix +:+ newFileName |}.

Definition deleteInput (bucket prefix fileName : string) : DeleteObjectInput :=
  {| do_Bucket := bucket; do_Key := prefix +:+ fileName |}.

Definition rename_steps (bucket prefix fileName newFileName : string) : list Request :=
  [PutObjectReq (putInput bucket prefix newFileName EmptyString false);
   CopyObjectReq (copyInput bucket prefix fileName newFileName);
   DeleteObjectReq (deleteInput bucket prefix fileName)].

(** The store after the reservation step of a rename: an empty object sits
    at the target key. *)
Definition reserved `{SP : StoreParams} (bucket prefix newFileName : string) (w : World)
  : gmap (string * string) StoredObject :=
  <[(bucket, prefix +:+ newFileName) :=
      new_object EmptyString (contentTypeOf newFileName) (now w)]> (store w).

(** The list request [listFiles] builds, and the record it makes of a raw
    entry. *)
Definition listInput (bucket prefix : string) (pageSize : Z) (continuationToken : string)
  : ListObjectsV2Input :=
  {| lo_Bucket := bucket; lo_Prefix := prefix; lo_MaxKeys := int32 pageSize;
     lo_ContinuationToken :=
       if String.eqb continuationToken EmptyString then None else Some continuationToken |}.

Definition fileOf (prefix : string) (obj : S3Object) : FileData :=
  {| FileName := fst (CutPrefix (obj_Key obj) prefix);
     fd_LastModified := obj_LastModified obj;
     fd_ETag := obj_ETag obj |}.

(** The record [handleGetFiles] packs for a file. *)
Definition fileOut (file : FileData) : FileDataOut :=
  {| fdo_FileName := FileName file;
     fdo_LastModified := fd_LastModified file;
     fdo_ETag := fd_ETag file |}.

(** A raw entry is of a supported type. *)
Definition supported (obj : S3Object) : Prop := isSupportedFileType (obj_Key obj) = true.

#[global] Instance supported_dec obj : Decision (supported obj).
Proof. unfold supported. apply _. Defined.

(** Raw pages: [k] entries of a supported type followed by entries of
    another type, [n] in all. *)
Definition raw_page (k n : nat) : list S3Object :=
  replicate k {| obj_Key := "u/a.txt"; obj_LastModified := 0; obj_ETag := "t" |}
  ++ replicate (n - k) {| obj_Key := "u/a.bin"; obj_LastModified := 0; obj_ETag := "t" |}.

(** The get request [getFileContent] builds. *)
Definition getInput (bucket prefix fileName etag : string) : GetObjectInput :=
  {| go_Bucket := bucket; go_Key := prefix +:+ fileName;
     go_IfNoneMatch := if String.eqb etag EmptyString then None else Some etag |}.

(** The failure scheduled for the [i]-th interaction to come, if any. *)
Definition scheduled (i : nat) (w : World) : option SdkError := mjoin (faults w !! i).

(** No failure is scheduled for the next [n] interactions with the SDK. *)
Definition quiet (n : nat) (w : World) : Prop :=
  Forall (fun f => f = None) (take n (faults w)).

(** A call of the client read off a failure schedule: the number of
    attempts it makes, and the failure it returns if it ends in one. *)
Fixpoint attempts (retries : nat) (fl : list (option SdkError)) : nat * option SdkError :=
  match fl with
  | Some err :: fl' =>
      match retries with
      | S retries' =>
          if IsErrorRetryable err
          then (S (fst (attempts retries' fl')), snd (attempts retries' fl'))
          else (1%nat, Some err)
      | O => (1%nat, Some err)
      end
  | _ => (1%nat, None)
  end.

(** The call of the client that starts at the [i]-th interaction to come. *)
Definition call_attempts (i : nat) (w : World) : nat :=
  fst (attempts (DefaultMaxAttempts - 1) (drop i (faults w))).

Definition call_failure (i : nat) (w : World) : option SdkError :=
  snd (attempts (DefaultMaxAttempts - 1) (drop i (faults w))).

(** The failures [errs], met one after the other, make a call of the client
    give up: each but the last is retryable, and the last is not, or is the
    failure of the last attempt allowed. *)
Definition gives_up (errs : list SdkError) : Prop :=
  exists retried final,
    errs = retried ++ [final]
    /\ Forall (fun err => IsErrorRetryable err = true) retried
    /\ (length errs = DefaultMaxAttempts
        \/ ((length errs < DefaultMaxAttempts)%nat /\ IsErrorRetryable final = false)).

(** The codes with which the reference store refuses a request. *)
Definition store_refusals : list string :=
  ["InvalidArgument"; "InvalidRequest"; "NoSuchKey"; "NotModified"; "PreconditionFailed";
   "NotImplemented"].

(** ** A concrete store, to run the adapter on

    Entity tags are the content behind a fixed marker, and a [CopySource]
    is read as [bucket/key] with the key URL-encoded. *)

Fixpoint split_bucket (s : string) : string * string :=
  match s with
  | EmptyString => (EmptyString, EmptyString)
  | String c s' =>
      if Ascii.eqb c "/" then (EmptyString, s')
      else let (b, k) := split_bucket s' in (String c b, k)
  end.

Definition demo_params : StoreParams :=
  {| etag_of := fun body => "etag-" +:+ body;
     parse_copy_source := fun src =>
       let (b, k) := split_bucket src in
       match url.QueryUnescape k with
       | Some key => Some (b, key)
       | None => None
       end |}.

Definition demo_object (body : string) : StoredObject :=
  {| Body := body; ContentType := "text/plain";
     ETag := @etag_of demo_params body; LastModified := 0 |}.

Definition demo_world (objects : list (string * string * StoredObject))
    (schedule : list (option SdkError)) : World :=
  {| store := list_to_map objects; faults := schedule; trace := []; now := 1 |}.

(** A namespace [u/] of bucket [b] holding one note, and one holding
    nothing but files of other types. *)
Definition one_note : World :=
  demo_world [("b", "u/a b.txt", demo_object "hello")] [].

Definition only_other_files : World :=
  demo_world [("b", "u/x.bin", demo_object "x"); ("b", "u/y.bin", demo_object "y");
              ("b", "u/z.bin", demo_object "z")] [].

(** A namespace [u/] with a note, a file of another type and a note in a
    subfolder, next to the namespace of another user. *)
Definition mixed_namespace : World :=
  demo_world [("b", "u/a b.txt", demo_object "hello"); ("b", "u/x.bin", demo_object "x");
              ("b", "u/sub/z.md", demo_object "z"); ("b", "v/other.txt", demo_object "o")] [].

(** A namespace [u/] holding one note whose name needs no escaping. *)
Definition plain_note : World :=
  demo_world [("b", "u/a.txt", demo_object "hello")] [].

(** The same namespace when the connection is going to fail at the fifth,
    sixth and seventh interaction with the SDK: the three attempts at the
    delete of a rename. *)
Definition one_note_delete_fails : World :=
  demo_world [("b", "u/a b.txt", demo_object "hello")]
             [None; None; None; None; Some OtherError; Some OtherError; Some OtherError].

(** The same namespace when the connection fails once, at the fifth
    interaction, and when the store denies access at the fifth. *)
Definition one_note_delete_fails_once : World :=
  demo_world [("b", "u/a b.txt", demo_object "hello")]
             [None; None; None; None; Some OtherError].

Definition one_note_delete_denied : World :=
  demo_world [("b", "u/a b.txt", demo_object "hello")]
             [None; None; None; None; Some (APIError "AccessDenied")].

(** An identity token of the user pool, as the library would return it. *)
Definition id_token : Token :=
  {| Claims := Some {| TokenUse := "id"; Email := "u@example.org";
                       Audience := "171uojgfrbv775ultuqk12os85";
                       Issuer := tokenIssuer; Subject := "u" |};
     Valid := true |}.

(** * Properties *)

(** ** Go strings: prefixes, suffixes, substrings *)

Section GoStringFacts.

Lemma append_cons (c : ascii) (s t : string) : String c s +:+ t = String c (s +:+ t).
Proof. reflexivity. Qed.

Lemma append_length (s t : string) :
  String.length (s +:+ t) = (String.length s + String.length t)%nat.
Proof. induction s as [|c s IH]; [done|]. rewrite append_cons. simpl. by rewrite IH. Qed.

Lemma append_assoc (s t u : string) : (s +:+ t) +:+ u = s +:+ (t +:+ u).
Proof. induction s as [|c s IH]; [done|]. rewrite !append_cons. by rewrite IH. Qed.

Lemma slice_to_from (n : nat) (s : string) : slice_to n s +:+ slice_from n s = s.
Proof.
  revert s. induction n as [|n IH]; intros [|c s]; simpl; try done.
  rewrite append_cons. by rewrite IH.
Qed.

Lemma slice_to_append (p r : string) : slice_to (String.length p) (p +:+ r) = p.
Proof.
  induction p as [|c p IH]; [by destruct r|].
  rewrite append_cons. simpl. by rewrite IH.
Qed.

Lemma slice_from_append (p r : string) : slice_from (String.length p) (p +:+ r) = r.
Proof. induction p as [|c p IH]; [done|]. rewrite append_cons. simpl. done. Qed.

Lemma HasPrefix_spec (s p : string) :
  HasPrefix s p = true <-> exists r, s = p +:+ r.
Proof.
  unfold HasPrefix. rewrite andb_true_iff, Nat.leb_le, String.eqb_eq. split.
  - intros [_ Hp]. exists (slice_from (String.length p) s).
    pose proof (slice_to_from (String.length p) s) as H. by rewrite Hp in H.
  - intros [r ->]. rewrite append_length, slice_to_append. split; [lia|done].
Qed.

Lemma HasSuffix_spec (s x : string) :
  HasSuffix s x = true <-> exists r, s = r +:+ x.
Proof.
  unfold HasSuffix. rewrite andb_true_iff, Nat.leb_le, String.eqb_eq. split.
  - intros [_ Hx]. exists (slice_to (String.length s - String.length x) s).
    pose proof (slice_to_from (String.length s - String.length x) s) as H.
    by rewrite Hx in H.
  - intros [r ->]. rewrite append_length.
    replace (String.length r + String.length x - String.length x)%nat
      with (String.length r) by lia.
    rewrite slice_from_append. split; [lia|done].
Qed.

Lemma CutPrefix_append (p r : string) : CutPrefix (p +:+ r) p = (r, true).
Proof.
  unfold CutPrefix.
  rewrite (proj2 (HasPrefix_spec (p +:+ r) p)) by eauto.
  by rewrite slice_from_append.
Qed.

Lemma Contains_spec (s sub : string) :
  Contains s sub = true <-> exists a c, s = a +:+ sub +:+ c.
Proof.
  induction s as [|ch s IH]; simpl; rewrite orb_true_iff, HasPrefix_spec.
  - split.
    + intros [[r ->]|?]; [|done]. by exists EmptyString, r.
    + intros (a & c & H). left. destruct a; [by exists c|discriminate].
  - rewrite IH. split.
    + intros [[r ->]|(a & c & ->)]; [by exists EmptyString, r|].
      by exists (String ch a), c.
    + intros ([|ch' a] & c & H); [left; by exists c|].
      rewrite append_cons in H. right. injection H as -> ->. by exists a, c.
Qed.

(** A string without a [/] does not contain any string ending in [/]. *)
Lemma Contains_separator (s u : string) :
  Contains s "/" = false -> Contains s (u +:+ "/") = false.
Proof.
  intros Hs. apply not_true_is_false. intros (a & c & ->)%Contains_spec.
  apply not_true_iff_false in Hs. apply Hs, Contains_spec.
  exists (a +:+ u), c. by rewrite !append_assoc.
Qed.

End GoStringFacts.

(** ** Running the client *)

Lemma next_fault_run (w : World) :
  next_fault w =
    (match faults w with f :: _ => f | [] => None end,
     Build_World (store w) (drop 1 (faults w)) (trace w) (now w)).
Proof. destruct w as [s [|f fs] t n]; reflexivity. Qed.

(** What a call of the client does, read off the failure schedule. *)
Lemma attempts_bounds (retries : nat) (fl : list (option SdkError)) :
  (1 <= fst (attempts retries fl) <= S retries)%nat.
Proof.
  revert fl. induction retries as [|retries IH]; intros [|[err|] fl]; simpl; try lia.
  destruct (IsErrorRetryable err); simpl; [|lia]. specialize (IH fl). lia.
Qed.

Lemma attempts_failure_elem (retries : nat) (fl : list (option SdkError)) (err : SdkError) :
  snd (attempts retries fl) = Some err -> Some err ∈ fl.
Proof.
  revert fl. induction retries as [|retries IH]; intros [|[e|] fl]; simpl; try done.
  - intros [= ->]. apply elem_of_cons; by left.
  - destruct (IsErrorRetryable e); simpl.
    + intros H. apply elem_of_cons; right. by apply IH.
    + intros [= ->]. apply elem_of_cons; by left.
Qed.

Lemma attempts_through (retries : nat) (fl : list (option SdkError)) :
  match fl with f :: _ => f | [] => None end = None -> attempts retries fl = (1%nat, None).
Proof. destruct retries, fl as [|[err|] fl]; done. Qed.

Lemma attempts_final (retries : nat) (err : SdkError) (fl : list (option SdkError)) :
  IsErrorRetryable err = false -> attempts retries (Some err :: fl) = (1%nat, Some err).
Proof. intros Hf. destruct retries; simpl; [done|]. by rewrite Hf. Qed.

Lemma attempts_gives_up (errs : list SdkError) (fl : list (option SdkError)) :
  gives_up errs ->
  attempts (DefaultMaxAttempts - 1) ((Some <$> errs) ++ fl) = (length errs, last errs).
Proof.
  intros (retried & final & -> & Hretried & Hlast). rewrite length_app in Hlast.
  unfold DefaultMaxAttempts in *. simpl in Hlast.
  destruct retried as [|e1 [|e2 [|e3 retried]]]; simpl in *.
  - destruct Hlast as [?|[_ Hf]]; [lia|]. by rewrite Hf.
  - apply Forall_cons in Hretried as [-> _].
    destruct Hlast as [?|[_ Hf]]; [lia|]. simpl. by rewrite Hf.
  - apply Forall_cons in Hretried as [-> Hretried].
    apply Forall_cons in Hretried as [-> _]. done.
  - destruct Hlast as [?|[? _]]; lia.
Qed.

Lemma gives_up_length (errs : list SdkError) :
  gives_up errs -> (1 <= length errs <= DefaultMaxAttempts)%nat.
Proof.
  intros (retried & final & -> & _ & Hlast). rewrite length_app in *. simpl in *.
  destruct Hlast as [?|[? _]]; lia.
Qed.

(** The store refuses with codes that are not retryable. *)
Lemma store_refusals_final :
  Forall (fun code => IsErrorRetryable (APIError code) = false) store_refusals.
Proof. repeat constructor. Qed.

Ltac refused :=
  unfold store_refusals; repeat (apply elem_of_cons; first [left; reflexivity | right]).

Lemma store_refuses_for_good `{SP : StoreParams} (err : SdkError) :
  (exists input s, store_list input s = Error err)
  \/ (exists input s, store_get input s = Error err)
  \/ (exists input w, fst (store_put input w) = Error err)
  \/ (exists input w, fst (store_copy input w) = Error err)
  \/ (exists input w, fst (store_delete input w) = Error err) ->
  (exists code, err = APIError code /\ code ∈ store_refusals)
  /\ IsErrorRetryable err = false.
Proof.
  assert (Hcodes : forall code, code ∈ store_refusals ->
            (exists code', APIError code = APIError code' /\ code' ∈ store_refusals)
            /\ IsErrorRetryable (APIError code) = false).
  { intros code Hin. split; [by eauto|].
    unfold store_refusals in Hin.
    repeat (apply elem_of_cons in Hin as [->|Hin]); try reflexivity.
    by apply elem_of_nil in Hin. }
  intros [(input & s & H)|[(input & s & H)|[(input & w & H)|[(input & w & H)
         |(input & w & H)]]]].
  - unfold store_list in H.
    destruct (lo_MaxKeys input <? 0); [injection H as <-; apply Hcodes; refused|].
    destruct (lo_ContinuationToken input) as [token|]; [|done].
    destruct (after_token _ _); [done|]. injection H as <-. apply Hcodes. refused.
  - unfold store_get in H. destruct (s !! _) as [o|].
    + destruct (go_IfNoneMatch input) as [tag|]; [|done].
      destruct (String.eqb tag (ETag o)); [|done]. injection H as <-. apply Hcodes. refused.
    + injection H as <-. apply Hcodes. refused.
  - unfold store_put in H. destruct (po_IfNoneMatch input) as [cond|]; [|done].
    destruct (String.eqb cond "*").
    + destruct (store w !! _); [|done]. injection H as <-. apply Hcodes. refused.
    + injection H as <-. apply Hcodes. refused.
  - unfold store_copy in H.
    destruct (parse_copy_source _) as [src|]; [|injection H as <-; apply Hcodes; refused].
    destruct (store w !! src); [|injection H as <-; apply Hcodes; refused].
    destruct (decide _); [|done]. injection H as <-. apply Hcodes. refused.
  - done.
Qed.

Lemma attempt_run {O} (retries : nat) (req : Request) (answer : IO (result SdkError O))
    (w : World) :
  attempt retries req answer w =
    let k := fst (attempts retries (faults w)) in
    let w' := Build_World (store w) (drop k (faults w)) (trace w ++ replicate k req) (now w) in
    match snd (attempts retries (faults w)) with
    | Some err => (Error err, w')
    | None => answer w'
    end.
Proof.
  revert w. induction retries as [|retries IH]; intros [s [|[err|] fl] t n]; try reflexivity.
  cbn [attempt bind send next_fault faults store trace now attempts].
  destruct (IsErrorRetryable err); [|reflexivity].
  rewrite IH. cbn [faults store trace now fst snd drop replicate].
  rewrite <- app_assoc. reflexivity.
Qed.

Lemma exchange_run {O} (req : Request) (answer : IO (result SdkError O)) (w : World) :
  exchange req answer w =
    let k := call_attempts 0 w in
    let w' := Build_World (store w) (drop k (faults w)) (trace w ++ replicate k req) (now w) in
    match call_failure 0 w with
    | Some err => (Error err, w')
    | None => answer w'
    end.
Proof. unfold exchange. by rewrite attempt_run. Qed.

Lemma call_attempts_bounds (i : nat) (w : World) :
  (1 <= call_attempts i w <= DefaultMaxAttempts)%nat.
Proof. apply attempts_bounds. Qed.

Lemma call_drop (i j : nat) (w w' : World) :
  faults w' = drop j (faults w) ->
  call_attempts i w' = call_attempts (j + i) w /\ call_failure i w' = call_failure (j + i) w.
Proof. intros H. unfold call_attempts, call_failure. by rewrite H, drop_drop. Qed.

(** A call that ends in a failure has met as many failures as it has made
    attempts, and these made it give up. *)
Lemma call_failure_gives_up (i : nat) (w : World) (err : SdkError) :
  call_failure i w = Some err ->
  exists errs,
    gives_up errs /\ last errs = Some err /\ length errs = call_attempts i w
    /\ take (call_attempts i w) (drop i (faults w)) = Some <$> errs.
Proof.
  unfold call_failure, call_attempts, gives_up, DefaultMaxAttempts.
  destruct (drop i (faults w)) as [|[e1|] fl1]; cbn; try done.
  destruct (IsErrorRetryable e1) eqn:H1; cbn.
  - destruct fl1 as [|[e2|] fl2]; cbn; try done.
    destruct (IsErrorRetryable e2) eqn:H2; cbn.
    + destruct fl2 as [|[e3|] fl3]; cbn; try done.
      intros [= ->]. exists [e1; e2; err]. split; [|done].
      exists [e1; e2], err. split; [done|]. split; [by repeat constructor|]. by left.
    + intros [= ->]. exists [e1; err]. split; [|done].
      exists [e1], err. split; [done|]. split; [by repeat constructor|].
      right. cbn. split; [lia|done].
  - intros [= ->]. exists [err]. split; [|done].
    exists [], err. split; [done|]. split; [constructor|]. right. cbn. split; [lia|done].
Qed.

Lemma call_failure_elem (i : nat) (w : World) (err : SdkError) :
  call_failure i w = Some err -> Some err ∈ faults w.
Proof.
  intros H%attempts_failure_elem. eapply elem_of_sublist; [exact H|apply sublist_drop].
Qed.

Lemma quiet_S (n : nat) (w : World) :
  quiet (S n) w ->
  match faults w with f :: _ => f | [] => None end = None
  /\ Forall (fun f => f = None) (take n (drop 1 (faults w))).
Proof.
  unfold quiet. destruct (faults w) as [|f fs]; simpl.
  - intros _. split; [reflexivity|]. rewrite take_nil. constructor.
  - intros Hq. apply Forall_cons in Hq as [-> Hq]. rewrite drop_0. done.
Qed.

Lemma quiet_le (n m : nat) (w : World) : (m <= n)%nat -> quiet n w -> quiet m w.
Proof.
  unfold quiet. intros Hle Hq.
  replace m with (m `min` n)%nat by lia. rewrite <- take_take. by apply Forall_take.
Qed.

Lemma quiet_drop (k n : nat) (w : World) s t m :
  quiet (k + n) w -> quiet n (Build_World s (drop k (faults w)) t m).
Proof.
  unfold quiet; simpl. intros Hq.
  rewrite take_drop_commute. by apply Forall_drop.
Qed.

Lemma quiet_scheduled (n i : nat) (w : World) :
  quiet n w -> (i < n)%nat -> scheduled i w = None.
Proof.
  unfold quiet, scheduled. intros Hq Hi.
  destruct (faults w !! i) as [f|] eqn:Hf; [|done].
  rewrite Forall_lookup in Hq. rewrite (Hq i f); [done|].
  by rewrite lookup_take_lt.
Qed.

Lemma call_quiet (i n : nat) (w : World) :
  quiet n w -> (i < n)%nat -> call_attempts i w = 1%nat /\ call_failure i w = None.
Proof.
  intros Hq Hi. unfold call_attempts, call_failure.
  rewrite attempts_through; [done|].
  destruct (drop i (faults w)) as [|f fl] eqn:Hd; [done|].
  assert (Hf : faults w !! i = Some f).
  { rewrite <- (Nat.add_0_r i), <- lookup_drop, Hd. done. }
  unfold quiet in Hq. rewrite Forall_lookup in Hq. apply (Hq i). by rewrite lookup_take_lt.
Qed.

Lemma exchange_quiet {O} (req : Request) (answer : IO (result SdkError O)) (n : nat) (w : World) :
  quiet (S n) w ->
  exchange req answer w
  = answer (Build_World (store w) (drop 1 (faults w)) (trace w ++ [req]) (now w)).
Proof.
  intros Hq. rewrite exchange_run.
  destruct (call_quiet 0 (S n) w Hq) as [-> ->]; [lia|]. reflexivity.
Qed.

Lemma requests_of_app {A} (m : IO A) (w : World) (reqs : list Request) :
  trace (snd (m w)) = trace w ++ reqs -> requests_of m w = reqs.
Proof. unfold requests_of. intros ->. by rewrite drop_app_length. Qed.

(** Inversion of a [quiet] hypothesis on an explicit schedule. *)
Ltac quiet_inv H :=
  unfold quiet in H; simpl in H;
  repeat match type of H with
         | Forall _ (_ :: _) => apply Forall_cons in H as [? H]
         end; simplify_eq.

(** ** Write *)

Section Write.
Context `{SP : StoreParams}.

(** What [saveFileContent] does when nothing fails in transport. *)
Lemma saveFileContent_quiet bucket prefix fileName content overwrite (w : World) :
  quiet 2 w ->
  let key := (bucket, prefix +:+ fileName) in
  let input := putInput bucket prefix fileName content overwrite in
  let o := new_object content (contentTypeOf fileName) (now w) in
  saveFileContent bucket prefix fileName content overwrite w =
    if bool_decide (overwrite = false /\ is_Some (store w !! key)) then
      (Error ErrAlreadyExists,
       Build_World (store w) (drop 2 (faults w)) (trace w ++ [PutObjectReq input]) (now w))
    else
      (Ok {| sfc_ETag := etag_of content |},
       Build_World (<[key := o]> (store w)) (drop 2 (faults w))
                   (trace w ++ [PutObjectReq input]) (now w + 1)).
Proof.
  intros Hq key input o. subst key input o.
  assert (Hdec : bool_decide (overwrite = false /\ is_Some (store w !! (bucket, prefix +:+ fileName)))
                 = negb overwrite && bool_decide (is_Some (store w !! (bucket, prefix +:+ fileName)))).
  { destruct overwrite; cbn [negb andb].
    - apply bool_decide_eq_false_2. intros [? _]; discriminate.
    - apply bool_decide_ext. tauto. }
  rewrite Hdec. clear Hdec.
  unfold saveFileContent, bind, LoadDefaultConfig, PutObject, putInput, contentTypeOf.
  rewrite next_fault_run.
  destruct w as [s fl t n]; simpl in *.
  destruct fl as [|f1 [|f2 fl]]; quiet_inv Hq;
    rewrite exchange_run; simpl; unfold store_put, ret, tick, set_store; simpl.
  all: destruct overwrite; simpl; try reflexivity.
  all: destruct (s !! (bucket, prefix +:+ fileName)) as [o|] eqn:Hk; reflexivity.
Qed.

(** Whatever the schedule, [saveFileContent] either fails with one of two
    errors and leaves the store alone, or stores the content under the key;
    it sends nothing but its put, as often as the client attempts it. *)
Lemma saveFileContent_cases bucket prefix fileName content overwrite (w : World) :
  let key := (bucket, prefix +:+ fileName) in
  let input := putInput bucket prefix fileName content overwrite in
  let run := saveFileContent bucket prefix fileName content overwrite w in
  (exists e, fst run = Error e
             /\ (e = ErrAlreadyExists \/ e = ErrServiceUnavailable)
             /\ (e = ErrAlreadyExists ->
                   is_Some (store w !! key) \/ Some (APIError "PreconditionFailed") ∈ faults w)
             /\ store (snd run) = store w /\ now (snd run) = now w
             /\ exists k, (k <= DefaultMaxAttempts)%nat
                          /\ trace (snd run) = trace w ++ replicate k (PutObjectReq input))
  \/ (fst run = Ok {| sfc_ETag := etag_of content |}
      /\ store (snd run) = <[key := new_object content (contentTypeOf fileName) (now w)]> (store w)
      /\ now (snd run) = now w + 1
      /\ (overwrite = false -> store w !! key = None)
      /\ faults (snd run) = drop (1 + call_attempts 1 w) (faults w)
      /\ trace (snd run) = trace w ++ replicate (call_attempts 1 w) (PutObjectReq input)).
Proof.
  intros key input run. subst input run.
  unfold saveFileContent, bind, LoadDefaultConfig. rewrite next_fault_run.
  destruct (match faults w with f :: _ => f | [] => None end) as [e0|].
  { left. exists ErrServiceUnavailable. cbn. split; [done|]. split; [by right|].
    split; [done|]. split; [done|]. split; [done|]. exists 0%nat. split; [lia|].
    by rewrite app_nil_r. }
  set (w1 := Build_World (store w) (drop 1 (faults w)) (trace w) (now w)).
  replace (Build_PutObjectInput bucket (prefix +:+ fileName)
             (if isMarkdown fileName then "text/markdown; charset=UTF-8" else "text/plain")
             content (if negb overwrite then Some "*" else None))
    with (putInput bucket prefix fileName content overwrite)
    by (unfold putInput, contentTypeOf; by destruct overwrite).
  unfold PutObject. rewrite exchange_run. cbn zeta.
  pose proof (call_attempts_bounds 0 w1) as Hk.
  destruct (call_drop 0 1 w w1 eq_refl) as [Ha _]. rewrite Nat.add_0_r in Ha.
  assert (Hfaults : drop (call_attempts 0 w1) (faults w1)
                    = drop (1 + call_attempts 1 w) (faults w))
    by (subst w1; cbn [faults]; by rewrite drop_drop, Ha).
  destruct (call_failure 0 w1) as [err|] eqn:Hf.
  - left. apply call_failure_elem in Hf.
    assert (Hin : Some err ∈ faults w)
      by (eapply elem_of_sublist; [exact Hf|apply (sublist_drop _ 1)]).
    destruct err as [code|];
      [destruct (String.eqb_spec code "PreconditionFailed") as [->|Hne]|];
      cbn; eexists; (split; [reflexivity|]); unfold logAndReturnError.
    all: assert (Hsent : exists k, (k <= DefaultMaxAttempts)%nat
            /\ trace w ++ replicate (call_attempts 0 w1)
                             (PutObjectReq (putInput bucket prefix fileName content overwrite))
               = trace w ++ replicate k
                              (PutObjectReq (putInput bucket prefix fileName content overwrite)))
      by (eexists; split; [apply Hk|done]).
    + split; [by left|]. split; [by right|]. done.
    + split; [by right|]. split; [done|]. done.
    + split; [by right|]. split; [done|]. done.
  - unfold store_put. cbn [po_IfNoneMatch putInput po_Bucket po_Key po_Body po_ContentType].
    destruct overwrite; cbn.
    + right. split; [done|]. split; [done|]. split; [done|]. split; [done|].
      split; [exact Hfaults|by rewrite Ha].
    + fold key. destruct (store w !! key) as [o|] eqn:Hkey; cbn.
      * left. eexists. split; [reflexivity|]. split; [by left|]. split; [eauto|].
        split; [done|]. split; [done|]. eexists; split; [apply Hk|done].
      * right. split; [done|]. split; [done|]. split; [done|]. split; [done|].
        split; [exact Hfaults|by rewrite Ha].
Qed.

(** C2. A create-only write (overwrite = false) sends its put with the
    [If-None-Match: *] precondition: absent transport failure it fails with
    [ErrAlreadyExists] exactly when the key is taken, leaving the store as it
    was, and otherwise creates the object.  An overwriting write sends an
    unconditional put, which succeeds and replaces what was there.  The tag
    a successful write returns is the tag of the object now stored under
    the key, whose body is the content written. *)
Theorem saveFileContent_create_only_or_overwrite
    bucket prefix fileName content overwrite (w : World) :
  quiet 2 w ->
  let key := (bucket, prefix +:+ fileName) in
  let run := saveFileContent bucket prefix fileName content overwrite w in
  let o := new_object content (contentTypeOf fileName) (now w) in
  (exists input,
      requests_of (saveFileContent bucket prefix fileName content overwrite) w
        = [PutObjectReq input]
      /\ po_Bucket input = bucket /\ po_Key input = prefix +:+ fileName
      /\ po_Body input = content
      /\ po_IfNoneMatch input = if overwrite then None else Some "*")
  /\ (overwrite = false ->
        (fst run = Error ErrAlreadyExists <-> is_Some (store w !! key))
        /\ (is_Some (store w !! key) -> store (snd run) = store w)
        /\ (store w !! key = None ->
              fst run = Ok {| sfc_ETag := ETag o |}
              /\ store (snd run) = <[key := o]> (store w)))
  /\ (overwrite = true ->
        fst run = Ok {| sfc_ETag := ETag o |}
        /\ store (snd run) = <[key := o]> (store w))
  /\ (forall r, fst run = Ok r ->
        exists o', store (snd run) !! key = Some o'
                   /\ Body o' = content /\ ETag o' = sfc_ETag r).
Proof.
  intros Hq key run o. subst run.
  assert (Hreq : requests_of (saveFileContent bucket prefix fileName content overwrite) w
                 = [PutObjectReq (putInput bucket prefix fileName content overwrite)]).
  { apply requests_of_app. rewrite (saveFileContent_quiet _ _ _ _ _ _ Hq).
    case_bool_decide; reflexivity. }
  rewrite Hreq, (saveFileContent_quiet _ _ _ _ _ _ Hq). fold key; fold o.
  split; [eexists; split; [reflexivity|]; simpl; done|].
  split; [|split].
  - intros ->. case_bool_decide as Hd; simpl.
    + destruct Hd as [_ Hs]. split; [split; done|]. split; [done|].
      intros Hn. rewrite Hn in Hs. by destruct Hs.
    + assert (Hn : store w !! key = None).
      { destruct (store w !! key) eqn:E; [|done]. exfalso. apply Hd. eauto. }
      split; [split; [discriminate | intros [? ?]; congruence]|].
      split; [intros [? ?]; congruence | done].
  - intros ->. rewrite bool_decide_eq_false_2 by (intros [? _]; discriminate). done.
  - intros r. case_bool_decide; simpl; [discriminate|].
    intros [= <-]. exists o. rewrite lookup_insert_eq. done.
Qed.

End Write.

(** On the store holding one note, a create-only write under the note's
    name is refused and an overwriting one goes through. *)
Lemma saveFileContent_create_only_or_overwrite_witness :
  quiet 2 one_note
  /\ fst (saveFileContent (SP := demo_params) "b" "u/" "a b.txt" "x" false one_note)
     = Error ErrAlreadyExists
  /\ fst (saveFileContent (SP := demo_params) "b" "u/" "a b.txt" "x" true one_note)
     = Ok {| sfc_ETag := "etag-x" |}.
Proof.
  assert (Hq : quiet 2 one_note) by (vm_compute; constructor).
  split; [exact Hq|]. split.
  - destruct (saveFileContent_create_only_or_overwrite (SP := demo_params)
                "b" "u/" "a b.txt" "x" false one_note Hq) as (_ & Hc & _).
    apply (Hc eq_refl). vm_compute. eauto.
  - destruct (saveFileContent_create_only_or_overwrite (SP := demo_params)
                "b" "u/" "a b.txt" "x" true one_note Hq) as (_ & _ & Ho & _).
    apply (Ho eq_refl).
Defined.

(** ** Rename *)

Section Rename.
Context `{SP : StoreParams}.

Lemma CopyObject_cases (input : CopyObjectInput) (w : World) :
  let run := CopyObject input w in
  ((exists e, fst run = Error e /\ store (snd run) = store w /\ now (snd run) = now w)
   \/ (exists src o,
          parse_copy_source (co_CopySource input) = Some src
          /\ store w !! src = Some o
          /\ fst run = Ok {| CopyObjectResult_ETag := etag_of (Body o) |}
          /\ store (snd run)
             = <[(co_Bucket input, co_Key input) :=
                   new_object (Body o) (ContentType o) (now w)]> (store w)
          /\ now (snd run) = now w + 1
          /\ src <> (co_Bucket input, co_Key input)))
  /\ faults (snd run) = drop (call_attempts 0 w) (faults w)
  /\ trace (snd run) = trace w ++ replicate (call_attempts 0 w) (CopyObjectReq input).
Proof.
  unfold CopyObject. rewrite exchange_run. cbn zeta.
  destruct (call_failure 0 w) as [err|]; [by eauto 10|].
  unfold store_copy. cbn [store now].
  destruct (parse_copy_source (co_CopySource input)) as [src|]; [|by eauto 10].
  destruct (store w !! src) as [o|] eqn:Hs; [|by eauto 10].
  destruct (decide (src = _)) as [Heq|Hne]; [by eauto 10|].
  split; [right; exists src, o; done|]. done.
Qed.

Lemma DeleteObject_cases (input : DeleteObjectInput) (w : World) :
  let run := DeleteObject input w in
  now (snd run) = now w
  /\ ((exists e, fst run = Error e /\ store (snd run) = store w
                 /\ call_failure 0 w = Some e)
      \/ (fst run = Ok tt
          /\ store (snd run) = delete (do_Bucket input, do_Key input) (store w)))
  /\ faults (snd run) = drop (call_attempts 0 w) (faults w)
  /\ trace (snd run) = trace w ++ replicate (call_attempts 0 w) (DeleteObjectReq input).
Proof.
  unfold DeleteObject. rewrite exchange_run. cbn zeta.
  destruct (call_failure 0 w) as [err|]; cbn; by eauto 10.
Qed.

(** Every way a rename can go: the configuration cannot be loaded; the
    reservation fails; the copy fails; the delete fails; or all three store
    steps succeed.  The requests sent are those of the steps reached, each
    as often as the client attempts it. *)
Lemma renameFile_cases bucket prefix fileName newFileName (w : World) :
  let run := renameFile bucket prefix fileName newFileName w in
  let target := (bucket, prefix +:+ newFileName) in
  let put := PutObjectReq (putInput bucket prefix newFileName EmptyString false) in
  let copy := CopyObjectReq (copyInput bucket prefix fileName newFileName) in
  let del := DeleteObjectReq (deleteInput bucket prefix fileName) in
  let s1 := reserved bucket prefix newFileName w in
  let often (k : nat) := (1 <= k <= DefaultMaxAttempts)%nat in
  (fst run = Error ErrServiceUnavailable
   /\ store (snd run) = store w /\ trace (snd run) = trace w)
  \/ (exists e, fst run = Error e /\ (e = ErrAlreadyExists \/ e = ErrServiceUnavailable)
                /\ store (snd run) = store w
                /\ exists a, (a <= DefaultMaxAttempts)%nat
                             /\ trace (snd run) = trace w ++ replicate a put)
  \/ (exists e, fst run = Error e /\ (e = ErrNotFound \/ e = ErrServiceUnavailable)
                /\ store (snd run) = s1
                /\ store w !! target = None
                /\ exists a b, often a /\ often b
                               /\ trace (snd run)
                                  = trace w ++ replicate a put ++ replicate b copy)
  \/ (exists src o,
         parse_copy_source (co_CopySource (copyInput bucket prefix fileName newFileName))
           = Some src
         /\ s1 !! src = Some o
         /\ fst run = Error ErrServiceUnavailable
         /\ store (snd run) = <[target := new_object (Body o) (ContentType o) (now w + 1)]> s1
         /\ store w !! target = None /\ src <> target
         /\ exists a b c, often a /\ often b /\ often c
                          /\ trace (snd run)
                             = trace w ++ replicate a put ++ replicate b copy
                                 ++ replicate c del)
  \/ (exists src o,
         parse_copy_source (co_CopySource (copyInput bucket prefix fileName newFileName))
           = Some src
         /\ s1 !! src = Some o
         /\ fst run = Ok {| rf_ETag := etag_of (Body o) |}
         /\ store (snd run)
            = delete (bucket, prefix +:+ fileName)
                (<[target := new_object (Body o) (ContentType o) (now w + 1)]> s1)
         /\ store w !! target = None /\ src <> target
         /\ exists a b c, often a /\ often b /\ often c
                          /\ trace (snd run)
                             = trace w ++ replicate a put ++ replicate b copy
                                 ++ replicate c del).
Proof.
  intros run target put copy del s1 often. subst run often.
  unfold renameFile, bind, LoadDefaultConfig. rewrite next_fault_run.
  set (w1 := Build_World (store w) (drop 1 (faults w)) (trace w) (now w)).
  destruct (match faults w with f :: _ => f | [] => None end) as [e0|].
  { left. done. }
  right.
  pose proof (saveFileContent_cases bucket prefix newFileName EmptyString false w1) as Hsave.
  simpl in Hsave.
  destruct (saveFileContent bucket prefix newFileName EmptyString false w1) as [r1 w2].
  simpl in Hsave.
  destruct Hsave as [(e & -> & He & _ & Hs & Hn & a & Ha & Ht)
                    |(-> & Hs & Hn & Hfree & _ & Ht)].
  { left. exists e. unfold ret; simpl. by eauto 10. }
  right. specialize (Hfree eq_refl).
  pose proof (call_attempts_bounds 1 w1) as Ha. set (a := call_attempts 1 w1) in *.
  fold (copyInput bucket prefix fileName newFileName).
  pose proof (CopyObject_cases (copyInput bucket prefix fileName newFileName) w2) as Hcopy.
  simpl in Hcopy.
  destruct (CopyObject (copyInput bucket prefix fileName newFileName) w2) as [r2 w3].
  simpl in Hcopy. destruct Hcopy as (Hcopy & _ & Ht3).
  pose proof (call_attempts_bounds 0 w2) as Hb. set (b := call_attempts 0 w2) in *.
  assert (Htr : trace w3 = trace w ++ replicate a put ++ replicate b copy).
  { rewrite Ht3, Ht. rewrite <- app_assoc. done. }
  destruct Hcopy as [(e & -> & Hs3 & Hn3)|(src & o & Hp & Hl & -> & Hs3 & Hn3 & Hself)].
  { left. rewrite Hs in Hs3.
    destruct e as [code|]; [destruct (String.eqb code "NoSuchKey")|];
      unfold ret; simpl; eexists; (split; [reflexivity|]); by eauto 10. }
  right.
  fold (deleteInput bucket prefix fileName).
  pose proof (DeleteObject_cases (deleteInput bucket prefix fileName) w3) as Hdel.
  simpl in Hdel.
  destruct (DeleteObject (deleteInput bucket prefix fileName) w3) as [r3 w4].
  simpl in Hdel. destruct Hdel as (Hn4 & Hdel & _ & Ht4).
  pose proof (call_attempts_bounds 0 w3) as Hc. set (c := call_attempts 0 w3) in *.
  assert (Htr4 : trace w4 = trace w ++ replicate a put ++ replicate b copy ++ replicate c del).
  { rewrite Ht4, Htr. rewrite <- !app_assoc. done. }
  rewrite Hs in Hl, Hs3. rewrite Hn in Hs3.
  destruct Hdel as [(e & -> & Hs4 & _)|(-> & Hs4)]; [left|right];
    exists src, o; unfold ret; simpl; rewrite Hs4, Hs3;
    (split; [done|]); (split; [done|]); (split; [done|]); (split; [done|]);
    (split; [done|]); (split; [done|]); exists a, b, c; done.
Qed.

(** A rename whose reservation and copy meet no transport failure, on a
    free target name: what it returns and the world it leaves. *)
Lemma renameFile_quiet bucket prefix fileName newFileName (w : World) :
  quiet 4 w ->
  store w !! (bucket, prefix +:+ newFileName) = None ->
  let target := (bucket, prefix +:+ newFileName) in
  let put := PutObjectReq (putInput bucket prefix newFileName EmptyString false) in
  let copy := CopyObjectReq (copyInput bucket prefix fileName newFileName) in
  let del := DeleteObjectReq (deleteInput bucket prefix fileName) in
  let s1 := reserved bucket prefix newFileName w in
  renameFile bucket prefix fileName newFileName w =
    match parse_copy_source (bucket +:+ "/" +:+ prefix +:+ url.QueryEscape fileName) with
    | None =>
        (Error ErrServiceUnavailable,
         Build_World s1 (drop 4 (faults w)) (trace w ++ [put; copy]) (now w + 1))
    | Some src =>
        match s1 !! src with
        | None =>
            (Error ErrNotFound,
             Build_World s1 (drop 4 (faults w)) (trace w ++ [put; copy]) (now w + 1))
        | Some o =>
            if decide (src = target)
            then (Error ErrServiceUnavailable,
                  Build_World s1 (drop 4 (faults w)) (trace w ++ [put; copy]) (now w + 1))
            else
            let s2 := <[target := new_object (Body o) (ContentType o) (now w + 1)]> s1 in
            let k := call_attempts 4 w in
            let sent := trace w ++ [put; copy] ++ replicate k del in
            match call_failure 4 w with
            | Some e =>
                (Error ErrServiceUnavailable,
                 Build_World s2 (drop (4 + k) (faults w)) sent (now w + 1 + 1))
            | None =>
                (Ok {| rf_ETag := etag_of (Body o) |},
                 Build_World (delete (bucket, prefix +:+ fileName) s2) (drop (4 + k) (faults w))
                             sent (now w + 1 + 1))
            end
        end
    end.
Proof.
  intros Hq Hfree target put copy del s1. subst target put copy del s1.
  unfold renameFile, bind, LoadDefaultConfig. rewrite next_fault_run.
  destruct (quiet_S _ _ Hq) as [-> _].
  set (w1 := Build_World (store w) (drop 1 (faults w)) (trace w) (now w)).
  assert (Hq2 : quiet 2 w1) by (apply (quiet_drop 1 2), (quiet_le 4 3); [lia|done]).
  rewrite (saveFileContent_quiet _ _ _ _ _ _ Hq2).
  rewrite bool_decide_eq_false_2 by (intros [_ [? ?]]; simpl in *; congruence).
  unfold CopyObject.
  erewrite (exchange_quiet _ _ 0); [|subst w1; simpl; rewrite drop_drop; by apply (quiet_drop 3 1)].
  subst w1; simpl. rewrite !drop_drop. simpl.
  unfold store_copy at 1, reserved; simpl.
  destruct (parse_copy_source _) as [src|]; simpl; unfold ret;
    [|by rewrite <- app_assoc].
  destruct (_ !! src) as [o|]; simpl; unfold ret; [|by rewrite <- app_assoc].
  destruct (decide (src = _)) as [Heq|Hne]; simpl; unfold ret; [by rewrite <- app_assoc|].
  unfold DeleteObject. rewrite exchange_run.
  unfold call_attempts, call_failure. cbn [faults store trace now tick set_store].
  rewrite !drop_0. rewrite !drop_drop. rewrite <- !app_assoc. cbn [app].
  destruct (snd (attempts _ (drop 4 (faults w)))); reflexivity.
Qed.

(** The requests of a rename are those of its three steps, in their order. *)
Lemma renameFile_requests bucket prefix fileName newFileName (w : World) :
  exists a b c : nat,
    (a <= DefaultMaxAttempts /\ b <= DefaultMaxAttempts /\ c <= DefaultMaxAttempts)%nat
    /\ requests_of (renameFile bucket prefix fileName newFileName) w
       = replicate a (PutObjectReq (putInput bucket prefix newFileName EmptyString false))
         ++ replicate b (CopyObjectReq (copyInput bucket prefix fileName newFileName))
         ++ replicate c (DeleteObjectReq (deleteInput bucket prefix fileName)).
Proof.
  pose proof (renameFile_cases bucket prefix fileName newFileName w) as H.
  cbn zeta in H.
  destruct H as [(_ & _ & Ht)|[(e & _ & _ & _ & a & Ha & Ht)
                |[(e & _ & _ & _ & _ & a & b & Ha & Hb & Ht)
                |[(src & o & _ & _ & _ & _ & _ & _ & a & b & c & Ha & Hb & Hc & Ht)
                 |(src & o & _ & _ & _ & _ & _ & _ & a & b & c & Ha & Hb & Hc & Ht)]]]].
  - exists 0%nat, 0%nat, 0%nat. split; [lia|].
    apply requests_of_app. by rewrite app_nil_r.
  - exists a, 0%nat, 0%nat. split; [lia|].
    apply requests_of_app. by rewrite Ht, !app_nil_r.
  - exists a, b, 0%nat. split; [lia|].
    apply requests_of_app. by rewrite Ht, !app_nil_r.
  - exists a, b, c. split; [lia|]. by apply requests_of_app.
  - exists a, b, c. split; [lia|]. by apply requests_of_app.
Qed.

Lemma renameFile_requests_elem bucket prefix fileName newFileName (w : World) (req : Request) :
  req ∈ requests_of (renameFile bucket prefix fileName newFileName) w ->
  req ∈ rename_steps bucket prefix fileName newFileName.
Proof.
  destruct (renameFile_requests bucket prefix fileName newFileName w)
    as (a & b & c & _ & ->).
  rewrite !elem_of_app, !elem_of_replicate. unfold rename_steps.
  intros [[-> _]|[[-> _]|[-> _]]]; set_solver.
Qed.

(** A rename by its steps: it ends where the first step that fails has
    ended, or after the delete. *)
Lemma renameFile_steps bucket prefix fileName newFileName (w w0 : World) :
  LoadDefaultConfig w = (None, w0) ->
  let reserve := saveFileContent bucket prefix newFileName EmptyString false w0 in
  let copying := CopyObject (copyInput bucket prefix fileName newFileName) (snd reserve) in
  let deleting := DeleteObject (deleteInput bucket prefix fileName) (snd copying) in
  renameFile bucket prefix fileName newFileName w =
    match fst reserve, fst copying, fst deleting with
    | Error e, _, _ => (Error e, snd reserve)
    | Ok _, Error err, _ =>
        (Error (if decide (err = APIError "NoSuchKey") then ErrNotFound
                else ErrServiceUnavailable), snd copying)
    | Ok _, Ok _, Error _ => (Error ErrServiceUnavailable, snd deleting)
    | Ok _, Ok out, Ok _ => (Ok {| rf_ETag := CopyObjectResult_ETag out |}, snd deleting)
    end.
Proof.
  intros Hcfg. cbn zeta. unfold renameFile, bind. rewrite Hcfg.
  unfold copyInput, deleteInput.
  destruct (saveFileContent bucket prefix newFileName EmptyString false w0)
    as [[r|e] w1]; cbn [fst snd]; [|reflexivity].
  destruct (CopyObject _ w1) as [[out|err] w2]; cbn [fst snd].
  - destruct (DeleteObject _ w2) as [[[]|err] w3]; reflexivity.
  - destruct err as [code|]; [|reflexivity].
    destruct (String.eqb_spec code "NoSuchKey") as [->|Hne]; [reflexivity|].
    rewrite decide_False by congruence. reflexivity.
Qed.

(** A rename onto a taken name, when nothing fails in transport: refused
    at the reservation. *)
Lemma renameFile_taken (bucket prefix fileName newFileName : string) (w : World) :
  quiet 3 w ->
  is_Some (store w !! (bucket, prefix +:+ newFileName)) ->
  renameFile bucket prefix fileName newFileName w
  = (Error ErrAlreadyExists,
     Build_World (store w) (drop 3 (faults w))
                 (trace w ++ [PutObjectReq (putInput bucket prefix newFileName EmptyString false)])
                 (now w)).
Proof.
  intros Hq Htaken. unfold renameFile, bind, LoadDefaultConfig.
  rewrite next_fault_run. destruct (quiet_S _ _ Hq) as [-> _].
  assert (Hq2 : quiet 2 (Build_World (store w) (drop 1 (faults w)) (trace w) (now w)))
    by (by apply (quiet_drop 1 2)).
  rewrite (saveFileContent_quiet _ _ _ _ _ _ Hq2).
  rewrite bool_decide_eq_true_2 by done. simpl. by rewrite drop_drop.
Qed.

(** C1 (amended). A rename goes through its store steps in the fixed order
    reserve (a create-only empty put at the target key), copy (source onto
    target), delete (source key), and stops at the first step that fails:
    it ends in the world in which that step ended, with an error (and
    before the first step when the configuration cannot be loaded).  So the
    requests sent are puts, then copies, then deletes, the request of a
    step as often as the client attempts it (three times at most, once
    when nothing fails in transport); a copy is sent only after the
    reservation went through, on a free target name, and a delete only
    after the copy went through; and the result and the store left tell
    the step the call stopped at.  A call that succeeds has gone through
    the three steps, and returns the tag the copy step produced: the tag
    of the object the copy put at the target key. *)
Theorem renameFile_steps_in_order bucket prefix fileName newFileName (w : World) :
  let rename := renameFile bucket prefix fileName newFileName in
  let target := (bucket, prefix +:+ newFileName) in
  let put := PutObjectReq (putInput bucket prefix newFileName EmptyString false) in
  let copy := CopyObjectReq (copyInput bucket prefix fileName newFileName) in
  let del := DeleteObjectReq (deleteInput bucket prefix fileName) in
  let s1 := reserved bucket prefix newFileName w in
  let copied (o : StoredObject) := new_object (Body o) (ContentType o) (now w + 1) in
  (forall err w0, LoadDefaultConfig w = (Some err, w0) ->
     rename w = (Error ErrServiceUnavailable, w0))
  /\ (forall w0, LoadDefaultConfig w = (None, w0) ->
     let reserve := saveFileContent bucket prefix newFileName EmptyString false w0 in
     let copying := CopyObject (copyInput bucket prefix fileName newFileName) (snd reserve) in
     let deleting := DeleteObject (deleteInput bucket prefix fileName) (snd copying) in
     match fst reserve, fst copying, fst deleting with
     | Error e, _, _ => rename w = (Error e, snd reserve)
     | Ok _, Error err, _ =>
         rename w = (Error (if decide (err = APIError "NoSuchKey") then ErrNotFound
                            else ErrServiceUnavailable), snd copying)
     | Ok _, Ok _, Error _ => rename w = (Error ErrServiceUnavailable, snd deleting)
     | Ok _, Ok out, Ok _ =>
         rename w = (Ok {| rf_ETag := CopyObjectResult_ETag out |}, snd deleting)
     end)
  /\ (exists a b c : nat,
        requests_of rename w = replicate a put ++ replicate b copy ++ replicate c del
        /\ (a <= DefaultMaxAttempts /\ b <= DefaultMaxAttempts /\ c <= DefaultMaxAttempts)%nat
        /\ ((b = 0%nat /\ c = 0%nat
             /\ (exists e, fst (rename w) = Error e
                           /\ (e = ErrAlreadyExists \/ e = ErrServiceUnavailable))
             /\ store (snd (rename w)) = store w)
            \/ ((1 <= a)%nat /\ (1 <= b)%nat /\ c = 0%nat
                /\ (exists e, fst (rename w) = Error e
                              /\ (e = ErrNotFound \/ e = ErrServiceUnavailable))
                /\ store w !! target = None
                /\ store (snd (rename w)) = s1)
            \/ ((1 <= a)%nat /\ (1 <= b)%nat /\ (1 <= c)%nat
                /\ store w !! target = None
                /\ exists src o,
                     parse_copy_source
                       (co_CopySource (copyInput bucket prefix fileName newFileName))
                       = Some src
                     /\ src <> target /\ store w !! src = Some o
                     /\ ((fst (rename w) = Error ErrServiceUnavailable
                          /\ store (snd (rename w)) = <[target := copied o]> s1)
                         \/ (fst (rename w) = Ok {| rf_ETag := ETag (copied o) |}
                             /\ store (snd (rename w))
                                = delete (bucket, prefix +:+ fileName)
                                    (<[target := copied o]> s1))))))
  /\ (quiet 5 w ->
      requests_of rename w `prefix_of` rename_steps bucket prefix fileName newFileName
      /\ (forall r, fst (rename w) = Ok r ->
            requests_of rename w = rename_steps bucket prefix fileName newFileName)).
Proof.
  intros rename target put copy del s1 copied. subst rename.
  split; [|split; [|split]].
  - intros err w0 Hcfg. unfold renameFile, bind. by rewrite Hcfg.
  - intros w0 Hcfg. cbn zeta. rewrite (renameFile_steps _ _ _ _ w w0 Hcfg). cbn zeta.
    destruct (fst (saveFileContent bucket prefix newFileName EmptyString false w0));
      [|reflexivity].
    destruct (fst (CopyObject _ _)); [|reflexivity].
    destruct (fst (DeleteObject _ _)); reflexivity.
  - pose proof (renameFile_cases bucket prefix fileName newFileName w) as H.
    cbn zeta in H. fold target put copy del s1 in H.
    destruct H as [(Hr & Hs & Ht)|[(e & Hr & He & Hs & a & Ha & Ht)
                  |[(e & Hr & He & Hs & Hfree & a & b & Ha & Hb & Ht)
                  |[(src & o & Hp & Hl & Hr & Hs & Hfree & Hne & a & b & c & Ha & Hb & Hc & Ht)
                   |(src & o & Hp & Hl & Hr & Hs & Hfree & Hne & a & b & c & Ha & Hb & Hc & Ht)]]]].
    + exists 0%nat, 0%nat, 0%nat.
      split; [apply requests_of_app; by rewrite app_nil_r|]. split; [lia|].
      left. by eauto 10.
    + exists a, 0%nat, 0%nat.
      split; [apply requests_of_app; by rewrite Ht, !app_nil_r|]. split; [lia|].
      left. by eauto 10.
    + exists a, b, 0%nat.
      split; [apply requests_of_app; by rewrite Ht, !app_nil_r|]. split; [lia|].
      right; left. repeat (split; [first [lia|done|by eauto]|]). done.
    + exists a, b, c. split; [by apply requests_of_app|]. split; [lia|].
      right; right. repeat (split; [first [lia|done]|]). exists src, o.
      unfold s1, reserved in Hl. rewrite lookup_insert_ne in Hl by done. by eauto 10.
    + exists a, b, c. split; [by apply requests_of_app|]. split; [lia|].
      right; right. repeat (split; [first [lia|done]|]). exists src, o.
      unfold s1, reserved in Hl. rewrite lookup_insert_ne in Hl by done. by eauto 10.
  - intros Hq. unfold rename_steps. fold put copy del.
    destruct (store w !! target) as [taken|] eqn:Hfree.
    { assert (Htaken : is_Some (store w !! target)) by eauto.
      assert (Hrun := renameFile_taken bucket prefix fileName newFileName w
                        (quiet_le 5 3 w ltac:(lia) Hq) Htaken).
      rewrite (requests_of_app _ w [put]) by (by rewrite Hrun).
      rewrite Hrun. split; [by eexists|]. by intros r [=]. }
    pose proof (renameFile_quiet bucket prefix fileName newFileName w
                  (quiet_le 5 4 w ltac:(lia) Hq) Hfree) as Hrun.
    cbn zeta in Hrun. fold target put copy del s1 in Hrun.
    destruct (call_quiet 4 5 w Hq) as [Hk Hf]; [lia|]. rewrite Hk, Hf in Hrun.
    destruct (parse_copy_source _) as [src|].
    + destruct (s1 !! src) as [o|]; [destruct (decide (src = target))|].
      * rewrite (requests_of_app _ w [put; copy]) by (by rewrite Hrun).
        rewrite Hrun. split; [by eexists|]. by intros r [=].
      * rewrite (requests_of_app _ w [put; copy; del]) by (by rewrite Hrun). done.
      * rewrite (requests_of_app _ w [put; copy]) by (by rewrite Hrun).
        rewrite Hrun. split; [by eexists|]. by intros r [=].
    + rewrite (requests_of_app _ w [put; copy]) by (by rewrite Hrun).
      rewrite Hrun. split; [by eexists|]. by intros r [=].
Qed.

(** C3. When the reservation step of a rename fails, the rename returns
    that step's error and does nothing more: the error is
    [ErrAlreadyExists] or [ErrServiceUnavailable], the former when the
    target key is taken, the latter when it is free and the failure is not
    a reported precondition failure; no copy and no delete is sent, and
    the store is as it was. *)
Theorem renameFile_reservation_fails bucket prefix fileName newFileName
    (w w1 w2 : World) (e : Err) :
  LoadDefaultConfig w = (None, w1) ->
  saveFileContent bucket prefix newFileName EmptyString false w1 = (Error e, w2) ->
  let target := (bucket, prefix +:+ newFileName) in
  renameFile bucket prefix fileName newFileName w = (Error e, w2)
  /\ (e = ErrAlreadyExists \/ e = ErrServiceUnavailable)
  /\ (quiet 3 w -> is_Some (store w !! target) -> e = ErrAlreadyExists)
  /\ (store w !! target = None -> Some (APIError "PreconditionFailed") ∉ faults w ->
      e = ErrServiceUnavailable)
  /\ store w2 = store w
  /\ (forall req, req ∈ requests_of (renameFile bucket prefix fileName newFileName) w ->
        req = PutObjectReq (putInput bucket prefix newFileName EmptyString false)).
Proof.
  intros Hcfg Hsave target.
  assert (Hrun : renameFile bucket prefix fileName newFileName w = (Error e, w2)).
  { unfold renameFile, bind. rewrite Hcfg, Hsave. reflexivity. }
  unfold LoadDefaultConfig in Hcfg. rewrite next_fault_run in Hcfg.
  injection Hcfg as Hhead Hw1. subst w1.
  pose proof (saveFileContent_cases bucket prefix newFileName EmptyString false
                (Build_World (store w) (drop 1 (faults w)) (trace w) (now w))) as Hc.
  simpl in Hc. rewrite Hsave in Hc. simpl in Hc.
  destruct Hc as [(e' & [= <-] & He & Hae & Hs & _ & k & _ & Ht)|(? & _)]; [|discriminate].
  split; [done|]. split; [done|]. split; [|split; [|split]].
  - intros Hq Htaken.
    assert (Hq2 : quiet 2 (Build_World (store w) (drop 1 (faults w)) (trace w) (now w)))
      by (by apply (quiet_drop 1 2)).
    rewrite (saveFileContent_quiet _ _ _ _ _ _ Hq2) in Hsave. simpl in Hsave.
    rewrite bool_decide_eq_true_2 in Hsave by done. congruence.
  - intros Hfree Hnf. destruct He as [-> | ->]; [|done].
    destruct (Hae eq_refl) as [[? Hsome]|Hin].
    + fold target in Hsome. congruence.
    + exfalso. apply Hnf. eapply elem_of_sublist; [exact Hin|apply sublist_drop].
  - done.
  - intros req. unfold requests_of. rewrite Hrun. simpl. rewrite Ht.
    rewrite drop_app_length. by intros [-> _]%elem_of_replicate.
Qed.

(** C4. When the copy step of a rename fails because the source object does
    not exist (the target name being free and nothing failing in
    transport), the rename returns [ErrNotFound]; the empty object of the
    reservation stays at the target key, nothing else in the store has
    changed, and no delete is sent. *)
Theorem renameFile_source_missing bucket prefix fileName newFileName
    (w : World) (src : string * string) :
  let target := (bucket, prefix +:+ newFileName) in
  quiet 4 w ->
  store w !! target = None ->
  parse_copy_source (bucket +:+ "/" +:+ prefix +:+ url.QueryEscape fileName) = Some src ->
  store w !! src = None ->
  src <> target ->
  let run := renameFile bucket prefix fileName newFileName w in
  fst run = Error ErrNotFound
  /\ requests_of (renameFile bucket prefix fileName newFileName) w
     = [PutObjectReq (putInput bucket prefix newFileName EmptyString false);
        CopyObjectReq (copyInput bucket prefix fileName newFileName)]
  /\ (exists o, store (snd run) !! target = Some o /\ Body o = EmptyString)
  /\ (forall k, k <> target -> store (snd run) !! k = store w !! k).
Proof.
  intros target Hq Hfree Hp Hsrc Hne run. subst run.
  pose proof (renameFile_quiet bucket prefix fileName newFileName w Hq Hfree) as Hrun.
  simpl in Hrun. rewrite Hp in Hrun. unfold reserved in Hrun.
  rewrite lookup_insert_ne, Hsrc in Hrun by done.
  rewrite (requests_of_app _ w
             [PutObjectReq (putInput bucket prefix newFileName EmptyString false);
              CopyObjectReq (copyInput bucket prefix fileName newFileName)])
    by (by rewrite Hrun).
  rewrite Hrun. simpl. split; [done|]. split; [done|]. split.
  - eexists. rewrite lookup_insert_eq. done.
  - intros k Hk. by rewrite lookup_insert_ne.
Qed.

(** C5 (amended). When the reservation and the copy of a rename succeed
    and the delete of the source fails, the rename returns
    [ErrServiceUnavailable] (an error, so no tag); the source object is
    still in the store, the target holds a copy of its content, and no key
    of the store has been lost.  The adapter calls each of the three steps
    once, but the client sends the request of a step again after a
    retryable failure: each request is sent between one and three times,
    the delete as many times as it meets a failure, the last of which is
    not retryable or is the third.  No request is sent twice exactly when
    the reservation and the copy go through at once and the delete fails
    at once for good. *)
Theorem renameFile_delete_fails bucket prefix fileName newFileName
    (w w0 : World) (r : SaveFileContentResult) (out : CopyObjectOutput) (err : SdkError) :
  let target := (bucket, prefix +:+ newFileName) in
  let put := PutObjectReq (putInput bucket prefix newFileName EmptyString false) in
  let copy := CopyObjectReq (copyInput bucket prefix fileName newFileName) in
  let del := DeleteObjectReq (deleteInput bucket prefix fileName) in
  let reserve := saveFileContent bucket prefix newFileName EmptyString false w0 in
  let copying := CopyObject (copyInput bucket prefix fileName newFileName) (snd reserve) in
  let deleting := DeleteObject (deleteInput bucket prefix fileName) (snd copying) in
  LoadDefaultConfig w = (None, w0) ->
  fst reserve = Ok r ->
  fst copying = Ok out ->
  fst deleting = Error err ->
  let run := renameFile bucket prefix fileName newFileName w in
  let requests := requests_of (renameFile bucket prefix fileName newFileName) w in
  let a := call_attempts 2 w in
  let b := call_attempts (2 + a) w in
  let c := call_attempts (2 + a + b) w in
  fst run = Error ErrServiceUnavailable
  /\ (exists src o,
        parse_copy_source (bucket +:+ "/" +:+ prefix +:+ url.QueryEscape fileName) = Some src
        /\ src <> target
        /\ store w !! src = Some o
        /\ store (snd run) !! src = Some o
        /\ (exists o', store (snd run) !! target = Some o'
                       /\ Body o' = Body o /\ ETag o' = etag_of (Body o)))
  /\ (forall k, is_Some (store w !! k) -> is_Some (store (snd run) !! k))
  /\ requests = replicate a put ++ replicate b copy ++ replicate c del
  /\ ((1 <= a <= DefaultMaxAttempts)%nat /\ (1 <= b <= DefaultMaxAttempts)%nat
      /\ (1 <= c <= DefaultMaxAttempts)%nat)
  /\ (quiet 4 w -> a = 1%nat /\ b = 1%nat)
  /\ (exists errs,
        gives_up errs /\ last errs = Some err /\ length errs = c
        /\ take c (drop (2 + a + b) (faults w)) = Some <$> errs)
  /\ (requests = rename_steps bucket prefix fileName newFileName
      <-> a = 1%nat /\ b = 1%nat /\ c = 1%nat).
Proof.
  intros target put copy del reserve copying deleting Hcfg Hres Hcopy Hdel run requests a b c.
  subst run requests.
  assert (Hrun := renameFile_steps bucket prefix fileName newFileName w w0 Hcfg).
  cbn zeta in Hrun. fold reserve copying deleting in Hrun.
  rewrite Hres, Hcopy, Hdel in Hrun.
  unfold LoadDefaultConfig in Hcfg. rewrite next_fault_run in Hcfg. injection Hcfg as _ Hw0.
  pose proof (saveFileContent_cases bucket prefix newFileName EmptyString false w0) as Hs.
  cbn zeta in Hs. fold reserve target in Hs. rewrite Hres in Hs.
  destruct Hs as [(e & [=] & _)|(_ & Hs1 & Hn1 & Hfree & Hf1 & Ht1)].
  specialize (Hfree eq_refl).
  pose proof (CopyObject_cases (copyInput bucket prefix fileName newFileName) (snd reserve))
    as Hc. cbn zeta in Hc. fold copying in Hc. rewrite Hcopy in Hc.
  destruct Hc as ([(e & [=] & _)|(src & o & Hp & Hl & _ & Hs2 & Hn2 & Hne)] & Hf2 & Ht2).
  fold target in Hne.
  pose proof (DeleteObject_cases (deleteInput bucket prefix fileName) (snd copying)) as Hd.
  cbn zeta in Hd. fold deleting in Hd. rewrite Hdel in Hd.
  destruct Hd as (Hn3 & [(e & [= <-] & Hs3 & Hfail)|([=] & _)] & Hf3 & Ht3).
  subst w0. cbn [store faults trace now] in *.
  destruct (call_drop 1 1 w (Build_World (store w) (drop 1 (faults w)) (trace w) (now w))
              eq_refl) as [Ha1 _].
  rewrite Ha1 in Hf1, Ht1. cbn [Nat.add] in Hf1, Ht1. fold a in Hf1, Ht1.
  assert (Hfaults1 : faults (snd reserve) = drop (2 + a) (faults w))
    by (by rewrite Hf1, drop_drop).
  destruct (call_drop 0 (2 + a) w (snd reserve) Hfaults1) as [Hb _].
  rewrite Nat.add_0_r in Hb. fold b in Hb. rewrite Hb in Hf2, Ht2.
  assert (Hfaults2 : faults (snd copying) = drop (2 + a + b) (faults w))
    by (by rewrite Hf2, Hfaults1, drop_drop).
  destruct (call_drop 0 (2 + a + b) w (snd copying) Hfaults2) as [Hc Hc'].
  rewrite Nat.add_0_r in Hc, Hc'. fold c in Hc. rewrite Hc in Ht3. rewrite Hc' in Hfail.
  pose proof (call_attempts_bounds 2 w) as Ha3.
  pose proof (call_attempts_bounds (2 + a) w) as Hb3.
  pose proof (call_attempts_bounds (2 + a + b) w) as Hc3.
  fold a in Ha3. fold b in Hb3. fold c in Hc3.
  assert (Hstore : store (snd deleting)
                   = <[target := new_object (Body o) (ContentType o) (now w + 1)]>
                       (reserved bucket prefix newFileName w)).
  { rewrite Hs3, Hs2, Hn1, Hs1. reflexivity. }
  assert (Hsrc : store w !! src = Some o)
    by (rewrite Hs1, lookup_insert_ne in Hl by done; exact Hl).
  assert (Hreq : requests_of (renameFile bucket prefix fileName newFileName) w
                 = replicate a put ++ replicate b copy ++ replicate c del).
  { apply requests_of_app. rewrite Hrun. cbn [snd].
    rewrite Ht3, Ht2, Ht1. by rewrite <- !app_assoc. }
  rewrite Hreq, Hrun. cbn [fst snd]. rewrite Hstore.
  split; [done|]. split; [|split; [|split; [done|split; [done|split; [|split]]]]].
  - exists src, o. split; [exact Hp|]. split; [exact Hne|]. split; [exact Hsrc|]. split.
    + unfold reserved. by rewrite !lookup_insert_ne.
    + eexists. rewrite lookup_insert_eq. done.
  - intros k Hin. unfold reserved. destruct (decide (target = k)) as [<-|Hk'].
    + rewrite lookup_insert_eq. eauto.
    + by rewrite !lookup_insert_ne.
  - intros Hq. destruct (call_quiet 2 4 w Hq) as [Hone _]; [lia|]. fold a in Hone.
    split; [exact Hone|]. subst b. rewrite Hone.
    exact (proj1 (call_quiet 3 4 w Hq ltac:(lia))).
  - destruct (call_failure_gives_up _ _ _ Hfail) as (errs & Hg & Hl' & Hlen & Htake).
    exists errs. fold c in Hlen, Htake. done.
  - unfold rename_steps. fold put copy del. split.
    + intros Heq. apply (f_equal length) in Heq.
      rewrite !length_app, !length_replicate in Heq. cbn in Heq. lia.
    + by intros (-> & -> & ->).
Qed.

End Rename.

(** C1 as stated does not hold of every call: renaming onto the name of the
    existing note is refused at the reservation, and that put is the only
    request sent. *)
Lemma renameFile_refused_sends_one_request :
  requests_of (renameFile (SP := demo_params) "b" "u/" "x.txt" "a b.txt") one_note
    = [PutObjectReq (putInput "b" "u/" "a b.txt" EmptyString false)]
  /\ requests_of (renameFile (SP := demo_params) "b" "u/" "x.txt" "a b.txt") one_note
     <> rename_steps "b" "u/" "x.txt" "a b.txt".
Proof. split; [vm_compute; reflexivity | vm_compute; discriminate]. Qed.

(** Renaming the one note to a free name sends the three steps, once each,
    and returns the tag of the copy. *)
Lemma renameFile_steps_in_order_witness :
  quiet 5 one_note
  /\ fst (renameFile (SP := demo_params) "b" "u/" "a b.txt" "c.txt" one_note)
     = Ok {| rf_ETag := "etag-hello" |}
  /\ requests_of (renameFile (SP := demo_params) "b" "u/" "a b.txt" "c.txt") one_note
     = rename_steps "b" "u/" "a b.txt" "c.txt".
Proof.
  assert (Hq : quiet 5 one_note) by (vm_compute; constructor).
  assert (Hr : fst (renameFile (SP := demo_params) "b" "u/" "a b.txt" "c.txt" one_note)
               = Ok {| rf_ETag := "etag-hello" |}) by (vm_compute; reflexivity).
  split; [exact Hq|]. split; [exact Hr|].
  exact (proj2 (proj2 (proj2 (proj2 (renameFile_steps_in_order (SP := demo_params)
                                       "b" "u/" "a b.txt" "c.txt" one_note))) Hq) _ Hr).
Defined.

(** Renaming onto the name of the existing note: the reservation fails with
    [ErrAlreadyExists], and so does the rename. *)
Lemma renameFile_reservation_fails_witness :
  let w2 := snd (saveFileContent (SP := demo_params) "b" "u/" "a b.txt" EmptyString false
                   one_note) in
  LoadDefaultConfig one_note = (None, one_note)
  /\ saveFileContent (SP := demo_params) "b" "u/" "a b.txt" EmptyString false one_note
     = (Error ErrAlreadyExists, w2)
  /\ renameFile (SP := demo_params) "b" "u/" "x.txt" "a b.txt" one_note
     = (Error ErrAlreadyExists, w2)
  /\ store w2 = store one_note.
Proof.
  intros w2.
  assert (Hcfg : LoadDefaultConfig one_note = (None, one_note)) by reflexivity.
  assert (Hsave : saveFileContent (SP := demo_params) "b" "u/" "a b.txt" EmptyString false
                    one_note = (Error ErrAlreadyExists, w2)) by (vm_compute; reflexivity).
  destruct (renameFile_reservation_fails (SP := demo_params) "b" "u/" "x.txt" "a b.txt"
              one_note one_note w2 ErrAlreadyExists Hcfg Hsave)
    as (Hrun & _ & _ & _ & Hstore & _).
  done.
Defined.

(** Renaming a note that is not there: [ErrNotFound], and an empty object
    is left under the new name. *)
Lemma renameFile_source_missing_witness :
  quiet 4 one_note
  /\ fst (renameFile (SP := demo_params) "b" "u/" "nope.txt" "c.txt" one_note)
     = Error ErrNotFound
  /\ exists o, store (snd (renameFile (SP := demo_params) "b" "u/" "nope.txt" "c.txt"
                             one_note)) !! ("b", "u/c.txt") = Some o
               /\ Body o = EmptyString.
Proof.
  assert (Hq : quiet 4 one_note) by (vm_compute; constructor).
  split; [exact Hq|].
  destruct (renameFile_source_missing (SP := demo_params) "b" "u/" "nope.txt" "c.txt"
              one_note ("b", "u/nope.txt") Hq)
    as (Hr & _ & Ho & _); try (vm_compute; congruence).
  split; [exact Hr | exact Ho].
Defined.

(** C5 as stated does not hold of every call: when the connection fails at
    each attempt at the delete, the reservation and the copy having
    succeeded, the delete is sent three times before the rename gives up
    with [ErrServiceUnavailable]. *)
Lemma renameFile_delete_is_sent_again :
  let rename := renameFile (SP := demo_params) "b" "u/" "a b.txt" "c.txt" in
  let put := PutObjectReq (putInput "b" "u/" "c.txt" EmptyString false) in
  let copy := CopyObjectReq (copyInput "b" "u/" "a b.txt" "c.txt") in
  let del := DeleteObjectReq (deleteInput "b" "u/" "a b.txt") in
  fst (rename one_note_delete_fails) = Error ErrServiceUnavailable
  /\ requests_of rename one_note_delete_fails = [put; copy; del; del; del]
  /\ requests_of rename one_note_delete_fails <> rename_steps "b" "u/" "a b.txt" "c.txt".
Proof. split; [|split]; vm_compute; [reflexivity|reflexivity|discriminate]. Qed.

(** When the connection fails once only, the delete sent again goes
    through: the rename succeeds, having sent four requests. *)
Remark renameFile_delete_sent_again_succeeds :
  let rename := renameFile (SP := demo_params) "b" "u/" "a b.txt" "c.txt" in
  let del := DeleteObjectReq (deleteInput "b" "u/" "a b.txt") in
  fst (rename one_note_delete_fails_once) = Ok {| rf_ETag := "etag-hello" |}
  /\ requests_of rename one_note_delete_fails_once
     = [PutObjectReq (putInput "b" "u/" "c.txt" EmptyString false);
        CopyObjectReq (copyInput "b" "u/" "a b.txt" "c.txt"); del; del].
Proof. split; vm_compute; reflexivity. Qed.

(** Renaming the one note when the connection fails at each attempt at the
    delete: [ErrServiceUnavailable], with the note under both names and
    the delete sent three times; and when the store denies the delete:
    each request is sent once. *)
Lemma renameFile_delete_fails_witness :
  let del := DeleteObjectReq (deleteInput "b" "u/" "a b.txt") in
  fst (renameFile (SP := demo_params) "b" "u/" "a b.txt" "c.txt" one_note_delete_fails)
    = Error ErrServiceUnavailable
  /\ requests_of (renameFile (SP := demo_params) "b" "u/" "a b.txt" "c.txt")
       one_note_delete_fails
     = [PutObjectReq (putInput "b" "u/" "c.txt" EmptyString false);
        CopyObjectReq (copyInput "b" "u/" "a b.txt" "c.txt"); del; del; del]
  /\ (exists o, store (snd (renameFile (SP := demo_params) "b" "u/" "a b.txt" "c.txt"
                              one_note_delete_fails)) !! ("b", "u/c.txt") = Some o
                /\ Body o = "hello")
  /\ requests_of (renameFile (SP := demo_params) "b" "u/" "a b.txt" "c.txt")
       one_note_delete_denied
     = rename_steps "b" "u/" "a b.txt" "c.txt".
Proof.
  intros del.
  destruct (renameFile_delete_fails (SP := demo_params) "b" "u/" "a b.txt" "c.txt"
              one_note_delete_fails (snd (LoadDefaultConfig one_note_delete_fails))
              {| sfc_ETag := "etag-" |} {| CopyObjectResult_ETag := "etag-hello" |} OtherError
              eq_refl eq_refl eq_refl eq_refl)
    as (Hr & (src & o & Hp & _ & Hl & _ & (o' & Ho' & Hb & _)) & _ & Hreq & _).
  split; [exact Hr|]. split; [exact Hreq|]. split.
  - exists o'. split; [exact Ho'|]. rewrite Hb.
    vm_compute in Hp. injection Hp as <-.
    vm_compute in Hl. injection Hl as <-. reflexivity.
  - destruct (renameFile_delete_fails (SP := demo_params) "b" "u/" "a b.txt" "c.txt"
                one_note_delete_denied (snd (LoadDefaultConfig one_note_delete_denied))
                {| sfc_ETag := "etag-" |} {| CopyObjectResult_ETag := "etag-hello" |}
                (APIError "AccessDenied") eq_refl eq_refl eq_refl eq_refl)
      as (_ & _ & _ & _ & _ & _ & _ & Hone).
    apply Hone. repeat split; reflexivity.
Defined.

(** ** Read *)

Lemma getFileContent_quiet bucket prefix fileName etag (w : World) :
  quiet 3 w ->
  let sent := trace w ++ [GetObjectReq (getInput bucket prefix fileName etag)] in
  getFileContent bucket prefix fileName etag w =
    match store w !! (bucket, prefix +:+ fileName) with
    | None =>
        (Error ErrNotFound, Build_World (store w) (drop 2 (faults w)) sent (now w))
    | Some o =>
        if negb (String.eqb etag EmptyString) && String.eqb etag (ETag o)
        then (Error ErrNotModified, Build_World (store w) (drop 2 (faults w)) sent (now w))
        else (Ok {| Content := Body o; gfc_ETag := ETag o |},
              Build_World (store w) (drop 3 (faults w)) sent (now w))
    end.
Proof.
  intros Hq sent. subst sent.
  unfold getFileContent, bind, LoadDefaultConfig. rewrite next_fault_run.
  destruct (quiet_S _ _ Hq) as [-> _].
  fold (getInput bucket prefix fileName etag). unfold GetObject.
  erewrite (exchange_quiet _ _ 0) by (by apply (quiet_drop 1 1), (quiet_le 3 2); [lia|]).
  simpl. rewrite !drop_drop. simpl. unfold store_get. simpl.
  destruct (store w !! (bucket, prefix +:+ fileName)) as [o|]; simpl; [|reflexivity].
  assert (Hread : forall body t,
    ReadAll body (Build_World (store w) (drop 2 (faults w)) t (now w))
    = (Ok body, Build_World (store w) (drop 3 (faults w)) t (now w))).
  { intros body t. unfold ReadAll, bind. rewrite next_fault_run. simpl.
    rewrite drop_drop. simpl.
    assert (Hq3 : quiet 1 (Build_World (store w) (drop 2 (faults w)) t (now w)))
      by (by apply (quiet_drop 2 1)).
    apply quiet_S in Hq3 as [Hh _]. simpl in Hh. rewrite Hh. reflexivity. }
  destruct (String.eqb etag EmptyString); simpl.
  - by rewrite Hread.
  - destruct (String.eqb etag (ETag o)); simpl; [reflexivity|by rewrite Hread].
Qed.

(** C6. Absent transport failure: a read with a non-empty tag equal to the
    stored object's current tag fails with [ErrNotModified]; a read with the
    empty tag sends no condition and returns the existing object's full
    content and current tag; a read of a key holding no object fails with
    [ErrNotFound]. *)
Theorem getFileContent_conditional_read bucket prefix fileName etag (w : World) :
  quiet 3 w ->
  let key := (bucket, prefix +:+ fileName) in
  let run := getFileContent bucket prefix fileName etag w in
  (forall o, store w !! key = Some o -> etag <> EmptyString -> etag = ETag o ->
             fst run = Error ErrNotModified)
  /\ (etag = EmptyString ->
        (exists input,
            requests_of (getFileContent bucket prefix fileName etag) w = [GetObjectReq input]
            /\ go_Bucket input = bucket /\ go_Key input = prefix +:+ fileName
            /\ go_IfNoneMatch input = None)
        /\ forall o, store w !! key = Some o ->
                     fst run = Ok {| Content := Body o; gfc_ETag := ETag o |})
  /\ (store w !! key = None -> fst run = Error ErrNotFound).
Proof.
  intros Hq key run. subst run.
  assert (Hreq : requests_of (getFileContent bucket prefix fileName etag) w
                 = [GetObjectReq (getInput bucket prefix fileName etag)]).
  { apply requests_of_app. rewrite (getFileContent_quiet _ _ _ _ _ Hq). simpl.
    destruct (store w !! _); [destruct (_ && _)|]; reflexivity. }
  rewrite Hreq, (getFileContent_quiet _ _ _ _ _ Hq). fold key. simpl.
  split; [|split].
  - intros o -> Hne ->. rewrite String.eqb_refl.
    apply String.eqb_neq in Hne. rewrite Hne. reflexivity.
  - intros ->. split.
    + eexists. split; [reflexivity|]. done.
    + intros o ->. reflexivity.
  - intros ->. reflexivity.
Qed.

(** Reading the one note: with its current tag, with no tag, and under a
    name that is not there. *)
Lemma getFileContent_conditional_read_witness :
  quiet 3 one_note
  /\ fst (getFileContent "b" "u/" "a b.txt" "etag-hello" one_note)
     = Error ErrNotModified
  /\ fst (getFileContent "b" "u/" "a b.txt" EmptyString one_note)
     = Ok {| Content := "hello"; gfc_ETag := "etag-hello" |}
  /\ fst (getFileContent "b" "u/" "nope.txt" EmptyString one_note)
     = Error ErrNotFound.
Proof.
  assert (Hq : quiet 3 one_note) by (vm_compute; constructor).
  split; [exact Hq|]. split; [|split].
  - destruct (getFileContent_conditional_read
                "b" "u/" "a b.txt" "etag-hello" one_note Hq) as (Hm & _ & _).
    apply (Hm (demo_object "hello")); [vm_compute; reflexivity|discriminate|reflexivity].
  - destruct (getFileContent_conditional_read
                "b" "u/" "a b.txt" EmptyString one_note Hq) as (_ & He & _).
    destruct (He eq_refl) as [_ Hc].
    apply (Hc (demo_object "hello")). vm_compute; reflexivity.
  - destruct (getFileContent_conditional_read
                "b" "u/" "nope.txt" EmptyString one_note Hq) as (_ & _ & Hn).
    apply Hn. vm_compute; reflexivity.
Defined.

(** ** Delete *)

(** What [deleteFile] does, by the failure scheduled for the loading of
    the configuration and by the way the delete call ends. *)
Lemma deleteFile_run bucket prefix fileName (w : World) :
  deleteFile bucket prefix fileName w =
    match scheduled 0 w with
    | Some _ =>
        (Some ErrServiceUnavailable,
         Build_World (store w) (drop 1 (faults w)) (trace w) (now w))
    | None =>
        let k := call_attempts 1 w in
        let sent := trace w ++ replicate k (DeleteObjectReq (deleteInput bucket prefix fileName)) in
        match call_failure 1 w with
        | Some err =>
            (if decide (err = APIError "NoSuchKey") then None else Some ErrServiceUnavailable,
             Build_World (store w) (drop (1 + k) (faults w)) sent (now w))
        | None =>
            (None,
             Build_World (delete (bucket, prefix +:+ fileName) (store w))
                         (drop (1 + k) (faults w)) sent (now w))
        end
    end.
Proof.
  unfold deleteFile, bind, LoadDefaultConfig, DeleteObject, scheduled.
  rewrite next_fault_run.
  replace (mjoin (faults w !! 0%nat)) with (match faults w with f :: _ => f | [] => None end)
    by (by destruct (faults w)).
  destruct (match faults w with f :: _ => f | [] => None end) as [e0|]; [reflexivity|].
  rewrite exchange_run. unfold call_attempts, call_failure.
  cbn [faults store trace now drop]. rewrite !drop_drop, ?Nat.add_0_r.
  fold (deleteInput bucket prefix fileName).
  destruct (snd (attempts _ (drop 1 (faults w)))) as [err|]; [|reflexivity].
  destruct err as [code|]; [|reflexivity].
  destruct (String.eqb_spec code "NoSuchKey") as [->|Hne].
  - reflexivity.
  - rewrite decide_False by congruence. reflexivity.
Qed.

Lemma scheduled_final (i : nat) (w : World) (err : SdkError) :
  scheduled i w = Some err -> IsErrorRetryable err = false -> call_failure i w = Some err.
Proof.
  unfold scheduled, call_failure. intros Hs Hf.
  destruct (faults w !! i) as [f|] eqn:Hi; [|done]. simpl in Hs. subst f.
  rewrite (drop_S _ _ _ Hi). by rewrite attempts_final.
Qed.

Section Delete.
Context `{SP : StoreParams}.

(** C9. Deleting succeeds whether or not an object is at the key, and
    afterwards none is; when the store reports that there is no such key
    the report is swallowed and the delete succeeds; any other failure the
    delete call ends in comes out as [ErrServiceUnavailable], and nothing
    else does.  Delete stands alone in this: a read of an absent key fails
    with [ErrNotFound], a rename of an absent source does not succeed,
    whatever the new name and whatever fails, and a write that succeeds
    leaves an object at its key. *)
Theorem deleteFile_absent_is_success bucket prefix fileName (w : World) :
  let key := (bucket, prefix +:+ fileName) in
  let run := deleteFile bucket prefix fileName w in
  (quiet 2 w ->
     fst run = None
     /\ store (snd run) = delete key (store w)
     /\ (store w !! key = None -> store (snd run) = store w))
  /\ (quiet 1 w -> scheduled 1 w = Some (APIError "NoSuchKey") ->
      fst run = None /\ store (snd run) = store w)
  /\ (forall err,
        scheduled 0 w = Some err
        \/ (quiet 1 w /\ call_failure 1 w = Some err /\ err <> APIError "NoSuchKey") ->
        fst run = Some ErrServiceUnavailable /\ store (snd run) = store w)
  /\ (fst run = None \/ fst run = Some ErrServiceUnavailable)
  /\ (quiet 3 w -> store w !! key = None ->
      forall etag, fst (getFileContent bucket prefix fileName etag w) = Error ErrNotFound)
  /\ (forall newFileName src,
        parse_copy_source (bucket +:+ "/" +:+ prefix +:+ url.QueryEscape fileName) = Some src ->
        store w !! src = None ->
        forall r, fst (renameFile bucket prefix fileName newFileName w) <> Ok r)
  /\ (forall content overwrite r,
        fst (saveFileContent bucket prefix fileName content overwrite w) = Ok r ->
        is_Some (store (snd (saveFileContent bucket prefix fileName content overwrite w))
                 !! key)).
Proof.
  intros key run. subst run. rewrite deleteFile_run. cbn zeta.
  assert (Hhead : forall n, quiet (S n) w -> scheduled 0 w = None).
  { intros n Hq. apply quiet_S in Hq as [Hq _]. unfold scheduled.
    destruct (faults w) as [|f fl]; simpl in *; [done|by subst]. }
  split; [|split; [|split; [|split; [|split; [|split]]]]].
  - intros Hq. rewrite (Hhead _ Hq).
    destruct (call_quiet 1 2 w Hq) as [_ ->]; [lia|]. simpl.
    split; [done|]. split; [done|]. intros Hn. by apply delete_id.
  - intros Hq Hs. rewrite (Hhead _ Hq).
    rewrite (scheduled_final 1 w _ Hs) by reflexivity. simpl. done.
  - intros err [Hs|(Hq & Hs & Hne)].
    + rewrite Hs. done.
    + rewrite (Hhead _ Hq), Hs. simpl. rewrite decide_False by done. done.
  - destruct (scheduled 0 w); [by right|].
    destruct (call_failure 1 w) as [err|]; [|by left].
    simpl. case_decide; eauto.
  - intros Hq Hn etag. rewrite (getFileContent_quiet _ _ _ _ _ Hq).
    fold key. rewrite Hn. reflexivity.
  - intros newFileName src Hp Hn r Hr.
    pose proof (renameFile_cases bucket prefix fileName newFileName w) as H.
    simpl in H. rewrite Hr in H. unfold reserved in H.
    destruct H as [(? & _)|[(e & ? & _)|[(e & ? & _)
                  |[(src' & o & _ & _ & ? & _)
                   |(src' & o & Hp' & Hl & _ & _ & _ & Hne & _)]]]];
      try discriminate.
    rewrite Hp in Hp'. injection Hp' as <-.
    rewrite lookup_insert_ne in Hl by done. congruence.
  - intros content overwrite r Hr.
    pose proof (saveFileContent_cases bucket prefix fileName content overwrite w) as H.
    simpl in H. rewrite Hr in H.
    destruct H as [(e & ? & _)|(_ & -> & _)]; [done|].
    fold key. rewrite lookup_insert_eq. eauto.
Qed.

End Delete.

(** Deleting a name that is not there, on the store holding one note. *)
Lemma deleteFile_absent_is_success_witness :
  quiet 2 one_note
  /\ store one_note !! ("b", "u/nope.txt") = None
  /\ fst (deleteFile "b" "u/" "nope.txt" one_note) = None
  /\ store (snd (deleteFile "b" "u/" "nope.txt" one_note)) = store one_note.
Proof.
  assert (Hq : quiet 2 one_note) by (vm_compute; constructor).
  assert (Hn : store one_note !! ("b", "u/nope.txt") = None) by (vm_compute; reflexivity).
  split; [exact Hq|]. split; [exact Hn|].
  destruct (deleteFile_absent_is_success (SP := demo_params) "b" "u/" "nope.txt" one_note)
    as (Hd & _).
  destruct (Hd Hq) as (Hr & _ & Hs). split; [exact Hr | exact (Hs Hn)].
Defined.


(** ** Rename: the name copied from and the key deleted *)

(** C10. In a rename the copy request names its source as
    [bucket + "/" + prefix + QueryEscape(fileName)], while the delete request
    carries the key [prefix + fileName], unescaped.  For a file name that
    query-escaping leaves unchanged the copy source is the bucket, a slash
    and the deleted key; for the valid file names [a b.txt] and [a+b.txt]
    it is not. *)
Theorem renameFile_copy_source_and_delete_key `{SP : StoreParams}
    bucket prefix fileName newFileName (w : World) :
  (forall req, req ∈ requests_of (renameFile bucket prefix fileName newFileName) w ->
     (forall input, req = CopyObjectReq input ->
        co_Bucket input = bucket
        /\ co_CopySource input = bucket +:+ "/" +:+ prefix +:+ url.QueryEscape fileName)
     /\ (forall input, req = DeleteObjectReq input ->
           do_Bucket input = bucket /\ do_Key input = prefix +:+ fileName))
  /\ (url.QueryEscape fileName = fileName ->
      forall c d,
        CopyObjectReq c ∈ requests_of (renameFile bucket prefix fileName newFileName) w ->
        DeleteObjectReq d ∈ requests_of (renameFile bucket prefix fileName newFileName) w ->
        co_CopySource c = do_Bucket d +:+ "/" +:+ do_Key d)
  /\ (forall title, title ∈ ["a b.txt"; "a+b.txt"] ->
        isFileNameValid title = true
        /\ co_CopySource (copyInput bucket prefix title newFileName)
           <> do_Bucket (deleteInput bucket prefix title)
              +:+ "/" +:+ do_Key (deleteInput bucket prefix title)).
Proof.
  assert (Hreq : forall req,
    req ∈ requests_of (renameFile bucket prefix fileName newFileName) w ->
    (forall input, req = CopyObjectReq input ->
       input = copyInput bucket prefix fileName newFileName)
    /\ (forall input, req = DeleteObjectReq input ->
          input = deleteInput bucket prefix fileName)).
  { intros req Hin.
    assert (Hin' : req ∈ rename_steps bucket prefix fileName newFileName)
      by (by apply (renameFile_requests_elem bucket prefix fileName newFileName w)).
    unfold rename_steps in Hin'.
    repeat (apply elem_of_cons in Hin' as [->|Hin']); try (by apply elem_of_nil in Hin');
      split; intros input [= <-]; done. }
  split; [|split].
  - intros req Hin. destruct (Hreq req Hin) as [Hc Hd].
    split; intros input ->; [rewrite (Hc _ eq_refl)|rewrite (Hd _ eq_refl)]; done.
  - intros Hesc c d Hc Hd.
    rewrite (proj1 (Hreq _ Hc) c eq_refl), (proj2 (Hreq _ Hd) d eq_refl).
    simpl. by rewrite Hesc.
  - intros title Hin. simpl.
    repeat (apply elem_of_cons in Hin as [->|Hin]); try (by apply elem_of_nil in Hin).
    + split; [vm_compute; reflexivity|].
      intros H. do 3 apply (inj (String.append _)) in H. vm_compute in H. discriminate.
    + split; [vm_compute; reflexivity|].
      intros H. do 3 apply (inj (String.append _)) in H. vm_compute in H. discriminate.
Qed.

(** Renaming the note [a.txt], the copy is taken from [b/u/a.txt] and the
    key deleted is [u/a.txt]; for a note [a b.txt] the copy would be taken
    from [b/u/a+b.txt] and the key deleted would be [u/a b.txt]. *)
Lemma renameFile_copy_source_and_delete_key_witness :
  url.QueryEscape "a.txt" = "a.txt"
  /\ requests_of (renameFile (SP := demo_params) "b" "u/" "a.txt" "c.txt") plain_note
     = [PutObjectReq (putInput "b" "u/" "c.txt" EmptyString false);
        CopyObjectReq {| co_Bucket := "b"; co_CopySource := "b/u/a.txt";
                         co_Key := "u/c.txt" |};
        DeleteObjectReq {| do_Bucket := "b"; do_Key := "u/a.txt" |}]
  /\ co_CopySource (copyInput "b" "u/" "a.txt" "c.txt")
     = do_Bucket (deleteInput "b" "u/" "a.txt")
       +:+ "/" +:+ do_Key (deleteInput "b" "u/" "a.txt")
  /\ co_CopySource (copyInput "b" "u/" "a b.txt" "c.txt")
     <> do_Bucket (deleteInput "b" "u/" "a b.txt")
        +:+ "/" +:+ do_Key (deleteInput "b" "u/" "a b.txt").
Proof.
  assert (Hesc : url.QueryEscape "a.txt" = "a.txt") by reflexivity.
  assert (Hreqs : requests_of (renameFile (SP := demo_params) "b" "u/" "a.txt" "c.txt")
                    plain_note
                  = [PutObjectReq (putInput "b" "u/" "c.txt" EmptyString false);
                     CopyObjectReq (copyInput "b" "u/" "a.txt" "c.txt");
                     DeleteObjectReq (deleteInput "b" "u/" "a.txt")])
    by (vm_compute; reflexivity).
  destruct (renameFile_copy_source_and_delete_key (SP := demo_params)
              "b" "u/" "a.txt" "c.txt" plain_note) as (_ & Hsame & Hdiff).
  split; [exact Hesc|]. split; [exact Hreqs|]. split.
  - apply (Hsame Hesc); rewrite Hreqs.
    + apply elem_of_cons; right. apply elem_of_cons; left. reflexivity.
    + apply elem_of_cons; right. apply elem_of_cons; right.
      apply elem_of_cons; left. reflexivity.
  - destruct (renameFile_copy_source_and_delete_key (SP := demo_params)
                "b" "u/" "a b.txt" "c.txt" one_note) as (_ & _ & Hd).
    apply (Hd "a b.txt"). apply elem_of_cons; left. reflexivity.
Defined.

(** ** List *)

Lemma listFiles_range_spec (prefix : string) (contents : list S3Object) (files : list FileData) :
  listFiles_range prefix contents files
  = files ++ (fileOf prefix <$> filter supported contents).
Proof.
  revert files. induction contents as [|obj rest IH]; intros files; simpl.
  - by rewrite app_nil_r.
  - destruct (isSupportedFileType (obj_Key obj)) eqn:Hs.
    + rewrite IH, filter_cons_True by done. rewrite fmap_cons, <- app_assoc. done.
    + rewrite IH, filter_cons_False; [done|]. unfold supported. congruence.
Qed.

Lemma handleGetFiles_range_spec (resultFiles : list FileData) (files : list FileDataOut) :
  handleGetFiles_range resultFiles files
  = files ++ (fileOut <$> filter (fun file => isFileNameValid (FileName file) = true) resultFiles).
Proof.
  revert files. induction resultFiles as [|file rest IH]; intros files; simpl.
  - by rewrite app_nil_r.
  - destruct (isFileNameValid (FileName file)) eqn:Hv.
    + rewrite IH, filter_cons_True by done. rewrite fmap_cons, <- app_assoc. done.
    + rewrite IH, filter_cons_False; [done|]. congruence.
Qed.

(** What [listFiles] does, by the failure scheduled for the loading of the
    configuration, by the way the list call ends and by the store's
    answer. *)
Lemma listFiles_run bucket prefix pageSize continuationToken (w : World) :
  let input := listInput bucket prefix pageSize continuationToken in
  let k := call_attempts 1 w in
  let sent := Build_World (store w) (drop (1 + k) (faults w))
                          (trace w ++ replicate k (ListObjectsV2Req input)) (now w) in
  let classify (err : SdkError) :=
    if decide (err = APIError "InvalidArgument") then ErrInvalidArgument
    else ErrServiceUnavailable in
  listFiles bucket prefix pageSize continuationToken w =
    match scheduled 0 w with
    | Some _ =>
        (Error ErrServiceUnavailable,
         Build_World (store w) (drop 1 (faults w)) (trace w) (now w))
    | None =>
        match call_failure 1 w with
        | Some err => (Error (classify err), sent)
        | None =>
            match store_list input (store w) with
            | Error err => (Error (classify err), sent)
            | Ok output =>
                (Ok {| Files := listFiles_range prefix (Contents output) [];
                       HasMore := IsTruncated output;
                       NextContinuationToken :=
                         match out_NextContinuationToken output with
                         | Some token => token
                         | None => EmptyString
                         end |}, sent)
            end
        end
    end.
Proof.
  intros input k sent classify. subst input k sent classify.
  unfold listFiles, bind, LoadDefaultConfig, ListObjectsV2, scheduled.
  rewrite next_fault_run. fold (listInput bucket prefix pageSize continuationToken).
  assert (Hclass : forall err (w' : World),
    match err with
    | APIError code =>
        if String.eqb code "InvalidArgument"
        then ret (Error (logAndReturnError err ErrInvalidArgument))
        else ret (Error (logAndReturnError err ErrServiceUnavailable))
    | OtherError => ret (Error (logAndReturnError err ErrServiceUnavailable))
    end w'
    = (Error (if decide (err = APIError "InvalidArgument") then ErrInvalidArgument
              else ErrServiceUnavailable) : result Err ListFilesResult, w')).
  { intros [code|] w'; [|reflexivity].
    destruct (String.eqb_spec code "InvalidArgument") as [->|Hne]; [reflexivity|].
    rewrite decide_False by congruence. reflexivity. }
  replace (mjoin (faults w !! 0%nat)) with (match faults w with f :: _ => f | [] => None end)
    by (by destruct (faults w)).
  destruct (match faults w with f :: _ => f | [] => None end) as [e0|]; [reflexivity|].
  rewrite exchange_run. unfold call_attempts, call_failure.
  cbn [faults store trace now drop]. rewrite !drop_drop, ?Nat.add_0_r.
  destruct (snd (attempts _ (drop 1 (faults w)))) as [err|]; [apply Hclass|].
  destruct (store_list _ (store w)) as [output|err]; [reflexivity|apply Hclass].
Qed.

(** The entries the store lists are objects of the bucket whose keys start
    with the prefix, and a page holds at most [MaxKeys] of them. *)
Lemma after_token_elem (token : string) (l rest : list (string * StoredObject))
    (x : string * StoredObject) :
  after_token token l = Some rest -> x ∈ rest -> x ∈ l.
Proof.
  induction l as [|[k o] l IH]; simpl; [done|].
  destruct (String.eqb k token).
  - intros [= ->] Hin. by apply elem_of_cons; right.
  - intros Hr Hin. apply elem_of_cons; right. by apply IH.
Qed.

Lemma bucket_entries_elem (bucket prefix : string)
    (s : gmap (string * string) StoredObject) (k : string) (o : StoredObject) :
  (k, o) ∈ bucket_entries bucket prefix s ->
  s !! (bucket, k) = Some o /\ HasPrefix k prefix = true.
Proof.
  unfold bucket_entries. rewrite list_elem_of_omap.
  intros ([[b k'] o'] & Hin & Hf). simpl in Hf.
  destruct (String.eqb_spec b bucket) as [->|]; simpl in Hf; [|done].
  destruct (HasPrefix k' prefix) eqn:Hp; [|done].
  injection Hf as -> ->. by apply elem_of_map_to_list in Hin.
Qed.

Lemma list_page_elem (input : ListObjectsV2Input)
    (entries : list (string * StoredObject)) (obj : S3Object) :
  obj ∈ Contents (list_page input entries) ->
  exists k o, (k, o) ∈ entries /\ obj = to_S3Object (k, o).
Proof.
  unfold list_page; simpl. rewrite list_elem_of_fmap.
  intros ([k o] & -> & Hin). exists k, o. split; [|done].
  apply elem_of_take in Hin as (i & Hi & _). by eapply list_elem_of_lookup_2.
Qed.

Lemma list_page_length (input : ListObjectsV2Input)
    (entries : list (string * StoredObject)) :
  0 <= lo_MaxKeys input ->
  Z.of_nat (length (Contents (list_page input entries))) <= lo_MaxKeys input.
Proof.
  intros Hk. unfold list_page; simpl. rewrite length_fmap, length_take. lia.
Qed.

Lemma store_list_page (input : ListObjectsV2Input)
    (s : gmap (string * string) StoredObject) (output : ListObjectsV2Output) :
  store_list input s = Ok output ->
  Z.of_nat (length (Contents output)) <= lo_MaxKeys input
  /\ forall obj, obj ∈ Contents output ->
       exists o, s !! (lo_Bucket input, obj_Key obj) = Some o
                 /\ HasPrefix (obj_Key obj) (lo_Prefix input) = true
                 /\ obj_ETag obj = ETag o /\ obj_LastModified obj = LastModified o.
Proof.
  unfold store_list. destruct (Z.ltb_spec (lo_MaxKeys input) 0) as [|Hk]; [done|].
  assert (Hfrom : forall entries,
    (forall x, x ∈ entries -> x ∈ bucket_entries (lo_Bucket input) (lo_Prefix input) s) ->
    forall obj, obj ∈ Contents (list_page input entries) ->
      exists o, s !! (lo_Bucket input, obj_Key obj) = Some o
                /\ HasPrefix (obj_Key obj) (lo_Prefix input) = true
                /\ obj_ETag obj = ETag o /\ obj_LastModified obj = LastModified o).
  { intros entries Hsub obj (k & o & Hin & ->)%list_page_elem.
    apply Hsub, bucket_entries_elem in Hin as [Hl Hp]. exists o. done. }
  destruct (lo_ContinuationToken input) as [token|].
  - destruct (after_token token _) as [rest|] eqn:Hrest; [|done].
    intros [= <-]. split; [by apply list_page_length|].
    apply Hfrom. intros x. by apply after_token_elem with token.
  - intros [= <-]. split; [by apply list_page_length|]. by apply Hfrom.
Qed.

Lemma filter_none_supported (contents : list S3Object) :
  Forall (fun obj => ~ supported obj) contents -> filter supported contents = [].
Proof.
  induction 1 as [|obj rest Hobj _ IH]; [done|].
  by rewrite filter_cons_False.
Qed.

(** C8. A list call sends one request to the store, asking for at most
    [int32(pageSize)] raw entries, and never another one: it is sent once
    when nothing fails in transport, and what the client sends again after
    a failure is the same request.  The records returned are the raw
    entries of a supported type, filtered after the fetch: there are at
    most as many as raw entries, which are at most [pageSize]; every number
    from zero up to the size of the raw page can come out; [HasMore] is the
    store's truncation flag whatever the filter keeps, so a page of
    unsupported entries only gives no record together with the store's
    flag. *)
Theorem listFiles_filters_after_fetch bucket prefix pageSize continuationToken (w : World) :
  let input := listInput bucket prefix pageSize continuationToken in
  let run := listFiles bucket prefix pageSize continuationToken w in
  let requests := requests_of (listFiles bucket prefix pageSize continuationToken) w in
  (exists k, (k <= DefaultMaxAttempts)%nat /\ requests = replicate k (ListObjectsV2Req input))
  /\ (quiet 2 w -> requests = [ListObjectsV2Req input])
  /\ lo_MaxKeys input = int32 pageSize
  /\ (forall r, fst run = Ok r ->
        exists output,
          store_list input (store w) = Ok output
          /\ (exists k, (1 <= k <= DefaultMaxAttempts)%nat
                        /\ requests = replicate k (ListObjectsV2Req input))
          /\ Files r = fileOf prefix <$> filter supported (Contents output)
          /\ (length (Files r) <= length (Contents output))%nat
          /\ Z.of_nat (length (Contents output)) <= int32 pageSize
          /\ HasMore r = IsTruncated output
          /\ (Forall (fun obj => ~ supported obj) (Contents output) ->
              Files r = [] /\ HasMore r = IsTruncated output))
  /\ (forall k n, (k <= n)%nat ->
        length (raw_page k n) = n
        /\ length (listFiles_range prefix (raw_page k n) []) = k).
Proof.
  intros input run requests. subst run requests.
  pose proof (listFiles_run bucket prefix pageSize continuationToken w) as Hrun.
  cbn zeta in Hrun. fold input in Hrun.
  pose proof (call_attempts_bounds 1 w) as Hk.
  assert (Hsent : scheduled 0 w = None ->
            requests_of (listFiles bucket prefix pageSize continuationToken) w
            = replicate (call_attempts 1 w) (ListObjectsV2Req input)).
  { intros H0. unfold requests_of. rewrite Hrun, H0.
    destruct (call_failure 1 w); [|destruct (store_list _ (store w))];
      simpl; apply drop_app_length. }
  split; [|split; [|split; [done|split]]].
  - destruct (scheduled 0 w) eqn:H0.
    + exists 0%nat. split; [lia|]. unfold requests_of. rewrite Hrun, ?H0. apply drop_all.
    + exists (call_attempts 1 w). split; [lia|]. by apply Hsent.
  - intros Hq. rewrite Hsent by (apply (quiet_scheduled 2); [done|lia]).
    by destruct (call_quiet 1 2 w Hq) as [-> _]; [lia|].
  - intros r Hr. rewrite Hrun in Hr.
    destruct (scheduled 0 w) eqn:H0; [done|]. destruct (call_failure 1 w) eqn:H1; [done|].
    destruct (store_list input (store w)) as [output|err] eqn:Hlist; [|done].
    simpl in Hr. injection Hr as <-. exists output. simpl.
    rewrite listFiles_range_spec. simpl.
    destruct (store_list_page _ _ _ Hlist) as [Hlen _].
    split; [done|]. split; [eexists; split; [exact Hk|by apply Hsent]|].
    split; [done|]. split; [rewrite length_fmap; apply length_filter|].
    split; [exact Hlen|]. split; [done|].
    intros Hnone. split; [|done]. by rewrite filter_none_supported.
  - intros k n Hle. unfold raw_page. rewrite listFiles_range_spec. simpl.
    rewrite length_app, !length_replicate. split; [lia|].
    rewrite length_fmap, filter_app, length_app.
    assert (Hgood : forall m obj, supported obj ->
              length (filter supported (replicate m obj)) = m).
    { intros m obj Hs. induction m as [|m IH]; [done|]. simpl.
      rewrite filter_cons_True by done. simpl. by rewrite IH. }
    assert (Hbad : forall m obj, ~ supported obj ->
              length (filter supported (replicate m obj)) = 0%nat).
    { intros m obj Hs. induction m as [|m IH]; [done|]. simpl.
      by rewrite filter_cons_False. }
    rewrite Hgood by (vm_compute; reflexivity).
    rewrite Hbad by (vm_compute; discriminate). lia.
Qed.

(** A page of two raw entries of other types, out of three: no record, and
    more to come. *)
Lemma listFiles_filters_after_fetch_witness :
  quiet 2 only_other_files
  /\ exists r, fst (listFiles "b" "u/" 2 EmptyString only_other_files) = Ok r
               /\ Files r = [] /\ HasMore r = true
               /\ requests_of (listFiles "b" "u/" 2 EmptyString) only_other_files
                  = [ListObjectsV2Req (listInput "b" "u/" 2 EmptyString)].
Proof.
  assert (Hq : quiet 2 only_other_files) by (vm_compute; constructor).
  split; [exact Hq|].
  destruct (listFiles "b" "u/" 2 EmptyString only_other_files) as [res w'] eqn:Hrun.
  assert (Hr : exists r, res = Ok r /\ Files r = [] /\ HasMore r = true).
  { vm_compute in Hrun. injection Hrun as <- _. eexists. split; [reflexivity|]. done. }
  destruct Hr as (r & -> & Hf & Hm). exists r.
  destruct (listFiles_filters_after_fetch "b" "u/" 2 EmptyString only_other_files)
    as (_ & Hreq & _).
  split; [reflexivity|]. split; [exact Hf|]. split; [exact Hm|]. exact (Hreq Hq).
Defined.

(** A successful listing answer of the handler packs the valid file names
    of one [listFiles] result under the caller's prefix. *)
Lemma handleGetFiles_success (_bucket : string) (bound : option getFilesDataIn)
    (userId : string) (w : World) (data : getFilesDataOut) :
  fst (handleGetFiles _bucket bound userId w) = Success data ->
  exists pageSize continuationToken result,
    fst (listFiles _bucket (userId +:+ "/") pageSize continuationToken w) = Ok result
    /\ gf_Files data = handleGetFiles_range (Files result) []
    /\ gf_HasMore data = HasMore result.
Proof.
  unfold handleGetFiles. destruct bound as [getFilesIn|]; [|done].
  destruct (negb (isPageSizeValid _)); [done|].
  destruct (negb (isContinuationTokenValid _)); [done|].
  destruct (url.PathUnescape _) as [continuationToken|]; [|done].
  unfold bind. intros Hdata.
  match type of Hdata with
  | context [listFiles _ _ ?ps ?tok w] =>
      exists ps, continuationToken;
      destruct (listFiles _bucket (userId +:+ "/") ps tok w) as [[result|err] w']
  end.
  - exists result. simpl in *. injection Hdata as <-. done.
  - destruct (decide (err = ErrInvalidArgument)); done.
Qed.

(** C7. Every record of a successful listing answer has a title that ends
    in [.txt] or [.md]; the title is the key of an object of the store with
    the namespace prefix cut off, carrying that object's tag and date; and
    the title contains neither a path separator nor the namespace prefix. *)
Theorem handleGetFiles_records (_bucket : string) (bound : option getFilesDataIn)
    (userId : string) (w : World) (data : getFilesDataOut) (f : FileDataOut) :
  fst (handleGetFiles _bucket bound userId w) = Success data ->
  f ∈ gf_Files data ->
  let prefix := userId +:+ "/" in
  let title := fdo_FileName f in
  (HasSuffix title ".txt" = true \/ HasSuffix title ".md" = true)
  /\ (exists key o,
         store w !! (_bucket, key) = Some o
         /\ key = prefix +:+ title
         /\ CutPrefix key prefix = (title, true)
         /\ fdo_ETag f = ETag o /\ fdo_LastModified f = LastModified o)
  /\ Contains title "/" = false
  /\ Contains title prefix = false.
Proof.
  intros Hdata Hf prefix title.
  apply handleGetFiles_success in Hdata as (pageSize & token & result & Hlist & Hfiles & _).
  rewrite Hfiles, handleGetFiles_range_spec in Hf. simpl in Hf.
  apply list_elem_of_fmap in Hf as (file & -> & Hfile).
  apply list_elem_of_filter in Hfile as [Hvalid Hfile].
  subst title. simpl.
  unfold isFileNameValid in Hvalid.
  apply andb_true_iff in Hvalid as [Hvalid Hsep].
  apply andb_true_iff in Hvalid as [_ Hsuffix].
  apply negb_true_iff in Hsep.
  assert (Hsuf : HasSuffix (FileName file) ".txt" = true
                 \/ HasSuffix (FileName file) ".md" = true).
  { apply orb_true_iff in Hsuffix as [H|H]; apply andb_true_iff in H as [H _]; eauto. }
  split; [exact Hsuf|]. split; [|split; [exact Hsep|by apply Contains_separator]].
  rewrite listFiles_run in Hlist. fold prefix in Hlist.
  destruct (scheduled 0 w); [done|]. destruct (call_failure 1 w); [done|].
  destruct (store_list _ (store w)) as [output|err] eqn:Hstore; [|done].
  simpl in Hlist. injection Hlist as <-. simpl in Hfile.
  rewrite listFiles_range_spec in Hfile. simpl in Hfile.
  apply list_elem_of_fmap in Hfile as (obj & -> & Hobj).
  apply list_elem_of_filter in Hobj as [_ Hobj].
  destruct (store_list_page _ _ _ Hstore) as [_ Helem].
  destruct (Helem obj Hobj) as (o & Hlook & Hpre & Htag & Hdate). simpl in Hlook, Hpre.
  apply HasPrefix_spec in Hpre as [rest Hkey].
  exists (obj_Key obj), o. simpl. rewrite Hkey, CutPrefix_append. simpl.
  rewrite <- Hkey. done.
Qed.

(** The listing of the namespace [u/]: the note [a b.txt] comes out, the
    file of another type and the note of the subfolder do not. *)
Lemma handleGetFiles_records_witness :
  let answer := handleGetFiles "b" (Some {| PageSize := 0; ContinuationToken := EmptyString |})
                  "u" mixed_namespace in
  let f := {| fdo_FileName := "a b.txt"; fdo_LastModified := 0; fdo_ETag := "etag-hello" |} in
  exists data, fst answer = Success data
               /\ gf_Files data = [f]
               /\ Contains (fdo_FileName f) "u/" = false.
Proof.
  intros answer f.
  destruct answer as [res w'] eqn:Hrun. subst answer.
  assert (Hd : exists data, res = Success data /\ gf_Files data = [f]).
  { vm_compute in Hrun. injection Hrun as <- _. eexists. split; reflexivity. }
  destruct Hd as (data & -> & Hfiles). exists data.
  split; [reflexivity|]. split; [exact Hfiles|].
  assert (Hin : f ∈ gf_Files data) by (rewrite Hfiles; apply elem_of_cons; by left).
  pose proof (handleGetFiles_records "b"
                (Some {| PageSize := 0; ContinuationToken := EmptyString |}) "u"
                mixed_namespace data f) as H.
  rewrite Hrun in H. destruct (H eq_refl Hin) as (_ & _ & _ & Hc). exact Hc.
Defined.

(** [listFiles] on its own has no check for subfolders: the note of the
    subfolder is among its records; it is the handler that drops it. *)
Remark listFiles_keeps_subfolder_entries :
  exists r, fst (listFiles "b" "u/" 100 EmptyString mixed_namespace) = Ok r
            /\ "sub/z.md" ∈ (FileName <$> Files r).
Proof.
  destruct (listFiles "b" "u/" 100 EmptyString mixed_namespace) as [res w'] eqn:Hrun.
  vm_compute in Hrun. injection Hrun as <- _. eexists. split; [reflexivity|].
  simpl. set_solver.
Qed.

(** * Further properties of the code *)

(** ** [net/url]: escaping and unescaping *)

Section UrlFacts.
Import url.

Lemma escaped_byte_decodes (c : ascii) :
  ishex (upperhex (nat_of_ascii c / 16)) && ishex (upperhex (nat_of_ascii c mod 16)) = true
  /\ ascii_of_nat (unhex (upperhex (nat_of_ascii c / 16)) * 16
                   + unhex (upperhex (nat_of_ascii c mod 16))) = c.
Proof. destruct c as [[] [] [] [] [] [] [] []]; vm_compute; split; reflexivity. Qed.

Lemma plain_byte_kept (c : ascii) :
  shouldEscape_query c = false -> Ascii.eqb c "%" = false /\ Ascii.eqb c "+" = false.
Proof.
  destruct c as [[] [] [] [] [] [] [] []]; vm_compute; intros H;
    first [discriminate H | split; reflexivity].
Qed.

Lemma plain_byte_no_separator (c : ascii) :
  shouldEscape_query c = false -> Ascii.eqb c "/" = false /\ Ascii.eqb c " " = false.
Proof.
  destruct c as [[] [] [] [] [] [] [] []]; vm_compute; intros H;
    first [discriminate H | split; reflexivity].
Qed.

Lemma hex_digit_no_separator (n : nat) :
  Ascii.eqb (upperhex n) "/" = false /\ Ascii.eqb (upperhex n) " " = false.
Proof.
  do 16 (destruct n as [|n]; [vm_compute; split; reflexivity|]).
  vm_compute; split; reflexivity.
Qed.

(** One step of [unescape] on an escape sequence and on a plain byte. *)
Lemma unescape_percent (h l : ascii) (rest : string) (mode : encoding) :
  ishex h && ishex l = true ->
  unescape (String "%" (String h (String l rest))) mode
  = match unescape rest mode with
    | Some t => Some (String (ascii_of_nat (unhex h * 16 + unhex l)) t)
    | None => None
    end.
Proof. intros H. cbn [unescape]. change (Ascii.eqb "%" "%") with true. cbv iota. by rewrite H. Qed.

Lemma unescape_plain (c : ascii) (rest : string) (mode : encoding) :
  Ascii.eqb c "%" = false ->
  unescape (String c rest) mode
  = match unescape rest mode with
    | Some t =>
        Some (String (match mode with
                      | encodeQueryComponent => if Ascii.eqb c "+" then " "%char else c
                      | encodePathSegment => c
                      end) t)
    | None => None
    end.
Proof. intros H. cbn [unescape]. by rewrite H. Qed.

Lemma Contains_byte (c ch : ascii) (s : string) :
  Contains (String c s) (String ch EmptyString)
  = Ascii.eqb c ch || Contains s (String ch EmptyString).
Proof.
  cbn [Contains]. f_equal. unfold HasPrefix. cbn.
  destruct (Ascii.eqb c ch); reflexivity.
Qed.

End UrlFacts.

Section UrlRoundTrips.
Import url.

Lemma unescape_query_escape (s : string) :
  unescape (QueryEscape s) encodeQueryComponent = Some s.
Proof.
  induction s as [|c s IH]; [reflexivity|].
  cbn [QueryEscape]. destruct (Ascii.eqb_spec c " ") as [->|Hsp].
  - rewrite unescape_plain by reflexivity. rewrite IH. reflexivity.
  - destruct (shouldEscape_query c) eqn:Hesc.
    + destruct (escaped_byte_decodes c) as [Hhex Hc].
      rewrite unescape_percent by exact Hhex. rewrite IH, Hc. reflexivity.
    + destruct (plain_byte_kept c Hesc) as [Hpc Hplus].
      rewrite unescape_plain by exact Hpc. rewrite IH, Hplus. reflexivity.
Qed.

(** The strings, by the way [unescape] reads them: byte by byte, an escape
    sequence at a time, or stopping at a [%] that lacks its two digits. *)
Lemma unescape_cases (P : string -> Prop) :
  P EmptyString ->
  (forall c s, Ascii.eqb c "%" = false -> P s -> P (String c s)) ->
  P (String "%" EmptyString) ->
  (forall h, P (String "%" (String h EmptyString))) ->
  (forall h l s, P s -> P (String "%" (String h (String l s)))) ->
  forall s, P s.
Proof.
  intros Hnil Hplain Hone Htwo Hesc s.
  assert (H : forall n s, (String.length s <= n)%nat -> P s).
  { clear s. induction n as [|n IH]; intros [|c s] Hlen; simpl in Hlen; try done; try lia.
    destruct (Ascii.eqb_spec c "%") as [->|Hc].
    - destruct s as [|h [|l s]]; [done|done|].
      apply Hesc, IH. simpl in Hlen. lia.
    - apply Hplain; [by apply Ascii.eqb_neq|]. apply IH. lia. }
  by apply (H (String.length s)).
Qed.

(** Unescaping goes through a concatenation. *)
Lemma unescape_app (a b ta tb : string) (mode : encoding) :
  unescape a mode = Some ta -> unescape b mode = Some tb ->
  unescape (a +:+ b) mode = Some (ta +:+ tb).
Proof.
  intros Ha Hb. revert ta Ha.
  induction a as [|c a Hc IH| |h|h l a IH] using unescape_cases; intros ta Ha.
  - injection Ha as <-. exact Hb.
  - rewrite append_cons. rewrite unescape_plain in Ha |- * by exact Hc.
    destruct (unescape a mode) as [t|]; [|done].
    injection Ha as <-. by rewrite (IH t eq_refl).
  - discriminate Ha.
  - discriminate Ha.
  - rewrite !append_cons. destruct (ishex h && ishex l) eqn:Hhex.
    + rewrite unescape_percent in Ha |- * by exact Hhex.
      destruct (unescape a mode) as [t|]; [|done].
      injection Ha as <-. by rewrite (IH t eq_refl).
    + cbn [unescape] in Ha. change (Ascii.eqb "%" "%") with true in Ha.
      cbv iota in Ha. by rewrite Hhex in Ha.
Qed.

(** Before a byte that is no hex digit, what unescapes as a whole
    unescapes in its two parts. *)
Lemma unescape_app_inv (d : ascii) (b a t : string) (mode : encoding) :
  ishex d = false ->
  unescape (a +:+ String d b) mode = Some t ->
  exists ta tb, unescape a mode = Some ta /\ unescape (String d b) mode = Some tb
                /\ t = ta +:+ tb.
Proof.
  intros Hd. revert t.
  induction a as [|c a Hc IH| |h|h l a IH] using unescape_cases; intros t Ht.
  - exists EmptyString, t. done.
  - rewrite append_cons in Ht. rewrite unescape_plain in Ht |- * by exact Hc.
    destruct (unescape (a +:+ String d b) mode) as [t'|] eqn:Ht'; [|done].
    destruct (IH t' eq_refl) as (ta & tb & -> & Hb & ->).
    injection Ht as <-. eexists _, tb. split; [reflexivity|]. split; [exact Hb|].
    by rewrite append_cons.
  - exfalso. change (String "%" EmptyString +:+ String d b) with (String "%" (String d b)) in Ht.
    cbn [unescape] in Ht. change (Ascii.eqb "%" "%") with true in Ht. cbv iota in Ht.
    destruct b as [|l b]; [done|]. by rewrite Hd in Ht.
  - exfalso.
    change (String "%" (String h EmptyString) +:+ String d b)
      with (String "%" (String h (String d b))) in Ht.
    cbn [unescape] in Ht. change (Ascii.eqb "%" "%") with true in Ht. cbv iota in Ht.
    rewrite Hd, andb_false_r in Ht. done.
  - rewrite !append_cons in Ht. destruct (ishex h && ishex l) eqn:Hhex.
    + rewrite unescape_percent in Ht |- * by exact Hhex.
      destruct (unescape (a +:+ String d b) mode) as [t'|] eqn:Ht'; [|done].
      destruct (IH t' eq_refl) as (ta & tb & -> & Hb & ->).
      injection Ht as <-. eexists _, tb. split; [reflexivity|]. split; [exact Hb|].
      by rewrite append_cons.
    + cbn [unescape] in Ht. change (Ascii.eqb "%" "%") with true in Ht.
      cbv iota in Ht. by rewrite Hhex in Ht.
Qed.

(** Unescaping never lengthens, and without a [%] it changes nothing in a
    path segment. *)
Lemma unescape_length (s t : string) (mode : encoding) :
  unescape s mode = Some t -> (String.length t <= String.length s)%nat.
Proof.
  revert t. induction s as [|c s Hc IH| |h|h l s IH] using unescape_cases; intros t Ht.
  - by injection Ht as <-.
  - rewrite unescape_plain in Ht by exact Hc.
    destruct (unescape s mode) as [t'|]; [|done]. injection Ht as <-.
    simpl. specialize (IH t' eq_refl). lia.
  - discriminate Ht.
  - discriminate Ht.
  - destruct (ishex h && ishex l) eqn:Hhex.
    + rewrite unescape_percent in Ht by exact Hhex.
      destruct (unescape s mode) as [t'|]; [|done]. injection Ht as <-.
      simpl. specialize (IH t' eq_refl). lia.
    + cbn [unescape] in Ht. change (Ascii.eqb "%" "%") with true in Ht.
      cbv iota in Ht. by rewrite Hhex in Ht.
Qed.

Lemma unescape_nonempty (s t : string) (mode : encoding) :
  unescape s mode = Some t -> s <> EmptyString -> t <> EmptyString.
Proof.
  destruct s as [|c s]; [done|]. intros Ht _ ->.
  cbn [unescape] in Ht. destruct (Ascii.eqb c "%").
  - destruct s as [|h [|l s]]; try done.
    destruct (ishex h && ishex l); [|done]. by destruct (unescape s mode).
  - by destruct (unescape s mode).
Qed.

Lemma PathUnescape_without_percent (s : string) :
  Contains s "%" = false -> PathUnescape s = Some s.
Proof.
  unfold PathUnescape. induction s as [|c s IH]; [done|].
  rewrite Contains_byte. intros [Hc Hs]%orb_false_iff.
  rewrite unescape_plain by exact Hc. by rewrite (IH Hs).
Qed.

(** X1. Query-unescaping undoes query-escaping: whatever the file name,
    decoding the escaped name [renameFile] puts in the copy source gives the
    name back. *)
Theorem QueryUnescape_QueryEscape (s : string) :
  QueryUnescape (QueryEscape s) = Some s.
Proof.
  unfold QueryUnescape. induction s as [|c s IH]; [reflexivity|].
  cbn [QueryEscape]. destruct (Ascii.eqb_spec c " ") as [->|Hsp].
  - rewrite unescape_plain by reflexivity. by rewrite IH.
  - destruct (shouldEscape_query c) eqn:Hesc.
    + destruct (escaped_byte_decodes c) as [Hhex Hc].
      rewrite unescape_percent by exact Hhex. by rewrite IH, Hc.
    + destruct (plain_byte_kept c Hesc) as [Hpc Hplus].
      rewrite unescape_plain by exact Hpc. by rewrite IH, Hplus.
Qed.

(** X2. Path-unescaping, which the listing handler applies to the cursor it
    receives, undoes the query-escaping it applies to the cursor it returns
    exactly for the strings without a space. *)
Theorem PathUnescape_QueryEscape (s : string) :
  PathUnescape (QueryEscape s) = Some s <-> Contains s " " = false.
Proof.
  unfold PathUnescape. induction s as [|c s IH]; [done|].
  rewrite Contains_byte. cbn [QueryEscape].
  destruct (Ascii.eqb_spec c " ") as [->|Hsp].
  - rewrite unescape_plain by reflexivity.
    split; [|done]. destruct (unescape _ _); intros [=].
  - cbn [orb].
    assert (Hstep : unescape (if shouldEscape_query c
                              then String "%" (String (upperhex (nat_of_ascii c / 16))
                                     (String (upperhex (nat_of_ascii c mod 16))
                                        (QueryEscape s)))
                              else String c (QueryEscape s)) encodePathSegment
                    = match unescape (QueryEscape s) encodePathSegment with
                      | Some t => Some (String c t)
                      | None => None
                      end).
    { destruct (shouldEscape_query c) eqn:Hesc.
      - destruct (escaped_byte_decodes c) as [Hhex Hc].
        rewrite unescape_percent by exact Hhex. by rewrite Hc.
      - destruct (plain_byte_kept c Hesc) as [Hpc _].
        by rewrite unescape_plain by exact Hpc. }
    rewrite Hstep. rewrite <- IH.
    destruct (unescape (QueryEscape s) encodePathSegment) as [t|]; [|done].
    split; congruence.
Qed.

Lemma QueryEscape_separators (s : string) :
  Contains (QueryEscape s) "/" = false /\ Contains (QueryEscape s) " " = false.
Proof.
  induction s as [|c s [IHs IHp]]; [done|].
  cbn [QueryEscape]. destruct (Ascii.eqb c " ").
  - rewrite !Contains_byte, IHs, IHp. done.
  - destruct (shouldEscape_query c) eqn:Hesc.
    + destruct (hex_digit_no_separator (nat_of_ascii c / 16)) as [H1 H2].
      destruct (hex_digit_no_separator (nat_of_ascii c mod 16)) as [H3 H4].
      rewrite !Contains_byte, H1, H2, H3, H4, IHs, IHp. done.
    + destruct (plain_byte_no_separator c Hesc) as [H1 H2].
      rewrite !Contains_byte, H1, H2, IHs, IHp. done.
Qed.

(** X3. An escaped string holds no path separator and no space: in the copy
    source of a rename, the file name adds no slash to those of the bucket,
    the separator and the prefix. *)
Theorem QueryEscape_no_separator (s : string) :
  Contains (QueryEscape s) "/" = false /\ Contains (QueryEscape s) " " = false.
Proof.
  induction s as [|c s [IHs IHp]]; [done|].
  cbn [QueryEscape]. destruct (Ascii.eqb c " ").
  - by rewrite !Contains_byte, IHs, IHp.
  - destruct (shouldEscape_query c) eqn:Hesc.
    + destruct (hex_digit_no_separator (nat_of_ascii c / 16)) as [H1 H2].
      destruct (hex_digit_no_separator (nat_of_ascii c mod 16)) as [H3 H4].
      by rewrite !Contains_byte, H1, H2, H3, H4, IHs, IHp.
    + destruct (plain_byte_no_separator c Hesc) as [H1 H2].
      by rewrite !Contains_byte, H1, H2, IHs, IHp.
Qed.

End UrlRoundTrips.

(** A cursor with a [+], as the store's base64 cursors have, survives the
    escaping of the answer and the unescaping of the next request. *)
Lemma PathUnescape_QueryEscape_witness :
  Contains "1NbUx+I1w/spH=" " " = false
  /\ url.PathUnescape (url.QueryEscape "1NbUx+I1w/spH=") = Some "1NbUx+I1w/spH=".
Proof.
  split; [reflexivity|].
  apply (proj2 (PathUnescape_QueryEscape "1NbUx+I1w/spH=")). reflexivity.
Defined.

(** ** File names: validation and decoding *)

Section FileNames.
Import url.

Lemma Contains_byte_app (a b : string) (ch : ascii) :
  Contains (a +:+ b) (String ch EmptyString)
  = Contains a (String ch EmptyString) || Contains b (String ch EmptyString).
Proof.
  induction a as [|c a IH].
  - change (EmptyString +:+ b) with b. by destruct (Contains b _).
  - rewrite append_cons, !Contains_byte, IH. by rewrite orb_assoc.
Qed.

Lemma split_bucket_append (b k : string) :
  Contains b "/" = false -> split_bucket (b +:+ String "/" k) = (b, k).
Proof.
  induction b as [|c b IH]; [reflexivity|].
  rewrite Contains_byte. intros [Hc Hb]%orb_false_iff.
  rewrite append_cons. cbn [split_bucket]. rewrite Hc, (IH Hb). reflexivity.
Qed.

Lemma unescape_path_escape (s : string) :
  Contains s " " = false -> unescape (QueryEscape s) encodePathSegment = Some s.
Proof.
  induction s as [|c s IH]; [done|].
  rewrite Contains_byte. intros [Hsp Hs]%orb_false_iff.
  cbn [QueryEscape]. rewrite Hsp. destruct (shouldEscape_query c) eqn:Hesc.
  - destruct (escaped_byte_decodes c) as [Hhex Hc].
    rewrite unescape_percent by exact Hhex. by rewrite (IH Hs), Hc.
  - destruct (plain_byte_kept c Hesc) as [Hpc _].
    rewrite unescape_plain by exact Hpc. by rewrite (IH Hs).
Qed.

Lemma QueryEscape_nonempty (s : string) : s <> EmptyString -> QueryEscape s <> EmptyString.
Proof.
  destruct s as [|c s]; [done|]. intros _. cbn [QueryEscape].
  destruct (Ascii.eqb c " "); [done|]. by destruct (shouldEscape_query c).
Qed.

(** The name a valid request name decodes to: a non-empty stem before the
    same suffix. *)
Lemma decoded_valid_name (raw name : string) :
  isFileNameValid raw = true -> PathUnescape raw = Some name ->
  exists stem suffix,
    (suffix = ".txt" \/ suffix = ".md")
    /\ name = stem +:+ suffix /\ stem <> EmptyString
    /\ HasSuffix raw suffix = true
    /\ (String.length name <= 200)%nat.
Proof.
  unfold isFileNameValid, PathUnescape. intros Hvalid Hname.
  apply andb_true_iff in Hvalid as [Hvalid _].
  apply andb_true_iff in Hvalid as [Hlen Hsuffix]. apply Nat.leb_le in Hlen.
  assert (Hshort : (String.length name <= 200)%nat).
  { pose proof (unescape_length _ _ _ Hname). lia. }
  assert (Hcase : forall suffix rest,
    suffix = String "." rest -> unescape suffix encodePathSegment = Some suffix ->
    HasSuffix raw suffix = true -> (String.length suffix < String.length raw)%nat ->
    exists stem, name = stem +:+ suffix /\ stem <> EmptyString).
  { intros suffix rest -> Hplain [r Hraw]%HasSuffix_spec Hlong. subst raw.
    apply unescape_app_inv in Hname as (ta & tb & Ha & Hb & ->); [|reflexivity].
    rewrite Hplain in Hb. injection Hb as <-. exists ta. split; [done|].
    apply (unescape_nonempty _ _ _ Ha). intros ->. simpl in Hlong. lia. }
  apply orb_true_iff in Hsuffix as [H|H]; apply andb_true_iff in H as [Hs Hl];
    apply Nat.ltb_lt in Hl.
  - destruct (Hcase ".txt" "txt" eq_refl eq_refl Hs Hl) as (stem & -> & Hne).
    exists stem, ".txt". eauto 10.
  - destruct (Hcase ".md" "md" eq_refl eq_refl Hs Hl) as (stem & -> & Hne).
    exists stem, ".md". eauto 10.
Qed.

(** X4. In a store that reads a copy source as [bucket/key] with the key
    URL-encoded, the source of a rename's copy is the very object the rename
    deletes afterwards, for a bucket name without a slash and a prefix that
    decoding leaves as it is. *)
Theorem decoded_copy_source_is_deleted_key (bucket prefix fileName newFileName : string) :
  Contains bucket "/" = false ->
  QueryUnescape prefix = Some prefix ->
  @parse_copy_source demo_params (co_CopySource (copyInput bucket prefix fileName newFileName))
  = Some (do_Bucket (deleteInput bucket prefix fileName),
          do_Key (deleteInput bucket prefix fileName)).
Proof.
  intros Hb Hp. simpl.
  change ("/" +:+ prefix +:+ QueryEscape fileName)
    with (String "/" (prefix +:+ QueryEscape fileName)).
  rewrite (split_bucket_append _ _ Hb).
  unfold QueryUnescape in *.
  by rewrite (unescape_app _ _ _ _ _ Hp (unescape_query_escape fileName)).
Qed.

(** X5. A request name that passes [isFileNameValid] and decodes, decodes to
    a name of a supported file type with the same suffix, a non-empty stem
    and at most 200 bytes: what the handlers hand to the adapter is never
    dropped by [listFiles] for its type. *)
Theorem decoded_name_keeps_type (raw name : string) :
  isFileNameValid raw = true ->
  PathUnescape raw = Some name ->
  isSupportedFileType name = true
  /\ (HasSuffix raw ".txt" = true -> HasSuffix name ".txt" = true)
  /\ (HasSuffix raw ".md" = true -> HasSuffix name ".md" = true)
  /\ (exists stem suffix, name = stem +:+ suffix /\ stem <> EmptyString
                          /\ (suffix = ".txt" \/ suffix = ".md"))
  /\ (String.length name <= 200)%nat.
Proof.
  intros Hvalid Hname.
  assert (Hkeep : forall suffix, (suffix = ".txt" \/ suffix = ".md") ->
            HasSuffix raw suffix = true -> HasSuffix name suffix = true).
  { intros suffix Hsuf [r ->]%HasSuffix_spec.
    unfold PathUnescape in Hname.
    assert (Hinv : exists ta, name = ta +:+ suffix).
    { destruct Hsuf as [-> | ->];
        apply unescape_app_inv in Hname as (ta & tb & _ & Hb & ->); try reflexivity;
        injection Hb as <-; by exists ta. }
    destruct Hinv as [ta ->]. apply HasSuffix_spec. by exists ta. }
  destruct (decoded_valid_name raw name Hvalid Hname)
    as (stem & suffix & Hsuf & -> & Hne & Hraw & Hlen).
  split; [|split; [|split; [|split]]].
  - unfold isSupportedFileType. apply orb_true_iff.
    destruct Hsuf as [-> | ->]; [left|right]; apply HasSuffix_spec; by exists stem.
  - apply Hkeep. by left.
  - apply Hkeep. by right.
  - exists stem, suffix. done.
  - exact Hlen.
Qed.

(** X6. The file-name check sees the name before it is decoded: for every
    non-empty stem without a space whose escaped form has at most 196
    bytes, the request name [QueryEscape(stem) + ".txt"] is valid and decodes
    to [stem + ".txt"], also when the stem holds a path separator. *)
Theorem escaped_name_is_valid (stem : string) :
  stem <> EmptyString ->
  Contains stem " " = false ->
  (String.length (QueryEscape stem) <= 196)%nat ->
  isFileNameValid (QueryEscape stem +:+ ".txt") = true
  /\ PathUnescape (QueryEscape stem +:+ ".txt") = Some (stem +:+ ".txt").
Proof.
  intros Hne Hsp Hlen. split.
  - unfold isFileNameValid. rewrite append_length. simpl String.length.
    assert (Hpos : (0 < String.length (QueryEscape stem))%nat).
    { pose proof (QueryEscape_nonempty stem Hne). destruct (QueryEscape stem); [done|simpl; lia]. }
    rewrite (proj2 (Nat.leb_le _ _)) by lia.
    rewrite (proj2 (HasSuffix_spec _ ".txt")) by eauto.
    rewrite (proj2 (Nat.ltb_lt _ _)) by lia.
    rewrite Contains_byte_app, (proj1 (QueryEscape_separators stem)). reflexivity.
  - unfold PathUnescape. by apply unescape_app; [apply unescape_path_escape|].
Qed.

End FileNames.

(** A request name with an encoded path separator: valid, and decoded to a
    name with the separator. *)
Lemma decoded_name_keeps_type_witness :
  isFileNameValid "a%2Fb.txt" = true
  /\ url.PathUnescape "a%2Fb.txt" = Some "a/b.txt"
  /\ isSupportedFileType "a/b.txt" = true.
Proof.
  assert (Hv : isFileNameValid "a%2Fb.txt" = true) by reflexivity.
  assert (Hd : url.PathUnescape "a%2Fb.txt" = Some "a/b.txt") by reflexivity.
  split; [exact Hv|]. split; [exact Hd|].
  exact (proj1 (decoded_name_keeps_type "a%2Fb.txt" "a/b.txt" Hv Hd)).
Defined.

Lemma escaped_name_is_valid_witness :
  "a/b" <> EmptyString
  /\ Contains "a/b" " " = false
  /\ isFileNameValid (url.QueryEscape "a/b" +:+ ".txt") = true
  /\ url.PathUnescape (url.QueryEscape "a/b" +:+ ".txt") = Some ("a/b" +:+ ".txt").
Proof.
  assert (Hne : "a/b" <> EmptyString) by discriminate.
  assert (Hsp : Contains "a/b" " " = false) by reflexivity.
  split; [exact Hne|]. split; [exact Hsp|].
  apply (escaped_name_is_valid "a/b" Hne Hsp). vm_compute. lia.
Defined.

(** The note [a b.txt] of bucket [b] under the prefix [u/]: the copy is
    taken from [b/u/a+b.txt], which names the object [u/a b.txt]. *)
Lemma decoded_copy_source_is_deleted_key_witness :
  Contains "b" "/" = false
  /\ url.QueryUnescape "u/" = Some "u/"
  /\ @parse_copy_source demo_params "b/u/a+b.txt" = Some ("b", "u/a b.txt").
Proof.
  assert (Hb : Contains "b" "/" = false) by reflexivity.
  assert (Hp : url.QueryUnescape "u/" = Some "u/") by reflexivity.
  split; [exact Hb|]. split; [exact Hp|].
  exact (decoded_copy_source_is_deleted_key "b" "u/" "a b.txt" "c.txt" Hb Hp).
Defined.

(** ** The adapter: what its operations return and touch, whatever fails *)

Lemma deleteFile_quiet (bucket prefix fileName : string) (w : World) :
  quiet 2 w ->
  deleteFile bucket prefix fileName w
  = (None, Build_World (delete (bucket, prefix +:+ fileName) (store w)) (drop 2 (faults w))
                       (trace w ++ [DeleteObjectReq (deleteInput bucket prefix fileName)])
                       (now w)).
Proof.
  intros Hq. rewrite deleteFile_run.
  rewrite (quiet_scheduled 2 0 w Hq) by lia.
  destruct (call_quiet 1 2 w Hq) as [-> ->]; [lia|]. reflexivity.
Qed.

Lemma getFileContent_cases (bucket prefix fileName etag : string) (w : World) :
  let run := getFileContent bucket prefix fileName etag w in
  store (snd run) = store w
  /\ ((exists r, fst run = Ok r)
      \/ fst run = Error ErrNotFound \/ fst run = Error ErrNotModified
      \/ fst run = Error ErrServiceUnavailable).
Proof.
  unfold getFileContent, bind, LoadDefaultConfig, GetObject, ReadAll.
  rewrite next_fault_run.
  assert (Hclass : forall (err : SdkError) (w' : World),
    let out := match err with
               | APIError code =>
                   if String.eqb code "NoSuchKey"
                   then ret (Error (logAndReturnError err ErrNotFound))
                   else if String.eqb code "NotModified"
                   then ret (Error (logAndReturnError err ErrNotModified))
                   else ret (Error (logAndReturnError err ErrServiceUnavailable))
               | OtherError => ret (Error (logAndReturnError err ErrServiceUnavailable))
               end w' in
    store (snd out) = store w'
    /\ ((exists r : GetFileContentResult, fst out = Ok r)
        \/ fst out = Error ErrNotFound \/ fst out = Error ErrNotModified
        \/ fst out = Error ErrServiceUnavailable)).
  { intros [code|] w'; simpl; [|by eauto 10].
    destruct (String.eqb code "NoSuchKey"); [by eauto 10|].
    destruct (String.eqb code "NotModified"); by eauto 10. }
  destruct (match faults w with f :: _ => f | [] => None end) as [e0|]; [cbn; by eauto 10|].
  rewrite exchange_run. cbn zeta.
  destruct (call_failure 0 _) as [err|];
    [lazymatch goal with |- store (snd (?f ?w')) = _ /\ _ => exact (Hclass err w') end|].
  cbn [store]. destruct (store_get _ (store w)) as [out|err];
    [|lazymatch goal with |- store (snd (?f ?w')) = _ /\ _ => exact (Hclass err w') end].
  unfold bind. rewrite next_fault_run. cbn [faults].
  destruct (match drop _ _ with f :: _ => f | [] => None end); cbn; by eauto 10.
Qed.

Section AdapterInvariants.
Context `{SP : StoreParams}.

Lemma saveFileContent_overwrite_refused (bucket prefix fileName content : string) (w : World) :
  fst (saveFileContent bucket prefix fileName content true w) = Error ErrAlreadyExists ->
  Some (APIError "PreconditionFailed") ∈ faults w.
Proof.
  unfold saveFileContent, bind, LoadDefaultConfig, PutObject.
  rewrite next_fault_run.
  destruct (match faults w with f :: _ => f | [] => None end) as [e0|]; [discriminate|].
  rewrite exchange_run. cbn zeta.
  destruct (call_failure 0 _) as [err|] eqn:Hf; [|unfold store_put; cbn; discriminate].
  apply call_failure_elem in Hf. cbn [faults] in Hf.
  destruct err as [code|]; [|discriminate].
  destruct (String.eqb_spec code "PreconditionFailed") as [->|]; [|discriminate].
  intros _. eapply elem_of_sublist; [exact Hf|apply (sublist_drop _ 1)].
Qed.

(** X7. No operation of the adapter changes an object outside its
    namespace: whatever fails and whatever the store holds, listing and
    reading leave the store as it is, and after a write, a delete or a
    rename every object whose bucket is another or whose key does not start
    with the prefix is as before. *)
Theorem adapter_stays_in_namespace (bucket prefix : string) (w : World) :
  (forall pageSize token,
      store (snd (listFiles bucket prefix pageSize token w)) = store w)
  /\ (forall fileName etag,
        store (snd (getFileContent bucket prefix fileName etag w)) = store w)
  /\ (forall bucket' key,
        bucket' <> bucket \/ HasPrefix key prefix = false ->
        (forall fileName content overwrite,
            store (snd (saveFileContent bucket prefix fileName content overwrite w))
              !! (bucket', key) = store w !! (bucket', key))
        /\ (forall fileName,
              store (snd (deleteFile bucket prefix fileName w)) !! (bucket', key)
              = store w !! (bucket', key))
        /\ (forall fileName newFileName,
              store (snd (renameFile bucket prefix fileName newFileName w)) !! (bucket', key)
              = store w !! (bucket', key))).
Proof.
  split; [|split].
  - intros pageSize token. rewrite listFiles_run.
    destruct (scheduled 0 w); [done|]. destruct (call_failure 1 w); [done|].
    by destruct (store_list _ (store w)).
  - intros fileName etag. apply getFileContent_cases.
  - intros bucket' key Hout.
    assert (Hne : forall name, (bucket, prefix +:+ name) <> (bucket', key)).
    { intros name [= <- <-]. destruct Hout as [?|Hp]; [done|].
      rewrite (proj2 (HasPrefix_spec (prefix +:+ name) prefix)) in Hp by eauto. done. }
    split; [|split].
    + intros fileName content overwrite.
      pose proof (saveFileContent_cases bucket prefix fileName content overwrite w) as H.
      simpl in H. destruct H as [(e & _ & _ & _ & -> & _)|(_ & -> & _)]; [done|].
      by rewrite lookup_insert_ne.
    + intros fileName. rewrite deleteFile_run.
      destruct (scheduled 0 w); [done|]. destruct (call_failure 1 w); [done|].
      simpl. by rewrite lookup_delete_ne.
    + intros fileName newFileName.
      pose proof (renameFile_cases bucket prefix fileName newFileName w) as H.
      simpl in H. unfold reserved in H.
      destruct H as [(_ & -> & _)|[(e & _ & _ & -> & _)|[(e & _ & _ & -> & _)
                    |[(src & o & _ & _ & _ & -> & _)|(src & o & _ & _ & _ & -> & _)]]]];
        rewrite ?lookup_delete_ne, ?lookup_insert_ne by done; done.
Qed.

(** X8. The errors of the adapter form a closed set per operation, whatever
    the store or the transport does: listing fails only with
    [ErrInvalidArgument] or [ErrServiceUnavailable], reading only with
    [ErrNotFound], [ErrNotModified] or [ErrServiceUnavailable], writing only
    with [ErrAlreadyExists] or [ErrServiceUnavailable], an overwriting write
    with [ErrAlreadyExists] only if the store reports a failed precondition
    it was not asked for, renaming only with [ErrAlreadyExists],
    [ErrNotFound] or [ErrServiceUnavailable], and deleting only with
    [ErrServiceUnavailable]. *)
Theorem adapter_error_taxonomy (bucket prefix : string) (w : World) :
  (forall pageSize token e,
      fst (listFiles bucket prefix pageSize token w) = Error e ->
      e = ErrInvalidArgument \/ e = ErrServiceUnavailable)
  /\ (forall fileName etag e,
        fst (getFileContent bucket prefix fileName etag w) = Error e ->
        e = ErrNotFound \/ e = ErrNotModified \/ e = ErrServiceUnavailable)
  /\ (forall fileName content overwrite e,
        fst (saveFileContent bucket prefix fileName content overwrite w) = Error e ->
        (e = ErrAlreadyExists \/ e = ErrServiceUnavailable)
        /\ (e = ErrAlreadyExists -> overwrite = true ->
            Some (APIError "PreconditionFailed") ∈ faults w))
  /\ (forall fileName newFileName e,
        fst (renameFile bucket prefix fileName newFileName w) = Error e ->
        e = ErrAlreadyExists \/ e = ErrNotFound \/ e = ErrServiceUnavailable)
  /\ (forall fileName e,
        fst (deleteFile bucket prefix fileName w) = Some e -> e = ErrServiceUnavailable).
Proof.
  split; [|split; [|split; [|split]]].
  - intros pageSize token e. rewrite listFiles_run.
    destruct (scheduled 0 w); [intros [= <-]; by right|].
    destruct (call_failure 1 w) as [err|];
      [|destruct (store_list _ (store w)) as [out|err]; [done|]];
      simpl; intros [= <-]; case_decide; eauto.
  - intros fileName etag e He.
    destruct (getFileContent_cases bucket prefix fileName etag w) as [_ H].
    simpl in H. rewrite He in H.
    destruct H as [[r [=]]|[[= ->]|[[= ->]|[= ->]]]]; eauto.
  - intros fileName content overwrite e He.
    pose proof (saveFileContent_cases bucket prefix fileName content overwrite w) as H.
    simpl in H. rewrite He in H.
    destruct H as [(e' & [= <-] & Hset & Hae & _)|([=] & _)].
    split; [exact Hset|]. intros -> ->.
    by apply (saveFileContent_overwrite_refused bucket prefix fileName content).
  - intros fileName newFileName e He.
    pose proof (renameFile_cases bucket prefix fileName newFileName w) as H.
    simpl in H. rewrite He in H.
    destruct H as [([= ->] & _)|[(e' & [= <-] & Hset & _)|[(e' & [= <-] & Hset & _)
                  |[(src & o & _ & _ & [= ->] & _)|(src & o & _ & _ & [=] & _)]]]];
      destruct_or?; eauto.
  - intros fileName e. rewrite deleteFile_run.
    destruct (scheduled 0 w); [by intros [= <-]|].
    destruct (call_failure 1 w) as [err|]; [|done].
    simpl. case_decide; [done|by intros [= <-]].
Qed.

End AdapterInvariants.

(** ** The adapter: how its operations compose *)

Lemma quiet_after (n k m : nat) (w w' : World) :
  quiet n w -> faults w' = drop k (faults w) -> (k + m <= n)%nat -> quiet m w'.
Proof.
  intros Hq Hf Hle. unfold quiet. rewrite Hf.
  apply (quiet_drop k m w (store w) (trace w) (now w)).
  by apply (quiet_le n).
Qed.

Ltac quiet_from Hq :=
  first
    [ exact Hq
    | solve [eapply quiet_le; [|exact Hq]; lia]
    | eapply (quiet_after _ _ _ _ _ Hq);
      [cbn [faults]; rewrite ?drop_drop; reflexivity | simpl; lia]
    | solve [eapply quiet_after;
               [exact Hq | cbn [faults]; rewrite ?drop_drop; reflexivity | simpl; lia]] ].

(** Rewriting a run of an operation that meets no failure. *)
Ltac run_save Hq :=
  match goal with
  | |- context [saveFileContent ?b ?p ?f ?c ?o ?w'] =>
      let H := fresh in
      assert (H : quiet 2 w') by quiet_from Hq;
      rewrite (saveFileContent_quiet b p f c o w' H); clear H
  end.

Ltac run_get Hq :=
  match goal with
  | |- context [getFileContent ?b ?p ?f ?e ?w'] =>
      let H := fresh in
      assert (H : quiet 3 w') by quiet_from Hq;
      rewrite (getFileContent_quiet b p f e w' H); clear H
  end.

Ltac run_rename Hq Hfree :=
  match goal with
  | |- context [renameFile ?b ?p ?f ?n ?w'] =>
      let H := fresh in
      assert (H : quiet 4 w') by quiet_from Hq;
      rewrite (renameFile_quiet b p f n w' H Hfree); clear H
  end.

Section AdapterCompositions.
Context `{SP : StoreParams}.

(** X9. A write that goes through can be read back: after a successful
    write (overwriting, or create-only on a free name), a read with no tag
    returns the content written and the tag the write returned, and a read
    with that tag answers [ErrNotModified]. *)
Theorem read_your_write (bucket prefix fileName content : string) (overwrite : bool)
    (w : World) :
  quiet 5 w ->
  overwrite = true \/ store w !! (bucket, prefix +:+ fileName) = None ->
  let saved := saveFileContent bucket prefix fileName content overwrite w in
  exists tag,
    fst saved = Ok {| sfc_ETag := tag |}
    /\ fst (getFileContent bucket prefix fileName EmptyString (snd saved))
       = Ok {| Content := content; gfc_ETag := tag |}
    /\ (tag <> EmptyString ->
        fst (getFileContent bucket prefix fileName tag (snd saved)) = Error ErrNotModified).
Proof.
  intros Hq Hok saved. subst saved. exists (etag_of content).
  run_save Hq.
  rewrite bool_decide_eq_false_2
    by (intros [-> [? ?]]; destruct Hok; congruence).
  simpl. split; [done|].
  do 2 run_get Hq.
  simpl. rewrite lookup_insert_eq. simpl. split; [done|].
  intros Hne. apply String.eqb_neq in Hne. by rewrite Hne, String.eqb_refl.
Qed.

(** X10. Of two create-only writes under one name, the first to go through
    wins: the second is refused with [ErrAlreadyExists] and the content of
    the first is what a read returns afterwards. *)
Theorem create_only_first_wins (bucket prefix fileName first second : string) (w : World) :
  quiet 7 w ->
  store w !! (bucket, prefix +:+ fileName) = None ->
  let w1 := saveFileContent bucket prefix fileName first false w in
  let w2 := saveFileContent bucket prefix fileName second false (snd w1) in
  fst w1 = Ok {| sfc_ETag := etag_of first |}
  /\ fst w2 = Error ErrAlreadyExists
  /\ fst (getFileContent bucket prefix fileName EmptyString (snd w2))
     = Ok {| Content := first; gfc_ETag := etag_of first |}.
Proof.
  intros Hq Hfree w1 w2. subst w1 w2.
  assert (Hq2 : quiet 2 w) by quiet_from Hq.
  rewrite (saveFileContent_quiet bucket prefix fileName first false w Hq2).
  rewrite bool_decide_eq_false_2 by (intros [_ [? ?]]; congruence).
  simpl. split; [done|].
  run_save Hq.
  rewrite bool_decide_eq_true_2 by (simpl; rewrite lookup_insert_eq; eauto).
  simpl. split; [done|].
  run_get Hq.
  simpl. by rewrite lookup_insert_eq.
Qed.

(** X11. Deleting is idempotent and final: a delete succeeds whatever is at
    the key, a second delete succeeds too and changes nothing more, a read
    after the delete answers [ErrNotFound], and the name is free again for a
    create-only write. *)
Theorem delete_is_idempotent (bucket prefix fileName content : string) (w : World) :
  quiet 5 w ->
  let d1 := deleteFile bucket prefix fileName w in
  let d2 := deleteFile bucket prefix fileName (snd d1) in
  fst d1 = None /\ fst d2 = None
  /\ store (snd d2) = store (snd d1)
  /\ (forall etag,
        fst (getFileContent bucket prefix fileName etag (snd d1)) = Error ErrNotFound)
  /\ fst (saveFileContent bucket prefix fileName content false (snd d1))
     = Ok {| sfc_ETag := etag_of content |}.
Proof.
  intros Hq d1 d2. subst d1 d2.
  rewrite (deleteFile_quiet bucket prefix fileName w) by quiet_from Hq.
  simpl. split; [done|].
  rewrite deleteFile_quiet by quiet_from Hq. simpl.
  split; [done|]. split; [by rewrite delete_delete_eq|]. split.
  - intros etag. run_get Hq.
    simpl. by rewrite lookup_delete_eq.
  - run_save Hq.
    rewrite bool_decide_eq_false_2; [done|].
    simpl. rewrite lookup_delete_eq. by intros [_ [? ?]].
Qed.

(** X12. A rename that succeeds moves the note: when the store reads the
    copy source as the key the rename deletes, the source exists and the
    target name is free, the rename returns the tag of the content, a read
    of the new name returns the content of the source with that tag, and a
    read of the old name answers [ErrNotFound]. *)
Theorem rename_moves_the_note (bucket prefix fileName newFileName : string)
    (o : StoredObject) (w : World) :
  quiet 8 w ->
  parse_copy_source (bucket +:+ "/" +:+ prefix +:+ url.QueryEscape fileName)
    = Some (bucket, prefix +:+ fileName) ->
  store w !! (bucket, prefix +:+ fileName) = Some o ->
  store w !! (bucket, prefix +:+ newFileName) = None ->
  let renamed := renameFile bucket prefix fileName newFileName w in
  fst renamed = Ok {| rf_ETag := etag_of (Body o) |}
  /\ fst (getFileContent bucket prefix newFileName EmptyString (snd renamed))
     = Ok {| Content := Body o; gfc_ETag := etag_of (Body o) |}
  /\ fst (getFileContent bucket prefix fileName EmptyString (snd renamed))
     = Error ErrNotFound.
Proof.
  intros Hq Hparse Hsrc Hfree renamed. subst renamed.
  assert (Hne : (bucket, prefix +:+ newFileName) <> (bucket, prefix +:+ fileName))
    by (intros Heq; rewrite Heq in Hfree; congruence).
  run_rename Hq Hfree.
  rewrite Hparse. unfold reserved. rewrite lookup_insert_ne, Hsrc by done.
  rewrite decide_False by (intros Heq; by apply Hne).
  destruct (call_quiet 4 8 w Hq) as [-> ->]; [lia|]. simpl.
  split; [done|]. do 2 run_get Hq. simpl.
  rewrite lookup_delete_ne, lookup_insert_eq, lookup_delete_eq by done. done.
Qed.

(** X13. The empty object a failed rename leaves behind takes the name:
    after a rename that ended in [ErrNotFound], a create-only write under
    the target name and a rename of any note onto it are both refused with
    [ErrAlreadyExists], and a read of the target returns empty content. *)
Theorem failed_rename_takes_the_name (bucket prefix fileName newFileName : string)
    (src : string * string) (w : World) :
  quiet 7 w ->
  store w !! (bucket, prefix +:+ newFileName) = None ->
  parse_copy_source (bucket +:+ "/" +:+ prefix +:+ url.QueryEscape fileName) = Some src ->
  store w !! src = None ->
  src <> (bucket, prefix +:+ newFileName) ->
  let failed := renameFile bucket prefix fileName newFileName w in
  fst failed = Error ErrNotFound
  /\ (forall content,
        fst (saveFileContent bucket prefix newFileName content false (snd failed))
        = Error ErrAlreadyExists)
  /\ (forall other,
        fst (renameFile bucket prefix other newFileName (snd failed))
        = Error ErrAlreadyExists)
  /\ fst (getFileContent bucket prefix newFileName EmptyString (snd failed))
     = Ok {| Content := EmptyString; gfc_ETag := etag_of EmptyString |}.
Proof.
  intros Hq Hfree Hparse Hsrc Hne failed. subst failed.
  run_rename Hq Hfree.
  rewrite Hparse. unfold reserved. rewrite lookup_insert_ne, Hsrc by done.
  simpl. split; [done|]. split; [|split].
  - intros content. run_save Hq.
    rewrite bool_decide_eq_true_2; [done|].
    simpl. rewrite lookup_insert_eq. eauto.
  - intros other. rewrite renameFile_taken; [done|quiet_from Hq|].
    simpl. rewrite lookup_insert_eq. eauto.
  - run_get Hq. simpl.
    by rewrite lookup_insert_eq.
Qed.

End AdapterCompositions.

(** Writing a new note next to the one note and reading it back. *)
Lemma read_your_write_witness :
  quiet 5 one_note
  /\ store one_note !! ("b", "u/new.md") = None
  /\ exists tag,
       fst (saveFileContent (SP := demo_params) "b" "u/" "new.md" "text" false one_note)
         = Ok {| sfc_ETag := tag |}
       /\ fst (getFileContent "b" "u/" "new.md" EmptyString
                 (snd (saveFileContent (SP := demo_params) "b" "u/" "new.md" "text" false
                         one_note)))
          = Ok {| Content := "text"; gfc_ETag := tag |}.
Proof.
  assert (Hq : quiet 5 one_note) by (vm_compute; constructor).
  assert (Hfree : store one_note !! ("b", "u/new.md") = None) by (vm_compute; reflexivity).
  split; [exact Hq|]. split; [exact Hfree|].
  destruct (read_your_write (SP := demo_params) "b" "u/" "new.md" "text" false one_note
              Hq (or_intror Hfree)) as (tag & Hs & Hr & _).
  exists tag. split; [exact Hs | exact Hr].
Defined.

Lemma create_only_first_wins_witness :
  quiet 7 one_note
  /\ store one_note !! ("b", "u/new.md") = None
  /\ fst (saveFileContent (SP := demo_params) "b" "u/" "new.md" "two" false
            (snd (saveFileContent (SP := demo_params) "b" "u/" "new.md" "one" false one_note)))
     = Error ErrAlreadyExists.
Proof.
  assert (Hq : quiet 7 one_note) by (vm_compute; constructor).
  assert (Hfree : store one_note !! ("b", "u/new.md") = None) by (vm_compute; reflexivity).
  split; [exact Hq|]. split; [exact Hfree|].
  exact (proj1 (proj2 (create_only_first_wins (SP := demo_params)
                         "b" "u/" "new.md" "one" "two" one_note Hq Hfree))).
Defined.

Lemma delete_is_idempotent_witness :
  quiet 5 one_note
  /\ fst (deleteFile "b" "u/" "a b.txt" (snd (deleteFile "b" "u/" "a b.txt" one_note))) = None
  /\ fst (getFileContent "b" "u/" "a b.txt" EmptyString
            (snd (deleteFile "b" "u/" "a b.txt" one_note))) = Error ErrNotFound.
Proof.
  assert (Hq : quiet 5 one_note) by (vm_compute; constructor).
  split; [exact Hq|].
  destruct (delete_is_idempotent (SP := demo_params) "b" "u/" "a b.txt" "x" one_note Hq)
    as (_ & H2 & _ & Hr & _).
  split; [exact H2 | exact (Hr EmptyString)].
Defined.

(** Renaming the one note in the store that URL-decodes its copy source. *)
Lemma rename_moves_the_note_witness :
  quiet 8 one_note
  /\ @parse_copy_source demo_params ("b" +:+ "/" +:+ "u/" +:+ url.QueryEscape "a b.txt")
     = Some ("b", "u/" +:+ "a b.txt")
  /\ fst (getFileContent "b" "u/" "c.txt" EmptyString
            (snd (renameFile (SP := demo_params) "b" "u/" "a b.txt" "c.txt" one_note)))
     = Ok {| Content := "hello"; gfc_ETag := "etag-hello" |}
  /\ fst (getFileContent "b" "u/" "a b.txt" EmptyString
            (snd (renameFile (SP := demo_params) "b" "u/" "a b.txt" "c.txt" one_note)))
     = Error ErrNotFound.
Proof.
  assert (Hq : quiet 8 one_note) by (vm_compute; constructor).
  assert (Hp : @parse_copy_source demo_params
                 ("b" +:+ "/" +:+ "u/" +:+ url.QueryEscape "a b.txt")
               = Some ("b", "u/" +:+ "a b.txt")) by reflexivity.
  split; [exact Hq|]. split; [exact Hp|].
  destruct (rename_moves_the_note (SP := demo_params) "b" "u/" "a b.txt" "c.txt"
              (demo_object "hello") one_note Hq Hp)
    as (_ & Hnew & Hold); try (vm_compute; reflexivity).
  split; [exact Hnew | exact Hold].
Defined.

Lemma failed_rename_takes_the_name_witness :
  quiet 7 one_note
  /\ fst (renameFile (SP := demo_params) "b" "u/" "nope.txt" "c.txt" one_note)
     = Error ErrNotFound
  /\ fst (renameFile (SP := demo_params) "b" "u/" "a b.txt" "c.txt"
            (snd (renameFile (SP := demo_params) "b" "u/" "nope.txt" "c.txt" one_note)))
     = Error ErrAlreadyExists.
Proof.
  assert (Hq : quiet 7 one_note) by (vm_compute; constructor).
  split; [exact Hq|].
  destruct (failed_rename_takes_the_name (SP := demo_params) "b" "u/" "nope.txt" "c.txt"
              ("b", "u/nope.txt") one_note Hq)
    as (Hf & _ & Hr & _); try (vm_compute; congruence).
  split; [exact Hf | exact (Hr "a b.txt")].
Defined.

(** ** Listing a whole namespace *)

Lemma int32_small (z : Z) : -2 ^ 31 <= z < 2 ^ 31 -> int32 z = z.
Proof. intros Hz. unfold int32. rewrite Z.mod_small by lia. lia. Qed.

Lemma bucket_entries_mem (bucket prefix : string)
    (s : gmap (string * string) StoredObject) (k : string) (o : StoredObject) :
  s !! (bucket, k) = Some o -> HasPrefix k prefix = true ->
  (k, o) ∈ bucket_entries bucket prefix s.
Proof.
  intros Hl Hp. unfold bucket_entries. apply list_elem_of_omap.
  exists ((bucket, k), o). split; [by apply elem_of_map_to_list|].
  simpl. by rewrite String.eqb_refl, Hp.
Qed.

(** X14. A page large enough for the namespace lists all of it: when the
    objects under the prefix are no more than the page size (at most 1000),
    a first-page listing that meets no failure returns, with [HasMore] false
    and no cursor, a record for every object of a supported type under the
    prefix, carrying the key without the prefix and the object's tag and
    date. *)
Theorem listFiles_whole_namespace (bucket prefix : string) (pageSize : Z) (w : World) :
  quiet 2 w ->
  0 < pageSize <= 1000 ->
  (length (bucket_entries bucket prefix (store w)) <= Z.to_nat pageSize)%nat ->
  exists r,
    fst (listFiles bucket prefix pageSize EmptyString w) = Ok r
    /\ HasMore r = false
    /\ NextContinuationToken r = EmptyString
    /\ forall key o,
         store w !! (bucket, key) = Some o ->
         HasPrefix key prefix = true ->
         isSupportedFileType key = true ->
         {| FileName := fst (CutPrefix key prefix);
            fd_LastModified := LastModified o; fd_ETag := ETag o |} ∈ Files r.
Proof.
  intros Hq Hsize Hfits. rewrite listFiles_run.
  rewrite (quiet_scheduled 2 0 w Hq) by lia.
  destruct (call_quiet 1 2 w Hq) as [_ ->]; [lia|]. cbn zeta.
  unfold store_list, listInput. cbn [lo_MaxKeys lo_ContinuationToken lo_Bucket lo_Prefix].
  rewrite int32_small by lia. rewrite String.eqb_refl.
  destruct (Z.ltb_spec pageSize 0) as [|_]; [lia|].
  eexists. split; [reflexivity|]. cbn [HasMore NextContinuationToken Files fst].
  unfold list_page. cbn [lo_MaxKeys IsTruncated out_NextContinuationToken Contents].
  rewrite Z.min_l by lia.
  assert (Hfull : (Z.to_nat pageSize <? length (bucket_entries bucket prefix (store w)))%nat
                  = false) by (apply Nat.ltb_ge; lia).
  rewrite Hfull, andb_false_r. split; [done|]. split; [done|].
  intros key o Hl Hp Hs. rewrite listFiles_range_spec. simpl.
  apply list_elem_of_fmap. exists (to_S3Object (key, o)). split; [done|].
  apply list_elem_of_filter. split; [exact Hs|].
  apply list_elem_of_fmap. exists (key, o). split; [done|].
  rewrite take_ge by lia. by apply bucket_entries_mem.
Qed.

(** The namespace [u/] of the mixed store, listed in one page of 100. *)
Lemma listFiles_whole_namespace_witness :
  quiet 2 mixed_namespace
  /\ exists r, fst (listFiles "b" "u/" 100 EmptyString mixed_namespace) = Ok r
               /\ HasMore r = false
               /\ {| FileName := "a b.txt"; fd_LastModified := 0; fd_ETag := "etag-hello" |}
                  ∈ Files r.
Proof.
  assert (Hq : quiet 2 mixed_namespace) by (vm_compute; constructor).
  split; [exact Hq|].
  destruct (listFiles_whole_namespace "b" "u/" 100 mixed_namespace Hq)
    as (r & Hr & Hm & _ & Hall); [lia|vm_compute; lia|].
  exists r. split; [exact Hr|]. split; [exact Hm|].
  apply (Hall "u/a b.txt" (demo_object "hello")); vm_compute; reflexivity.
Defined.

(** ** The handlers *)

Lemma listFiles_requests (bucket prefix : string) (pageSize : Z) (token : string) (w : World) :
  exists k,
    (k <= DefaultMaxAttempts)%nat
    /\ requests_of (listFiles bucket prefix pageSize token) w
       = replicate k (ListObjectsV2Req (listInput bucket prefix pageSize token))
    /\ (quiet 2 w -> k = 1%nat).
Proof.
  unfold requests_of. rewrite listFiles_run. cbn zeta.
  destruct (scheduled 0 w) eqn:H0.
  - exists 0%nat. split; [lia|]. split; [apply drop_all|].
    intros Hq. rewrite (quiet_scheduled 2 0 w Hq) in H0 by lia. done.
  - exists (call_attempts 1 w). split; [apply call_attempts_bounds|]. split.
    + destruct (call_failure 1 w); [|destruct (store_list _ (store w))];
        simpl; apply drop_app_length.
    + intros Hq. by destruct (call_quiet 1 2 w Hq) as [-> _]; [lia|].
Qed.

(** X15. The listing handler checks before it asks: a page size above 1000,
    a cursor longer than 1000 bytes or one that does not decode is answered
    with a bad request and the store is not contacted.  A request that
    passes sends the store one list request and no other (once when nothing
    fails in transport, the same request again when the client retries),
    under the caller's prefix, with the decoded cursor, which is the cursor
    as received when it has no [%], and asking for [int32] of the page
    size, or of 100 when the page size is 0: that is the page size itself
    from -2^31 on, a negative one included, and below -2^31 the number it
    wraps around to. *)
Theorem handleGetFiles_request (_bucket : string) (pageSize : Z) (token userId : string)
    (w : World) :
  let query := Some {| PageSize := pageSize; ContinuationToken := token |} in
  let asked (cursor : string) :=
    ListObjectsV2Req
      {| lo_Bucket := _bucket; lo_Prefix := userId +:+ "/";
         lo_MaxKeys := int32 (if pageSize =? 0 then 100 else pageSize);
         lo_ContinuationToken :=
           if String.eqb cursor EmptyString then None else Some cursor |} in
  (1000 < pageSize \/ (1000 < String.length token)%nat \/ url.PathUnescape token = None ->
   handleGetFiles _bucket query userId w = (BadRequest, w))
  /\ (pageSize <= 1000 ->
      (String.length token <= 1000)%nat ->
      forall cursor, url.PathUnescape token = Some cursor ->
      (exists k, (k <= DefaultMaxAttempts)%nat
                 /\ requests_of (handleGetFiles _bucket query userId) w
                    = replicate k (asked cursor))
      /\ (quiet 2 w -> requests_of (handleGetFiles _bucket query userId) w = [asked cursor]))
  /\ (Contains token "%" = false -> url.PathUnescape token = Some token)
  /\ (- 2 ^ 31 <= pageSize <= 1000 ->
      int32 (if pageSize =? 0 then 100 else pageSize) = if pageSize =? 0 then 100 else pageSize)
  /\ (pageSize < - 2 ^ 31 ->
      int32 pageSize = pageSize + 2 ^ 32 * ((- pageSize + 2 ^ 31 - 1) / 2 ^ 32)
      /\ - 2 ^ 31 <= int32 pageSize < 2 ^ 31).
Proof.
  intros query asked. subst query asked.
  unfold handleGetFiles, isPageSizeValid, isContinuationTokenValid.
  cbn [PageSize ContinuationToken]. split; [|split; [|split; [|split]]].
  - intros Hbad.
    destruct (Z.leb_spec pageSize 1000) as [Hp|Hp]; [|reflexivity]. cbn [negb].
    destruct (Nat.leb_spec (String.length token) 1000) as [Ht|Ht]; [|reflexivity]. cbn [negb].
    destruct Hbad as [?|[?| ->]]; [lia|lia|reflexivity].
  - intros Hp Ht cursor Hcursor.
    rewrite (proj2 (Z.leb_le _ _)) by lia. rewrite (proj2 (Nat.leb_le _ _)) by lia.
    cbn [negb]. rewrite Hcursor.
    set (size := if pageSize =? 0 then PAGE_SIZE_DEFAULT else pageSize).
    assert (Hrun : requests_of
                     (bind (listFiles _bucket (userId +:+ "/") size cursor)
                        (fun listed =>
                           match listed with
                           | Ok result =>
                               ret (Success
                                      {| gf_Files := handleGetFiles_range (Files result) [];
                                         gf_HasMore := HasMore result;
                                         gf_NextContinuationToken :=
                                           url.QueryEscape (NextContinuationToken result) |})
                           | Error err =>
                               if decide (err = ErrInvalidArgument) then ret BadRequest
                               else ret (InternalServerError err)
                           end)) w
                   = requests_of (listFiles _bucket (userId +:+ "/") size cursor) w).
    { unfold requests_of, bind.
      destruct (listFiles _bucket (userId +:+ "/") size cursor w) as [[r|e] w']; [done|].
      by destruct (decide (e = ErrInvalidArgument)). }
    rewrite Hrun.
    destruct (listFiles_requests _bucket (userId +:+ "/") size cursor w)
      as (k & Hk & Hr & Hone).
    rewrite Hr. unfold listInput. fold size. unfold PAGE_SIZE_DEFAULT in size. fold size.
    split; [by eauto|]. intros Hq. by rewrite (Hone Hq).
  - apply PathUnescape_without_percent.
  - intros Hp. destruct (pageSize =? 0); apply int32_small; lia.
  - intros Hp. unfold int32.
    assert (Hmod : (pageSize + 2 ^ 31) mod 2 ^ 32
                   = pageSize + 2 ^ 31 + 2 ^ 32 * ((- pageSize + 2 ^ 31 - 1) / 2 ^ 32)).
    { symmetry. apply (Z.mod_unique_pos _ _ (- ((- pageSize + 2 ^ 31 - 1) / 2 ^ 32))).
      - pose proof (Z.mod_pos_bound (- pageSize + 2 ^ 31 - 1) (2 ^ 32) ltac:(lia)) as Hb.
        pose proof (Z.div_mod (- pageSize + 2 ^ 31 - 1) (2 ^ 32) ltac:(lia)) as Hd. lia.
      - lia. }
    pose proof (Z.mod_pos_bound (pageSize + 2 ^ 31) (2 ^ 32) ltac:(lia)) as Hb.
    rewrite Hmod in *. lia.
Qed.

(** A page size of 0 on the one note: the store is asked for 100 entries;
    a page size of -4294967295, which is not rejected: for one entry. *)
Lemma handleGetFiles_request_witness :
  quiet 2 one_note
  /\ requests_of (handleGetFiles "b" (Some {| PageSize := 0; ContinuationToken := EmptyString |})
                    "u") one_note
     = [ListObjectsV2Req {| lo_Bucket := "b"; lo_Prefix := "u/"; lo_MaxKeys := 100;
                            lo_ContinuationToken := None |}]
  /\ requests_of (handleGetFiles "b" (Some {| PageSize := -4294967295;
                                              ContinuationToken := EmptyString |})
                    "u") one_note
     = [ListObjectsV2Req {| lo_Bucket := "b"; lo_Prefix := "u/"; lo_MaxKeys := 1;
                            lo_ContinuationToken := None |}].
Proof.
  assert (Hq : quiet 2 one_note) by (vm_compute; constructor).
  split; [exact Hq|]. split.
  - destruct (handleGetFiles_request "b" 0 EmptyString "u" one_note) as (_ & H & _).
    destruct (H ltac:(lia) ltac:(vm_compute; lia) EmptyString eq_refl) as [_ Hone].
    exact (Hone Hq).
  - destruct (handleGetFiles_request "b" (-4294967295) EmptyString "u" one_note)
      as (_ & H & _).
    destruct (H ltac:(lia) ltac:(vm_compute; lia) EmptyString eq_refl) as [_ Hone].
    exact (Hone Hq).
Defined.

Section FileHandlerTheorems.
Context `{SP : StoreParams}.

(** X16. The file handlers check before they act: a request whose file
    name fails [isFileNameValid] or does not decode, whose body is over
    100KB (put, post), or whose [If-None-Match] tag is over 100 bytes (get)
    is answered with status 400, and nothing is sent to the store; for a
    rename this holds of either name. *)
Theorem file_handlers_reject_bad_input (_bucket userId : string) (w : World) :
  let rejected (run : Reply * World) :=
    Status (fst run) = StatusBadRequest /\ snd run = w in
  (forall raw, isFileNameValid raw = false \/ url.PathUnescape raw = None ->
     (forall ifNoneMatch,
         rejected (handleGetFile _bucket (Ok {| gfi_FileName := raw |}) ifNoneMatch userId w))
     /\ (forall body,
           rejected (handlePutFile _bucket (Ok {| pfi_FileName := raw |}) body userId w)
           /\ rejected (handlePostFile _bucket (Ok {| pofi_FileName := raw |}) body userId w))
     /\ rejected (handleDeleteFile _bucket (Ok {| dfi_FileName := raw |}) userId w)
     /\ (forall other,
           rejected (handleRenameFile _bucket
                       (Ok {| rfi_FileName := raw; rfi_NewFileName := other |}) userId w)
           /\ rejected (handleRenameFile _bucket
                          (Ok {| rfi_FileName := other; rfi_NewFileName := raw |}) userId w)))
  /\ (forall raw body, isContentValid body = false ->
        rejected (handlePutFile _bucket (Ok {| pfi_FileName := raw |}) body userId w)
        /\ rejected (handlePostFile _bucket (Ok {| pofi_FileName := raw |}) body userId w))
  /\ (forall raw etag rest, isEtagValid etag = false ->
        rejected (handleGetFile _bucket (Ok {| gfi_FileName := raw |}) (etag :: rest) userId w)).
Proof.
  intros rejected. subst rejected. cbn beta.
  split; [|split].
  - intros raw Hbad.
    assert (Hraw : isFileNameValid raw = false
                   \/ (isFileNameValid raw = true /\ url.PathUnescape raw = None)).
    { destruct (isFileNameValid raw); [right|left]; [|done].
      destruct Hbad as [?|?]; done. }
    split; [|split; [|split]].
    + intros inm. unfold handleGetFile. cbn [gfi_FileName].
      destruct Hraw as [-> | [-> ->]]; done.
    + intros body. unfold handlePutFile, handlePostFile. cbn [pfi_FileName pofi_FileName].
      destruct Hraw as [-> | [-> ->]]; done.
    + unfold handleDeleteFile. cbn [dfi_FileName].
      destruct Hraw as [-> | [-> ->]]; done.
    + intros other. unfold handleRenameFile. cbn [rfi_FileName rfi_NewFileName].
      split; [destruct Hraw as [-> | [-> ->]]; done|].
      destruct (isFileNameValid other); [|done]. cbn [negb].
      destruct (url.PathUnescape other); [|done].
      destruct Hraw as [-> | [-> ->]]; done.
  - intros raw body Hbig. unfold handlePutFile, handlePostFile.
    cbn [pfi_FileName pofi_FileName].
    destruct (isFileNameValid raw); [|done]. cbn [negb].
    destruct (url.PathUnescape raw); [|done]. rewrite Hbig. done.
  - intros raw etag rest Hlong. unfold handleGetFile. cbn [gfi_FileName].
    destruct (isFileNameValid raw); [|done]. cbn [negb].
    destruct (url.PathUnescape raw); [|done]. rewrite Hlong. done.
Qed.

(** X17. Creating a note over HTTP: for a valid request that meets no
    transport failure, the post handler answers 409 with the text "already
    exists" when an object is at the key [userId/name], leaving the store
    as it is, and otherwise 204 with the tag of the body in the [ETag]
    header, the body being stored at that key. *)
Theorem handlePostFile_creates_or_conflicts (_bucket raw name body userId : string)
    (w : World) :
  quiet 2 w ->
  isFileNameValid raw = true ->
  url.PathUnescape raw = Some name ->
  isContentValid body = true ->
  let key := (_bucket, (userId +:+ "/") +:+ name) in
  let run := handlePostFile _bucket (Ok {| pofi_FileName := raw |}) body userId w in
  (is_Some (store w !! key) ->
     fst run = toConflict "already exists" /\ store (snd run) = store w)
  /\ (store w !! key = None ->
      fst run = toNoContentWithEtag (etag_of body)
      /\ exists o, store (snd run) !! key = Some o /\ Body o = body).
Proof.
  intros Hq Hvalid Hname Hbody key run. subst run.
  unfold handlePostFile. cbn [pofi_FileName]. rewrite Hvalid, Hname, Hbody. cbn [negb].
  unfold bind. run_save Hq. fold key. split.
  - intros Htaken. rewrite bool_decide_eq_true_2 by done. done.
  - intros Hfree. rewrite bool_decide_eq_false_2 by (intros [_ [? ?]]; congruence).
    simpl. split; [done|]. eexists. rewrite lookup_insert_eq. done.
Qed.

(** X18. Saving a note over HTTP: the put handler never answers anything
    but 204, 400 or 500, whatever the request and whatever fails; and for a
    valid request that meets no transport failure it answers 204 with the
    tag of the body, which is then stored at the key [userId/name] whatever
    was there. *)
Theorem handlePutFile_overwrites (_bucket userId : string) (w : World) :
  (forall bound body,
      Status (fst (handlePutFile _bucket bound body userId w))
      ∈ [StatusNoContent; StatusBadRequest; StatusInternalServerError])
  /\ (forall raw name body,
        quiet 2 w ->
        isFileNameValid raw = true ->
        url.PathUnescape raw = Some name ->
        isContentValid body = true ->
        let key := (_bucket, (userId +:+ "/") +:+ name) in
        let run := handlePutFile _bucket (Ok {| pfi_FileName := raw |}) body userId w in
        fst run = toNoContentWithEtag (etag_of body)
        /\ exists o, store (snd run) !! key = Some o /\ Body o = body).
Proof.
  split.
  - intros bound body. unfold handlePutFile.
    destruct bound as [putFileIn|err]; [|set_solver].
    destruct (negb (isFileNameValid _)); [set_solver|].
    destruct (url.PathUnescape _) as [name|]; [|set_solver].
    destruct (negb (isContentValid _)); [set_solver|].
    unfold bind. destruct (saveFileContent _ _ _ _ _ w) as [[r|e] w']; set_solver.
  - intros raw name body Hq Hvalid Hname Hbody key run. subst run.
    unfold handlePutFile. cbn [pfi_FileName]. rewrite Hvalid, Hname, Hbody. cbn [negb].
    unfold bind. run_save Hq. fold key.
    rewrite bool_decide_eq_false_2 by (intros [? _]; discriminate).
    simpl. split; [done|]. eexists. rewrite lookup_insert_eq. done.
Qed.

(** X19. Reading a note over HTTP: for a valid request that meets no
    transport failure, the get handler answers 404 when no object is at the
    key [userId/name]; 200 with the content as text and the tag in the
    [ETag] header when the request has no [If-None-Match]; and 304 when the
    first [If-None-Match] value is the object's tag (any further value
    being ignored). *)
Theorem handleGetFile_answers (_bucket raw name userId : string) (w : World) :
  quiet 3 w ->
  isFileNameValid raw = true ->
  url.PathUnescape raw = Some name ->
  let key := (_bucket, (userId +:+ "/") +:+ name) in
  let answer ifNoneMatch :=
    fst (handleGetFile _bucket (Ok {| gfi_FileName := raw |}) ifNoneMatch userId w) in
  (store w !! key = None ->
   forall ifNoneMatch,
     match ifNoneMatch with first :: _ => isEtagValid first = true | [] => True end ->
     answer ifNoneMatch = toNotFound)
  /\ (forall o, store w !! key = Some o ->
        answer [] = toPlainTextWithEtag (Body o) (ETag o)
        /\ (forall rest, ETag o <> EmptyString -> isEtagValid (ETag o) = true ->
              answer (ETag o :: rest) = toNotModified)).
Proof.
  intros Hq Hvalid Hname key answer. subst answer. cbn beta.
  unfold handleGetFile. cbn [gfi_FileName]. rewrite Hvalid, Hname. cbn [negb].
  split.
  - intros Hnone [|first rest] Hetag.
    + cbn [isEtagValid String.length Nat.leb negb]. unfold bind. run_get Hq.
      fold key. rewrite Hnone. reflexivity.
    + rewrite Hetag. cbn [negb]. unfold bind. run_get Hq.
      fold key. rewrite Hnone. reflexivity.
  - intros o Ho. split.
    + cbn [isEtagValid String.length Nat.leb negb]. unfold bind. run_get Hq.
      fold key. rewrite Ho. reflexivity.
    + intros rest Hne Hetag. rewrite Hetag. cbn [negb]. unfold bind. run_get Hq.
      fold key. rewrite Ho. apply String.eqb_neq in Hne.
      rewrite Hne, String.eqb_refl. reflexivity.
Qed.

(** X20. Deleting a note over HTTP: the delete handler never answers 404 or
    anything but 204, 400 or 500; and for a valid request that meets no
    transport failure it answers 204 whether or not the note existed, no
    object being at the key [userId/name] afterwards. *)
Theorem handleDeleteFile_answers (_bucket userId : string) (w : World) :
  (forall bound,
      Status (fst (handleDeleteFile _bucket bound userId w))
      ∈ [StatusNoContent; StatusBadRequest; StatusInternalServerError])
  /\ (forall raw name,
        quiet 2 w ->
        isFileNameValid raw = true ->
        url.PathUnescape raw = Some name ->
        let run := handleDeleteFile _bucket (Ok {| dfi_FileName := raw |}) userId w in
        fst run = toNoContent
        /\ store (snd run) !! (_bucket, (userId +:+ "/") +:+ name) = None).
Proof.
  split.
  - intros bound. unfold handleDeleteFile.
    destruct bound as [deleteFileIn|err]; [|set_solver].
    destruct (negb (isFileNameValid _)); [set_solver|].
    destruct (url.PathUnescape _) as [name|]; [|set_solver].
    unfold bind. destruct (deleteFile _ _ _ w) as [[e|] w']; set_solver.
  - intros raw name Hq Hvalid Hname run. subst run.
    unfold handleDeleteFile. cbn [dfi_FileName]. rewrite Hvalid, Hname. cbn [negb].
    unfold bind. rewrite deleteFile_quiet by exact Hq. simpl.
    split; [done|]. apply lookup_delete_eq.
Qed.

(** X21. Renaming a note over HTTP: for a valid request that meets no
    transport failure, the rename handler answers 409 with the text
    "already exists" when the new name is taken, the store staying as it
    is.  With the new name free it answers 404 when the source of the copy
    does not exist and is another key than the target; 500 when the source
    of the copy is the target key itself (a file that is not there, renamed
    onto its own name: the store refuses the copy of the reserved object
    onto itself); and 204 with the tag of the source's content when the
    source exists.  When the store cannot read the name of the source it
    answers 500 as well.  In the 404 case and in both 500 cases an empty
    object is left at the target key. *)
Theorem handleRenameFile_answers (_bucket raw name rawNew newName userId : string)
    (w : World) :
  quiet 5 w ->
  isFileNameValid raw = true -> url.PathUnescape raw = Some name ->
  isFileNameValid rawNew = true -> url.PathUnescape rawNew = Some newName ->
  let prefix := userId +:+ "/" in
  let target := (_bucket, prefix +:+ newName) in
  let run := handleRenameFile _bucket
               (Ok {| rfi_FileName := raw; rfi_NewFileName := rawNew |}) userId w in
  let stray := exists o, store (snd run) !! target = Some o /\ Body o = EmptyString in
  (is_Some (store w !! target) ->
     fst run = toConflict "already exists" /\ store (snd run) = store w)
  /\ (store w !! target = None ->
      forall src,
        parse_copy_source (_bucket +:+ "/" +:+ prefix +:+ url.QueryEscape name) = Some src ->
        (store w !! src = None -> src <> target -> fst run = toNotFound /\ stray)
        /\ (src = target -> fst run = toInternalServerError "service unavailable" /\ stray)
        /\ (forall o, store w !! src = Some o ->
              fst run = toNoContentWithEtag (etag_of (Body o))))
  /\ (store w !! target = None ->
      parse_copy_source (_bucket +:+ "/" +:+ prefix +:+ url.QueryEscape name) = None ->
      fst run = toInternalServerError "service unavailable" /\ stray).
Proof.
  intros Hq Hvalid Hname HvalidNew HnameNew prefix target run stray. subst run stray.
  unfold handleRenameFile. cbn [rfi_FileName rfi_NewFileName].
  rewrite Hvalid, Hname, HvalidNew, HnameNew. cbn [negb]. unfold bind. fold prefix.
  split; [|split].
  - intros Htaken. rewrite renameFile_taken by (first [quiet_from Hq | done]). done.
  - intros Hfree src Hparse. run_rename Hq Hfree. rewrite Hparse. unfold reserved.
    fold target. destruct (call_quiet 4 5 w Hq) as [-> ->]; [lia|].
    split; [|split].
    + intros Hnone Hne. rewrite lookup_insert_ne, Hnone by done.
      split; [reflexivity|]. simpl. eexists. by rewrite lookup_insert_eq.
    + intros ->. rewrite lookup_insert_eq, decide_True by done.
      split; [reflexivity|]. simpl. eexists. by rewrite lookup_insert_eq.
    + intros o Ho.
      assert (Hne : target <> src) by (intros <-; congruence).
      rewrite lookup_insert_ne, Ho by done.
      rewrite decide_False by (intros Heq; by apply Hne). reflexivity.
  - intros Hfree Hparse. run_rename Hq Hfree. rewrite Hparse. unfold reserved.
    fold target. split; [reflexivity|]. simpl. eexists. by rewrite lookup_insert_eq.
Qed.

End FileHandlerTheorems.

(** The handlers on the store holding the note [a b.txt] of user [u],
    named [a%20b.txt] in the requests. *)
Lemma file_handlers_reject_bad_input_witness :
  isFileNameValid "notes.pdf" = false
  /\ handleDeleteFile "b" (Ok {| dfi_FileName := "notes.pdf" |}) "u" one_note
     = (toBadRequest (invalidFileName "notes.pdf"), one_note)
  /\ Status (fst (handlePutFile (SP := demo_params) "b" (Ok {| pfi_FileName := "notes.pdf" |})
                    "text" "u" one_note)) = StatusBadRequest.
Proof.
  assert (Hbad : isFileNameValid "notes.pdf" = false) by reflexivity.
  split; [exact Hbad|]. split; [reflexivity|].
  destruct (file_handlers_reject_bad_input (SP := demo_params) "b" "u" one_note) as [H _].
  destruct (H "notes.pdf" (or_introl Hbad)) as (_ & Hput & _).
  exact (proj1 (proj1 (Hput "text"))).
Defined.

Lemma handlePostFile_creates_or_conflicts_witness :
  quiet 2 one_note
  /\ isFileNameValid "a%20b.txt" = true
  /\ url.PathUnescape "a%20b.txt" = Some "a b.txt"
  /\ fst (handlePostFile (SP := demo_params) "b" (Ok {| pofi_FileName := "a%20b.txt" |})
            "text" "u" one_note)
     = toConflict "already exists".
Proof.
  assert (Hq : quiet 2 one_note) by (vm_compute; constructor).
  assert (Hv : isFileNameValid "a%20b.txt" = true) by reflexivity.
  assert (Hn : url.PathUnescape "a%20b.txt" = Some "a b.txt") by reflexivity.
  split; [exact Hq|]. split; [exact Hv|]. split; [exact Hn|].
  destruct (handlePostFile_creates_or_conflicts (SP := demo_params)
              "b" "a%20b.txt" "a b.txt" "text" "u" one_note Hq Hv Hn eq_refl) as [Hc _].
  apply Hc. vm_compute. eauto.
Defined.

Lemma handlePutFile_overwrites_witness :
  quiet 2 one_note
  /\ fst (handlePutFile (SP := demo_params) "b" (Ok {| pfi_FileName := "a%20b.txt" |})
            "text" "u" one_note)
     = toNoContentWithEtag "etag-text".
Proof.
  assert (Hq : quiet 2 one_note) by (vm_compute; constructor).
  split; [exact Hq|].
  destruct (handlePutFile_overwrites (SP := demo_params) "b" "u" one_note) as [_ H].
  exact (proj1 (H "a%20b.txt" "a b.txt" "text" Hq eq_refl eq_refl eq_refl)).
Defined.

Lemma handleGetFile_answers_witness :
  quiet 3 one_note
  /\ fst (handleGetFile "b" (Ok {| gfi_FileName := "a%20b.txt" |}) [] "u" one_note)
     = toPlainTextWithEtag "hello" "etag-hello"
  /\ fst (handleGetFile "b" (Ok {| gfi_FileName := "a%20b.txt" |}) ["etag-hello"] "u" one_note)
     = toNotModified
  /\ fst (handleGetFile "b" (Ok {| gfi_FileName := "nope.txt" |}) [] "u" one_note)
     = toNotFound.
Proof.
  assert (Hq : quiet 3 one_note) by (vm_compute; constructor).
  split; [exact Hq|].
  destruct (handleGetFile_answers "b" "a%20b.txt" "a b.txt" "u" one_note Hq eq_refl eq_refl)
    as [_ Hsome].
  destruct (Hsome (demo_object "hello")) as [Hplain Hsame]; [vm_compute; reflexivity|].
  split; [exact Hplain|]. split.
  - apply (Hsame []); [discriminate|reflexivity].
  - destruct (handleGetFile_answers "b" "nope.txt" "nope.txt" "u" one_note Hq eq_refl eq_refl)
      as [Hnone _].
    apply (Hnone ltac:(vm_compute; reflexivity) []). exact I.
Defined.

Lemma handleDeleteFile_answers_witness :
  quiet 2 one_note
  /\ fst (handleDeleteFile "b" (Ok {| dfi_FileName := "nope.txt" |}) "u" one_note)
     = toNoContent.
Proof.
  assert (Hq : quiet 2 one_note) by (vm_compute; constructor).
  split; [exact Hq|].
  destruct (handleDeleteFile_answers "b" "u" one_note) as [_ H].
  exact (proj1 (H "nope.txt" "nope.txt" Hq eq_refl eq_refl)).
Defined.

Lemma handleRenameFile_answers_witness :
  quiet 5 one_note
  /\ fst (handleRenameFile (SP := demo_params) "b"
            (Ok {| rfi_FileName := "a%20b.txt"; rfi_NewFileName := "c.txt" |}) "u" one_note)
     = toNoContentWithEtag "etag-hello"
  /\ fst (handleRenameFile (SP := demo_params) "b"
            (Ok {| rfi_FileName := "nope.txt"; rfi_NewFileName := "a%20b.txt" |}) "u" one_note)
     = toConflict "already exists"
  /\ fst (handleRenameFile (SP := demo_params) "b"
            (Ok {| rfi_FileName := "nope.txt"; rfi_NewFileName := "nope.txt" |}) "u" one_note)
     = toInternalServerError "service unavailable".
Proof.
  assert (Hq : quiet 5 one_note) by (vm_compute; constructor).
  split; [exact Hq|]. split; [|split].
  - destruct (handleRenameFile_answers (SP := demo_params)
                "b" "a%20b.txt" "a b.txt" "c.txt" "c.txt" "u" one_note
                Hq eq_refl eq_refl eq_refl eq_refl) as (_ & Hfree & _).
    destruct (Hfree ltac:(vm_compute; reflexivity) ("b", "u/a b.txt") eq_refl)
      as (_ & _ & Hok).
    apply (Hok (demo_object "hello")). vm_compute. reflexivity.
  - destruct (handleRenameFile_answers (SP := demo_params)
                "b" "nope.txt" "nope.txt" "a%20b.txt" "a b.txt" "u" one_note
                Hq eq_refl eq_refl eq_refl eq_refl) as [Htaken _].
    apply Htaken. vm_compute. eauto.
  - destruct (handleRenameFile_answers (SP := demo_params)
                "b" "nope.txt" "nope.txt" "nope.txt" "nope.txt" "u" one_note
                Hq eq_refl eq_refl eq_refl eq_refl) as (_ & Hfree & _).
    destruct (Hfree ltac:(vm_compute; reflexivity) ("b", "u/nope.txt") eq_refl)
      as (_ & Hself & _).
    apply Hself. reflexivity.
Defined.

(** ** The identity token *)

(** X22. [parseAndValidateIdToken] accepts a token exactly when the library
    parses it into a valid token with Cognito claims whose audience is one
    of the two app clients, whose issuer is the user pool, whose
    [token_use] is [id] (so never an access token), and whose subject and
    email are not empty; the identity returned is that subject and that
    email, which pass [isUserIdValid] and [isEmailValid]. *)
Theorem parseAndValidateIdToken_accepts (ParseWithClaims : string -> result string Token)
    (idToken : string) (data : parsedTokenData) :
  parseAndValidateIdToken ParseWithClaims idToken = Ok data
  <-> exists token claims,
        ParseWithClaims idToken = Ok token
        /\ Claims token = Some claims /\ Valid token = true
        /\ Audience claims ∈ tokenAudiences
        /\ Issuer claims = tokenIssuer
        /\ TokenUse claims = "id"
        /\ data = {| UserId := Subject claims; EMail := Email claims |}
        /\ isUserIdValid (UserId data) = true /\ isEmailValid (EMail data) = true.
Proof.
  assert (Haud : forall aud, slices_Contains tokenAudiences aud = true <-> aud ∈ tokenAudiences).
  { intros aud. unfold slices_Contains, tokenAudiences. cbn [existsb].
    rewrite !orb_true_iff, !String.eqb_eq, !elem_of_cons, elem_of_nil. split.
    - intros [H|[H|H]]; [left|right; left|discriminate H]; by subst.
    - intros [H|[H|H]]; [left|right; left|destruct H]; by subst. }
  unfold parseAndValidateIdToken, isUserIdValid, isEmailValid. split.
  - destruct (ParseWithClaims idToken) as [token|err]; [|done].
    destruct (Claims token) as [claims|] eqn:Hclaims; [|done].
    destruct (Valid token) eqn:Hvalid; [|done]. cbn [negb].
    destruct (slices_Contains tokenAudiences (Audience claims)) eqn:Ha; [|done]. cbn [negb].
    destruct (String.eqb_spec (Issuer claims) tokenIssuer) as [Hi|]; [|done]. cbn [negb].
    destruct (String.eqb_spec (TokenUse claims) "id") as [Hu|]; [|done]. cbn [negb].
    destruct (String.eqb (Subject claims) EmptyString) eqn:Hs; [done|].
    destruct (String.eqb (Email claims) EmptyString) eqn:He; [done|].
    intros [= <-]. exists token, claims. cbn [UserId EMail]. rewrite Hs, He.
    apply Haud in Ha. done.
  - intros (token & claims & -> & -> & -> & Ha & -> & -> & -> & Hs & He).
    cbn [UserId EMail] in Hs, He. apply negb_true_iff in Hs, He.
    apply Haud in Ha. rewrite Ha, Hs, He. cbn [negb].
    rewrite !String.eqb_refl. reflexivity.
Qed.

(** An identity token is accepted and gives the subject and the email. *)
Lemma parseAndValidateIdToken_accepts_witness :
  parseAndValidateIdToken (fun _ => Ok id_token) "header.payload.signature"
  = Ok {| UserId := "u"; EMail := "u@example.org" |}.
Proof.
  apply (proj2 (parseAndValidateIdToken_accepts (fun _ => Ok id_token)
                  "header.payload.signature" {| UserId := "u"; EMail := "u@example.org" |})).
  eexists _, _. split; [reflexivity|]. split; [reflexivity|]. split; [reflexivity|].
  split; [apply elem_of_cons; by left|]. done.
Defined.

(** Writing, deleting and renaming in the namespace [u/] leave the note of
    the other user where it is. *)
Lemma adapter_stays_in_namespace_witness :
  HasPrefix "v/other.txt" "u/" = false
  /\ store (snd (renameFile (SP := demo_params) "b" "u/" "a b.txt" "c.txt" mixed_namespace))
       !! ("b", "v/other.txt")
     = store mixed_namespace !! ("b", "v/other.txt").
Proof.
  assert (Hp : HasPrefix "v/other.txt" "u/" = false) by reflexivity.
  split; [exact Hp|].
  destruct (adapter_stays_in_namespace (SP := demo_params) "b" "u/" mixed_namespace)
    as (_ & _ & H).
  destruct (H "b" "v/other.txt" (or_intror Hp)) as (_ & _ & Hr).
  exact (Hr "a b.txt" "c.txt").
Defined.

(** A rename onto a taken name fails with one of its three errors. *)
Lemma adapter_error_taxonomy_witness :
  fst (renameFile (SP := demo_params) "b" "u/" "x.txt" "a b.txt" one_note)
    = Error ErrAlreadyExists
  /\ (ErrAlreadyExists = ErrAlreadyExists \/ ErrAlreadyExists = ErrNotFound
      \/ ErrAlreadyExists = ErrServiceUnavailable).
Proof.
  assert (Hr : fst (renameFile (SP := demo_params) "b" "u/" "x.txt" "a b.txt" one_note)
               = Error ErrAlreadyExists) by (vm_compute; reflexivity).
  split; [exact Hr|].
  destruct (adapter_error_taxonomy (SP := demo_params) "b" "u/" one_note)
    as (_ & _ & _ & H & _).
  exact (H "x.txt" "a b.txt" ErrAlreadyExists Hr).
Defined.
